(** * TranscodeManager: the task supervisor subsystem

    A shallow embedding of the Go packages [parse] (progress parser),
    [ffmpeg] (address validator), [process] (child supervisor) and [task]
    (configuration and in-memory registry), followed by the properties of
    the specification that were checked against them.

    Conventions of the embedding:
    - Go [uint64] and [int] values are integers in [Z], wrap-around written
      out where the code computes with them;
    - Go [float64] is Rocq's primitive binary64 [float];
    - Go [string] is [string] (a sequence of bytes);
    - a Go [error] is [option string]: [None] is [nil], [Some msg] an error
      with text [msg];
    - [time.Time] is an integer instant, the zero instant being [0];
    - mutated receivers are passed and returned explicitly; what the
      operating system answers (spawn, signal, wait, clock) is an argument. *)

From Stdlib Require Import ZArith String Ascii List Bool Lia.
From Stdlib Require Import PrimFloat SpecFloat FloatOps FloatAxioms.
From stdpp Require Import base option list gmap strings.

Import ListNotations.
Local Open Scope string_scope.
Local Open Scope list_scope.
Local Open Scope Z_scope.

(** ** Go values *)

Definition error := option string.

Definition uint64_mod : Z := 2 ^ 64.

(** Arithmetic on [uint64] wraps around. *)
Definition wrap_uint64 (z : Z) : Z := z mod uint64_mod.

(** Arithmetic on [int] (64 bits, two's complement) wraps around. *)
Definition wrap_int (z : Z) : Z := (z + 2 ^ 63) mod uint64_mod - 2 ^ 63.

(** [float64(z)] for an integer [z]: the nearest binary64, ties to even. *)
Definition float64_of_Z (z : Z) : float :=
  SF2Prim (binary_normalize prec emax z 0 false).

(** ** Byte classes and the matching primitives behind the regular
    expressions of the parser.  The patterns are ASCII only, so matching on
    bytes and matching on runes agree. *)

Definition byte_of (c : ascii) : Z := Z.of_N (N_of_ascii c).

(** The class [[0-9]]. *)
Definition is_digit (c : ascii) : bool :=
  (48 <=? byte_of c) && (byte_of c <=? 57).

(** The class [\s] of RE2: tab, newline, form feed, carriage return, space. *)
Definition is_space (c : ascii) : bool :=
  let n := byte_of c in
  (n =? 9) || (n =? 10) || (n =? 12) || (n =? 13) || (n =? 32).

(** The class [[0-9\.]]. *)
Definition is_digit_or_dot (c : ascii) : bool :=
  is_digit c || (byte_of c =? 46).

(** [strip_prefix lit s] is [Some rest] when [s = lit ++ rest]. *)
Fixpoint strip_prefix (lit s : string) : option string :=
  match lit with
  | EmptyString => Some s
  | String c lit' =>
      match s with
      | EmptyString => None
      | String d s' => if Ascii.eqb c d then strip_prefix lit' s' else None
      end
  end.

(** The longest prefix of [s] whose bytes satisfy [f], and what follows:
    a greedy [[...]*]. *)
Fixpoint span (f : ascii -> bool) (s : string) : string * string :=
  match s with
  | EmptyString => (EmptyString, EmptyString)
  | String c s' =>
      if f c then let '(a, b) := span f s' in (String c a, b)
      else (EmptyString, s)
  end.

(** A greedy [\s*]. *)
Definition skip_spaces (s : string) : string := snd (span is_space s).

(** A greedy [[...]+]: fails on an empty run. *)
Definition span1 (f : ascii -> bool) (s : string) : option (string * string) :=
  let '(a, b) := span f s in
  match a with EmptyString => None | _ => Some (a, b) end.

(** Exactly two digits, [[0-9]{2}]. *)
Definition two_digits (s : string) : option (string * string) :=
  match s with
  | String a (String b rest) =>
      if is_digit a && is_digit b
      then Some (String a (String b EmptyString), rest) else None
  | _ => None
  end.

(** Leftmost match: the anchored matcher [m] is tried at every offset of
    [s], from the left, the end of the string included. *)
Fixpoint search {A : Type} (m : string -> option A) (s : string) : option A :=
  match m s with
  | Some r => Some r
  | None =>
      match s with
      | EmptyString => None
      | String _ s' => search m s'
      end
  end.

(** [strings.Contains]. *)
Definition Contains (s sub : string) : bool :=
  match search (strip_prefix sub) s with Some _ => true | None => false end.

(** ** strconv *)

Definition digit_value (c : ascii) : option Z :=
  if is_digit c then Some (byte_of c - 48) else None.

Fixpoint decimal_value (acc : Z) (s : string) : option Z :=
  match s with
  | EmptyString => Some acc
  | String c s' =>
      match digit_value c with
      | Some d => decimal_value (acc * 10 + d) s'
      | None => None
      end
  end.

(** [strconv.ParseUint(s, 10, 64)]: [None] on a syntax or range error. *)
Definition ParseUint (s : string) : option Z :=
  match s with
  | EmptyString => None
  | _ =>
      match decimal_value 0 s with
      | Some v => if v <? uint64_mod then Some v else None
      | None => None
      end
  end.

(** The value [strconv.Atoi] returns, its error dropped ([h, _ := ...]),
    on the unsigned digit runs the parser passes to it: the number, or the
    largest [int] when it is out of range; [0] on a syntax error. *)
Definition Atoi (s : string) : Z :=
  match s with
  | EmptyString => 0
  | _ =>
      match decimal_value 0 s with
      | Some v => if v <? 2 ^ 63 then v else 2 ^ 63 - 1
      | None => 0
      end
  end.

(** The digits of [s] without its dots, and the number of digits after the
    first dot; [None] when there is a second dot or a foreign byte. *)
Fixpoint float_digits (s : string) (sawdot : bool) (acc : Z) (frac : nat)
  : option (Z * nat * bool) :=
  match s with
  | EmptyString => Some (acc, frac, sawdot)
  | String c s' =>
      if byte_of c =? 46 then
        if sawdot then None else float_digits s' true acc frac
      else
        match digit_value c with
        | Some d =>
            float_digits s' sawdot (acc * 10 + d) (if sawdot then S frac else frac)
        | None => None
        end
  end.

Definition has_digit (s : string) : bool :=
  match search (fun t => match t with
                         | String c _ => if is_digit c then Some tt else None
                         | EmptyString => None
                         end) s with
  | Some _ => true
  | None => false
  end.

(** [strconv.ParseFloat(s, 64)] on the strings of [[0-9\.]+] the parser
    passes to it: the decimal [m / 10^k] correctly rounded (ties to even);
    [None] on a syntax error (no digit, two dots) or a range error. *)
Definition ParseFloat (s : string) : option float :=
  if has_digit s then
    match float_digits s false 0 0 with
    | Some (m, k, _) =>
        match m with
        | Zpos pm =>
            let q := SFdiv prec emax (S754_finite false pm 0)
                       (S754_finite false (Z.to_pos (10 ^ Z.of_nat k)) 0) in
            match q with
            | S754_infinity _ | S754_nan => None
            | _ => Some (SF2Prim q)
            end
        | _ => Some (SF2Prim (S754_zero false))
        end
    | None => None
    end
  else None.

(** ** unicode/utf8 and slices of bytes *)

(** [utf8.RuneError]. *)
Definition RuneError : Z := 65533.

(** The table [utf8.first]: information about the first byte of an
    encoding. *)
Definition utf8_first (b : Z) : Z :=
  if b <? 128 then 240          (* as: ASCII *)
  else if b <? 194 then 241     (* xx: invalid *)
  else if b <? 224 then 2       (* s1 *)
  else if b =? 224 then 19      (* s2 *)
  else if b <? 237 then 3       (* s3 *)
  else if b =? 237 then 35      (* s4 *)
  else if b <? 240 then 3       (* s3 *)
  else if b =? 240 then 52      (* s5 *)
  else if b <? 244 then 4       (* s6 *)
  else if b =? 244 then 68      (* s7 *)
  else 241.                     (* xx *)

(** The table [utf8.acceptRanges]. *)
Definition utf8_acceptRanges (i : Z) : Z * Z :=
  if i =? 0 then (128, 191)
  else if i =? 1 then (160, 191)
  else if i =? 2 then (128, 159)
  else if i =? 3 then (144, 191)
  else if i =? 4 then (128, 143)
  else (0, 0).

(** [utf8.DecodeRune]: the rune and its width in bytes. *)
Definition DecodeRune (p : string) : Z * Z :=
  match p with
  | EmptyString => (RuneError, 0)
  | String c0 p1 =>
      let p0 := byte_of c0 in
      let x := utf8_first p0 in
      if 240 <=? x then
        (* mask := rune(x) << 31 >> 31: all ones when x is odd *)
        let mask := if Z.odd x then -1 else 0 in
        (Z.lor (Z.ldiff p0 mask) (Z.land RuneError mask), 1)
      else
        let sz := Z.land x 7 in
        let accept := utf8_acceptRanges (Z.shiftr x 4) in
        if Z.of_nat (String.length p) <? sz then (RuneError, 1)
        else
          match p1 with
          | EmptyString => (RuneError, 1)
          | String c1 p2 =>
              let b1 := byte_of c1 in
              if (b1 <? fst accept) || (snd accept <? b1) then (RuneError, 1)
              else if sz <=? 2 then
                (Z.lor (Z.shiftl (Z.land p0 31) 6) (Z.land b1 63), 2)
              else
                match p2 with
                | EmptyString => (RuneError, 1)
                | String c2 p3 =>
                    let b2 := byte_of c2 in
                    if (b2 <? 128) || (191 <? b2) then (RuneError, 1)
                    else if sz <=? 3 then
                      (Z.lor (Z.lor (Z.shiftl (Z.land p0 15) 12)
                                (Z.shiftl (Z.land b1 63) 6))
                         (Z.land b2 63), 3)
                    else
                      match p3 with
                      | EmptyString => (RuneError, 1)
                      | String c3 _ =>
                          let b3 := byte_of c3 in
                          if (b3 <? 128) || (191 <? b3) then (RuneError, 1)
                          else
                            (Z.lor (Z.lor (Z.lor (Z.shiftl (Z.land p0 7) 18)
                                             (Z.shiftl (Z.land b1 63) 12))
                                      (Z.shiftl (Z.land b2 63) 6))
                               (Z.land b3 63), 4)
                      end
                end
          end
  end.

(** [s[n:]] and [s[:n]]. *)
Fixpoint drop_bytes (n : nat) (s : string) : string :=
  match n, s with
  | S n', String _ s' => drop_bytes n' s'
  | _, _ => s
  end.

Fixpoint take_bytes (n : nat) (s : string) : string :=
  match n, s with
  | S n', String c s' => String c (take_bytes n' s')
  | _, _ => EmptyString
  end.

(** [data[lo:hi]]. *)
Definition slice (data : string) (lo hi : Z) : string :=
  take_bytes (Z.to_nat (hi - lo)) (drop_bytes (Z.to_nat lo) data).

(** A line separator: the bytes [\n] and [\r]. *)
Definition is_eol (c : ascii) : bool := (byte_of c =? 10) || (byte_of c =? 13).

(** Every byte of [s] satisfies [f]. *)
Fixpoint all_bytes (f : ascii -> bool) (s : string) : bool :=
  match s with
  | EmptyString => true
  | String c s' => f c && all_bytes f s'
  end.

(** A byte that is no line separator. *)
Definition not_eol (c : ascii) : bool := negb (is_eol c).

(** ** Package process, part 1: what the parser shares with it *)

Module process_line.

(** [process.Line]. *)
Record Line := { Timestamp : Z; Data : string }.

End process_line.

(** ** Package parse *)

Module parse.
Import process_line.

Record Progress := {
  Frame : Z;
  Size : Z;
  Time : float;
  Speed : float;
  Drop : Z;
  Dup : Z;
  Quantizer : float
}.

(** [Progress{}]. *)
Definition Progress_zero : Progress :=
  {| Frame := 0; Size := 0; Time := 0%float; Speed := 0%float;
     Drop := 0; Dup := 0; Quantizer := 0%float |}.

(** A [container/ring] seen from its current element: the head of the list
    is the element [p.log] points to, [Next] follows the list and wraps. *)
Definition ring := list (option Line).

(** [ring.New(n)]. *)
Definition ring_New (n : Z) : ring := replicate (Z.to_nat n) None.

(** [r.Value = v; r = r.Next()]. *)
Definition ring_put (v : Line) (r : ring) : ring :=
  match r with
  | [] => []
  | _ :: tl => tl ++ [Some v]
  end.

Record parser := {
  log : ring;
  logLines : Z;
  logStart : Z;
  progress : Progress
}.

Record Config := { LogLines : Z }.

(** The compiled expressions of [p.re], each as the submatches
    [FindStringSubmatch] returns for the leftmost match. *)

(** [frame=\s*([0-9]+)] *)
Definition re_frame (line : string) : option string :=
  search (fun s =>
    s1 ← strip_prefix "frame=" s;
    fst <$> span1 is_digit (skip_spaces s1)) line.

(** [q=\s*([0-9\.]+)] *)
Definition re_quantizer (line : string) : option string :=
  search (fun s =>
    s1 ← strip_prefix "q=" s;
    fst <$> span1 is_digit_or_dot (skip_spaces s1)) line.

(** [size=\s*([0-9]+)kB] *)
Definition re_size (line : string) : option string :=
  search (fun s =>
    s1 ← strip_prefix "size=" s;
    '(d, s2) ← span1 is_digit (skip_spaces s1);
    _ ← strip_prefix "kB" s2;
    Some d) line.

(** [total_size=\s*([0-9]+)] *)
Definition re_sizeBytes (line : string) : option string :=
  search (fun s =>
    s1 ← strip_prefix "total_size=" s;
    fst <$> span1 is_digit (skip_spaces s1)) line.

(** [time=\s*([0-9]+):([0-9]{2}):([0-9]{2})\.([0-9]+)] *)
Definition re_time (line : string) : option (string * string * string * string) :=
  search (fun s =>
    s1 ← strip_prefix "time=" s;
    '(h, s2) ← span1 is_digit (skip_spaces s1);
    s3 ← strip_prefix ":" s2;
    '(mm, s4) ← two_digits s3;
    s5 ← strip_prefix ":" s4;
    '(ss, s6) ← two_digits s5;
    s7 ← strip_prefix "." s6;
    '(fr, _) ← span1 is_digit s7;
    Some (h, mm, ss, fr)) line.

(** [out_time_ms=\s*([0-9]+)] *)
Definition re_timeMs (line : string) : option string :=
  search (fun s =>
    s1 ← strip_prefix "out_time_ms=" s;
    fst <$> span1 is_digit (skip_spaces s1)) line.

(** [speed=\s*([0-9\.]+)x] *)
Definition re_speed (line : string) : option string :=
  search (fun s =>
    s1 ← strip_prefix "speed=" s;
    '(d, s2) ← span1 is_digit_or_dot (skip_spaces s1);
    _ ← strip_prefix "x" s2;
    Some d) line.

(** An alternation [key1=\s*([0-9]+)|key2=\s*([0-9]+)]: the two groups,
    the one of the branch not taken empty. *)
Definition re_alt (key1 key2 : string) (line : string) : option (list string) :=
  search (fun s =>
    match s1 ← strip_prefix key1 s; fst <$> span1 is_digit (skip_spaces s1) with
    | Some d => Some [d; EmptyString]
    | None =>
        s1 ← strip_prefix key2 s;
        d ← fst <$> span1 is_digit (skip_spaces s1);
        Some [EmptyString; d]
    end) line.

(** [drop=\s*([0-9]+)|drop_frames=\s*([0-9]+)] *)
Definition re_drop : string -> option (list string) := re_alt "drop=" "drop_frames=".

(** [dup=\s*([0-9]+)|dup_frames=\s*([0-9]+)] *)
Definition re_dup : string -> option (list string) := re_alt "dup=" "dup_frames=".

(** [New]. *)
Definition New (now : Z) (config : Config) : parser :=
  let n := if LogLines config <=? 0 then 100 else LogLines config in
  {| log := ring_New n; logLines := n; logStart := now;
     progress := Progress_zero |}.

(** The loop [for i := 1; i < len(m); i++] of the drop and dup fields:
    the first group that is not empty and parses. *)
Fixpoint first_uint (groups : list string) : option Z :=
  match groups with
  | [] => None
  | g :: rest =>
      if String.eqb g EmptyString then first_uint rest
      else match ParseUint g with
           | Some x => Some x
           | None => first_uint rest
           end
  end.

(** [div := 1.0; for _ = range m[4] { div *= 10 }] *)
Fixpoint frac_div (digits : string) (div : float) : float :=
  match digits with
  | EmptyString => div
  | String _ rest => frac_div rest (PrimFloat.mul div 10%float)
  end.

(** The value stored by the [time=] branch. *)
Definition time_seconds (m : string * string * string * string) : float :=
  let '(m1, m2, m3, m4) := m in
  let h := Atoi m1 in
  let mm := Atoi m2 in
  let s := Atoi m3 in
  let frac :=
    if negb (String.eqb m4 EmptyString) then
      match ParseUint m4 with
      | Some x => PrimFloat.div (float64_of_Z x) (frac_div m4 1%float)
      | None => 0%float
      end
    else 0%float in
  PrimFloat.add
    (float64_of_Z (wrap_int (wrap_int (wrap_int (h * 3600) + wrap_int (mm * 60)) + s)))
    frac.

Definition set_Frame (x : Z) (g : Progress) : Progress :=
  {| Frame := x; Size := Size g; Time := Time g; Speed := Speed g;
     Drop := Drop g; Dup := Dup g; Quantizer := Quantizer g |}.
Definition set_Size (x : Z) (g : Progress) : Progress :=
  {| Frame := Frame g; Size := x; Time := Time g; Speed := Speed g;
     Drop := Drop g; Dup := Dup g; Quantizer := Quantizer g |}.
Definition set_Time (x : float) (g : Progress) : Progress :=
  {| Frame := Frame g; Size := Size g; Time := x; Speed := Speed g;
     Drop := Drop g; Dup := Dup g; Quantizer := Quantizer g |}.
Definition set_Speed (x : float) (g : Progress) : Progress :=
  {| Frame := Frame g; Size := Size g; Time := Time g; Speed := x;
     Drop := Drop g; Dup := Dup g; Quantizer := Quantizer g |}.
Definition set_Drop (x : Z) (g : Progress) : Progress :=
  {| Frame := Frame g; Size := Size g; Time := Time g; Speed := Speed g;
     Drop := x; Dup := Dup g; Quantizer := Quantizer g |}.
Definition set_Dup (x : Z) (g : Progress) : Progress :=
  {| Frame := Frame g; Size := Size g; Time := Time g; Speed := Speed g;
     Drop := Drop g; Dup := x; Quantizer := Quantizer g |}.
Definition set_Quantizer (x : float) (g : Progress) : Progress :=
  {| Frame := Frame g; Size := Size g; Time := Time g; Speed := Speed g;
     Drop := Drop g; Dup := Dup g; Quantizer := x |}.

(** [if m := re.FindStringSubmatch(line); m != nil { if x, err := conv(m);
    err == nil { field = x } }]: the field is written only when the
    expression matched and the conversion succeeded. *)
Definition assign {A B : Type} (m : option A) (conv : A -> option B)
    (set : B -> Progress -> Progress) (g : Progress) : Progress :=
  match m with
  | Some a => match conv a with Some x => set x g | None => g end
  | None => g
  end.

(** The field updates of [Parse] on a progress line, in source order. *)
Definition update_frame (line : string) : Progress -> Progress :=
  assign (re_frame line) ParseUint set_Frame.
Definition update_quantizer (line : string) : Progress -> Progress :=
  assign (re_quantizer line) ParseFloat set_Quantizer.
Definition update_size (line : string) : Progress -> Progress :=
  assign (re_size line) ParseUint (fun x => set_Size (wrap_uint64 (x * 1024))).
Definition update_sizeBytes (line : string) : Progress -> Progress :=
  assign (re_sizeBytes line) ParseUint set_Size.
Definition update_time (line : string) : Progress -> Progress :=
  assign (re_time line) (fun m => Some (time_seconds m)) set_Time.
Definition update_timeMs (line : string) : Progress -> Progress :=
  assign (re_timeMs line) ParseUint
    (fun x => set_Time (PrimFloat.div (float64_of_Z x) 1000000%float)).
Definition update_speed (line : string) : Progress -> Progress :=
  assign (re_speed line) ParseFloat set_Speed.
Definition update_drop (line : string) : Progress -> Progress :=
  assign (re_drop line) first_uint set_Drop.
Definition update_dup (line : string) : Progress -> Progress :=
  assign (re_dup line) first_uint set_Dup.

Definition update_progress (line : string) (g : Progress) : Progress :=
  update_dup line
    (update_drop line
      (update_speed line
        (update_timeMs line
          (update_time line
            (update_sizeBytes line
              (update_size line
                (update_quantizer line
                  (update_frame line g)))))))).

(** [Parse]: the parser after the call and the value returned. *)
Definition Parse (now : Z) (line : string) (p : parser) : parser * Z :=
  let isProgress := Contains line "frame=" in
  let logStart' := if logStart p =? 0 then now else logStart p in
  let log' := ring_put {| Timestamp := now; Data := line |} (log p) in
  if negb isProgress then
    ({| log := log'; logLines := logLines p; logStart := logStart';
        progress := progress p |}, 0)
  else
    let g := update_progress line (progress p) in
    ({| log := log'; logLines := logLines p; logStart := logStart';
        progress := g |}, Frame g).

(** [ResetStats]. *)
Definition ResetStats (p : parser) : parser :=
  {| log := log p; logLines := logLines p; logStart := logStart p;
     progress := Progress_zero |}.

(** [ResetLog]. *)
Definition ResetLog (now : Z) (p : parser) : parser :=
  {| log := ring_New (logLines p); logLines := logLines p; logStart := now;
     progress := progress p |}.

(** [Log]: the values of the ring from the current element on, empty
    slots skipped. *)
Definition Log (p : parser) : list Line := omap id (log p).

(** [Progress]: a copy of the snapshot. *)
Definition Progress_of (p : parser) : Progress := progress p.

(** The lines [Parse] is called with, each with the instant of the call. *)
Definition feed (tls : list (Z * string)) (p : parser) : parser :=
  fold_left (fun p tl => fst (Parse (fst tl) (snd tl) p)) tls p.

(** A line as [Parse] stores it. *)
Definition line_of (tl : Z * string) : Line :=
  {| Timestamp := fst tl; Data := snd tl |}.

End parse.

(** ** Package process *)

Module process.
Export process_line.

(** The [Parser] interface. *)
Class Parser (P : Type) := {
  Parse : Z -> string -> P -> P * Z;
  ResetStats : P -> P;
  ResetLog : Z -> P -> P;
  Log : P -> list Line
}.

(** [nullParser], the parser [New] installs when none is configured. *)
Inductive nullParser := NullParser.

#[global] Instance nullParser_Parser : Parser nullParser := {|
  Parse _ _ p := (p, 1);
  ResetStats p := p;
  ResetLog _ p := p;
  Log _ := []
|}.

(** The interface value [p.parser]: the configured parser, or the
    [nullParser] that [New] puts in place of [nil]. *)
#[global] Instance sum_Parser {P : Type} `{Parser P} : Parser (P + nullParser) := {|
  Parse t line v :=
    match v with
    | inl q => let '(q', n) := Parse t line q in (inl q', n)
    | inr q => let '(q', n) := Parse t line q in (inr q', n)
    end;
  ResetStats v := match v with inl q => inl (ResetStats q) | inr q => inr (ResetStats q) end;
  ResetLog t v := match v with inl q => inl (ResetLog t q) | inr q => inr (ResetLog t q) end;
  Log v := match v with inl q => Log q | inr q => Log q end
|}.

(** A callback is a function value: for [onStart] and [onStateChange] the
    model keeps whether it is set, and it records every asynchronous call
    [go callback(...)]. *)
Inductive call :=
| Call_onStart
| Call_onExit
| Call_onStateChange (from to : string).

(** The function value [p.callbacks.onExit]: [nil], the function of the
    configuration, or the closure that [stop] installs. The closure holds
    the function [cb] it replaced and the [sync.WaitGroup] of that call of
    [stop], kept here as its counter [wg]. *)
Inductive onExit_func :=
| onExit_nil
| onExit_config
| onExit_closure (cb : onExit_func) (wg : Z).

(** A call of the function: the function afterwards, with the counters
    the call has changed, or [None] when the call panics. The closure of
    [stop] calls [cb] unless it is [nil], then [wg.Done()], which panics
    when it takes the counter below zero. The function of the configuration
    is taken to return. *)
Fixpoint onExit_call (f : onExit_func) : option onExit_func :=
  match f with
  | onExit_nil => Some onExit_nil
  | onExit_config => Some onExit_config
  | onExit_closure cb wg =>
      match onExit_call cb with
      | None => None
      | Some cb' =>
          if wg - 1 <? 0 then None else Some (onExit_closure cb' (wg - 1))
      end
  end.

Record Config (P : Type) := {
  Binary : string;
  Args : list string;
  Reconnect : bool;
  ReconnectDelay : Z;
  StaleTimeout : Z;
  Parser_ : option P;
  OnStart : bool;
  OnExit : bool;
  OnStateChange : bool
}.
Arguments Binary {P}. Arguments Args {P}. Arguments Reconnect {P}.
Arguments ReconnectDelay {P}. Arguments StaleTimeout {P}.
Arguments Parser_ {P}. Arguments OnStart {P}. Arguments OnExit {P}.
Arguments OnStateChange {P}.

(** [States]: cumulative counts, each a [uint64]. *)
Record States := {
  Finished : Z;
  Starting : Z;
  Running : Z;
  Finishing : Z;
  Failed : Z;
  Killed : Z
}.

Definition stateType := string.

Definition stateFinished : stateType := "finished".
Definition stateStarting : stateType := "starting".
Definition stateRunning : stateType := "running".
Definition stateFinishing : stateType := "finishing".
Definition stateFailed : stateType := "failed".
Definition stateKilled : stateType := "killed".

(** [stateType.IsRunning]. *)
Definition stateType_IsRunning (s : stateType) : bool :=
  String.eqb s stateStarting || String.eqb s stateRunning
  || String.eqb s stateFinishing.

(** The six states. *)
Definition all_states : list stateType :=
  [stateFinished; stateStarting; stateRunning; stateFinishing; stateFailed;
   stateKilled].

(** The legal transitions in the words of the specification (section
    4.3): finished to starting; starting to running or failed; running to
    finished, failed, killed or finishing; finishing to finished, failed
    or killed; failed or killed to starting. *)
Definition spec_legal (from to : stateType) : bool :=
  (String.eqb from stateFinished && String.eqb to stateStarting)
  || (String.eqb from stateStarting
      && (String.eqb to stateRunning || String.eqb to stateFailed))
  || (String.eqb from stateRunning
      && (String.eqb to stateFinished || String.eqb to stateFailed
          || String.eqb to stateKilled || String.eqb to stateFinishing))
  || (String.eqb from stateFinishing
      && (String.eqb to stateFinished || String.eqb to stateFailed
          || String.eqb to stateKilled))
  || ((String.eqb from stateFailed || String.eqb from stateKilled)
      && String.eqb to stateStarting).

(** The table of the specification, and starting to finishing. *)
Definition spec_legal_or_starting_finishing (from to : stateType) : bool :=
  spec_legal from to
  || (String.eqb from stateStarting && String.eqb to stateFinishing).

(** A [*time.Timer] field: [nil], armed by [time.AfterFunc], or expired
    after its function ran. *)
Inductive timer := Timer_nil | Timer_armed | Timer_fired.

(** [exec.Cmd], as far as the supervisor uses it. *)
Record Cmd := {
  cmd_Args : list string;
  cmd_Env : list string;
  cmd_Process : option Z
}.

(** [syscall.WaitStatus] (Linux): a 32-bit word. *)
Definition WaitStatus := Z.
Definition WaitStatus_Exited (w : WaitStatus) : bool := Z.land w 127 =? 0.
Definition WaitStatus_ExitStatus (w : WaitStatus) : Z :=
  if WaitStatus_Exited w then Z.land (Z.shiftr w 8) 255 else -1.

(** The error of [cmd.Wait()]: an [*exec.ExitError] carrying the wait
    status, or another error. *)
Inductive WaitError :=
| ExitError (status : WaitStatus)
| OtherError (msg : string).

(** [cmd.Wait()] from what the operating system reports: a failure of
    the wait itself, or the wait status of the child; the call returns
    [nil] exactly when the child exited with status 0. *)
Definition Cmd_Wait (r : string + WaitStatus) : option WaitError :=
  match r with
  | inl msg => Some (OtherError msg)
  | inr w =>
      if WaitStatus_ExitStatus w =? 0 then None else Some (ExitError w)
  end.

(** What the environment answers during one operation. *)
Record World := {
  now : Z;                      (* time.Now() *)
  windows : bool;               (* runtime.GOOS == "windows" *)
  pipe_err : error;             (* cmd.StderrPipe() *)
  start_err : error;            (* cmd.Start() *)
  new_pid : Z;                  (* cmd.Process.Pid *)
  limiter_ok : bool;            (* gopsutil finds the pid *)
  signal_err : error;           (* cmd.Process.Signal(os.Interrupt) *)
  kill_err : error;             (* cmd.Process.Kill() *)
  lines : list string;          (* lines still to be read from stderr *)
  wait : string + WaitStatus    (* the result of waiting for the child *)
}.

(** *** The split function of the reader *)

(** The first loop of [scanLine]: [rest] is [data[start:]]. The loop runs
    at most once per byte, which bounds [fuel]. *)
Fixpoint scanLine_skip (fuel : nat) (rest : string) (start : Z) : Z * string :=
  match fuel with
  | O => (start, rest)
  | S fuel' =>
      match rest with
      | EmptyString => (start, rest)
      | _ =>
          let '(r, w) := DecodeRune rest in
          if negb (r =? 10) && negb (r =? 13) then (start, rest)
          else scanLine_skip fuel' (drop_bytes (Z.to_nat w) rest) (start + w)
      end
  end.

(** The second loop of [scanLine]: [rest] is [data[i:]]; the result is
    what the [return] inside the loop returns, or [None] when the loop
    ends. *)
Fixpoint scanLine_find (fuel : nat) (data : string) (start i : Z) (rest : string)
  : option (Z * string) :=
  match fuel with
  | O => None
  | S fuel' =>
      match rest with
      | EmptyString => None
      | _ =>
          let '(r, w) := DecodeRune rest in
          if (r =? 10) || (r =? 13) then Some (i + w, slice data start i)
          else scanLine_find fuel' data start (i + w) (drop_bytes (Z.to_nat w) rest)
      end
  end.

(** [scanLine]: the advance and the token ([None] is [nil]); the error is
    always [nil]. *)
Definition scanLine (data : string) (atEOF : bool) : Z * option string :=
  let len := Z.of_nat (String.length data) in
  let '(start, rest) := scanLine_skip (String.length data) data 0 in
  match scanLine_find (String.length data) data start start rest with
  | Some (advance, token) => (advance, Some token)
  | None =>
      if atEOF && (start <? len) then (len, Some (slice data start len))
      else (start, None)
  end.

Section Supervisor.
Context {P : Type} `{Parser P}.

Record process := {
  binary : string;
  args : list string;
  cmd : option Cmd;
  pid : Z;
  lastLine : string;
  state_state : stateType;
  state_time : Z;
  state_states : States;
  order_order : string;
  parser : P + nullParser;
  stale_last : Z;
  stale_timeout : Z;
  stale_cancel : bool;
  reconn_enable : bool;
  reconn_delay : Z;
  reconn_timer : timer;
  killTimer : timer;
  limits : option Z;
  callbacks_onStart : bool;
  callbacks_onExit : onExit_func;
  callbacks_onStateChange : bool;
  dispatched : list call;
  panicked : bool               (* a goroutine has panicked: the program is dead *)
}.

Definition set_cmd (v : option Cmd) (p : process) : process :=
  {| binary := binary p; args := args p; cmd := v; pid := pid p;
     lastLine := lastLine p; state_state := state_state p;
     state_time := state_time p; state_states := state_states p;
     order_order := order_order p; parser := parser p;
     stale_last := stale_last p; stale_timeout := stale_timeout p;
     stale_cancel := stale_cancel p; reconn_enable := reconn_enable p;
     reconn_delay := reconn_delay p; reconn_timer := reconn_timer p;
     killTimer := killTimer p; limits := limits p;
     callbacks_onStart := callbacks_onStart p;
     callbacks_onExit := callbacks_onExit p;
     callbacks_onStateChange := callbacks_onStateChange p;
     dispatched := dispatched p; panicked := panicked p |}.
Definition set_pid (v : Z) (p : process) : process :=
  {| binary := binary p; args := args p; cmd := cmd p; pid := v;
     lastLine := lastLine p; state_state := state_state p;
     state_time := state_time p; state_states := state_states p;
     order_order := order_order p; parser := parser p;
     stale_last := stale_last p; stale_timeout := stale_timeout p;
     stale_cancel := stale_cancel p; reconn_enable := reconn_enable p;
     reconn_delay := reconn_delay p; reconn_timer := reconn_timer p;
     killTimer := killTimer p; limits := limits p;
     callbacks_onStart := callbacks_onStart p;
     callbacks_onExit := callbacks_onExit p;
     callbacks_onStateChange := callbacks_onStateChange p;
     dispatched := dispatched p; panicked := panicked p |}.
Definition set_lastLine (v : string) (p : process) : process :=
  {| binary := binary p; args := args p; cmd := cmd p; pid := pid p;
     lastLine := v; state_state := state_state p;
     state_time := state_time p; state_states := state_states p;
     order_order := order_order p; parser := parser p;
     stale_last := stale_last p; stale_timeout := stale_timeout p;
     stale_cancel := stale_cancel p; reconn_enable := reconn_enable p;
     reconn_delay := reconn_delay p; reconn_timer := reconn_timer p;
     killTimer := killTimer p; limits := limits p;
     callbacks_onStart := callbacks_onStart p;
     callbacks_onExit := callbacks_onExit p;
     callbacks_onStateChange := callbacks_onStateChange p;
     dispatched := dispatched p; panicked := panicked p |}.
(** The three fields of [p.state], written together by [setState]. *)
Definition set_state (s : stateType) (t : Z) (c : States) (p : process) : process :=
  {| binary := binary p; args := args p; cmd := cmd p; pid := pid p;
     lastLine := lastLine p; state_state := s;
     state_time := t; state_states := c;
     order_order := order_order p; parser := parser p;
     stale_last := stale_last p; stale_timeout := stale_timeout p;
     stale_cancel := stale_cancel p; reconn_enable := reconn_enable p;
     reconn_delay := reconn_delay p; reconn_timer := reconn_timer p;
     killTimer := killTimer p; limits := limits p;
     callbacks_onStart := callbacks_onStart p;
     callbacks_onExit := callbacks_onExit p;
     callbacks_onStateChange := callbacks_onStateChange p;
     dispatched := dispatched p; panicked := panicked p |}.
Definition set_order (v : string) (p : process) : process :=
  {| binary := binary p; args := args p; cmd := cmd p; pid := pid p;
     lastLine := lastLine p; state_state := state_state p;
     state_time := state_time p; state_states := state_states p;
     order_order := v; parser := parser p;
     stale_last := stale_last p; stale_timeout := stale_timeout p;
     stale_cancel := stale_cancel p; reconn_enable := reconn_enable p;
     reconn_delay := reconn_delay p; reconn_timer := reconn_timer p;
     killTimer := killTimer p; limits := limits p;
     callbacks_onStart := callbacks_onStart p;
     callbacks_onExit := callbacks_onExit p;
     callbacks_onStateChange := callbacks_onStateChange p;
     dispatched := dispatched p; panicked := panicked p |}.
Definition set_parser (v : P + nullParser) (p : process) : process :=
  {| binary := binary p; args := args p; cmd := cmd p; pid := pid p;
     lastLine := lastLine p; state_state := state_state p;
     state_time := state_time p; state_states := state_states p;
     order_order := order_order p; parser := v;
     stale_last := stale_last p; stale_timeout := stale_timeout p;
     stale_cancel := stale_cancel p; reconn_enable := reconn_enable p;
     reconn_delay := reconn_delay p; reconn_timer := reconn_timer p;
     killTimer := killTimer p; limits := limits p;
     callbacks_onStart := callbacks_onStart p;
     callbacks_onExit := callbacks_onExit p;
     callbacks_onStateChange := callbacks_onStateChange p;
     dispatched := dispatched p; panicked := panicked p |}.
Definition set_stale_last (v : Z) (p : process) : process :=
  {| binary := binary p; args := args p; cmd := cmd p; pid := pid p;
     lastLine := lastLine p; state_state := state_state p;
     state_time := state_time p; state_states := state_states p;
     order_order := order_order p; parser := parser p;
     stale_last := v; stale_timeout := stale_timeout p;
     stale_cancel := stale_cancel p; reconn_enable := reconn_enable p;
     reconn_delay := reconn_delay p; reconn_timer := reconn_timer p;
     killTimer := killTimer p; limits := limits p;
     callbacks_onStart := callbacks_onStart p;
     callbacks_onExit := callbacks_onExit p;
     callbacks_onStateChange := callbacks_onStateChange p;
     dispatched := dispatched p; panicked := panicked p |}.
Definition set_stale_cancel (v : bool) (p : process) : process :=
  {| binary := binary p; args := args p; cmd := cmd p; pid := pid p;
     lastLine := lastLine p; state_state := state_state p;
     state_time := state_time p; state_states := state_states p;
     order_order := order_order p; parser := parser p;
     stale_last := stale_last p; stale_timeout := stale_timeout p;
     stale_cancel := v; reconn_enable := reconn_enable p;
     reconn_delay := reconn_delay p; reconn_timer := reconn_timer p;
     killTimer := killTimer p; limits := limits p;
     callbacks_onStart := callbacks_onStart p;
     callbacks_onExit := callbacks_onExit p;
     callbacks_onStateChange := callbacks_onStateChange p;
     dispatched := dispatched p; panicked := panicked p |}.
Definition set_reconn_timer (v : timer) (p : process) : process :=
  {| binary := binary p; args := args p; cmd := cmd p; pid := pid p;
     lastLine := lastLine p; state_state := state_state p;
     state_time := state_time p; state_states := state_states p;
     order_order := order_order p; parser := parser p;
     stale_last := stale_last p; stale_timeout := stale_timeout p;
     stale_cancel := stale_cancel p; reconn_enable := reconn_enable p;
     reconn_delay := reconn_delay p; reconn_timer := v;
     killTimer := killTimer p; limits := limits p;
     callbacks_onStart := callbacks_onStart p;
     callbacks_onExit := callbacks_onExit p;
     callbacks_onStateChange := callbacks_onStateChange p;
     dispatched := dispatched p; panicked := panicked p |}.
Definition set_killTimer (v : timer) (p : process) : process :=
  {| binary := binary p; args := args p; cmd := cmd p; pid := pid p;
     lastLine := lastLine p; state_state := state_state p;
     state_time := state_time p; state_states := state_states p;
     order_order := order_order p; parser := parser p;
     stale_last := stale_last p; stale_timeout := stale_timeout p;
     stale_cancel := stale_cancel p; reconn_enable := reconn_enable p;
     reconn_delay := reconn_delay p; reconn_timer := reconn_timer p;
     killTimer := v; limits := limits p;
     callbacks_onStart := callbacks_onStart p;
     callbacks_onExit := callbacks_onExit p;
     callbacks_onStateChange := callbacks_onStateChange p;
     dispatched := dispatched p; panicked := panicked p |}.
Definition set_limits (v : option Z) (p : process) : process :=
  {| binary := binary p; args := args p; cmd := cmd p; pid := pid p;
     lastLine := lastLine p; state_state := state_state p;
     state_time := state_time p; state_states := state_states p;
     order_order := order_order p; parser := parser p;
     stale_last := stale_last p; stale_timeout := stale_timeout p;
     stale_cancel := stale_cancel p; reconn_enable := reconn_enable p;
     reconn_delay := reconn_delay p; reconn_timer := reconn_timer p;
     killTimer := killTimer p; limits := v;
     callbacks_onStart := callbacks_onStart p;
     callbacks_onExit := callbacks_onExit p;
     callbacks_onStateChange := callbacks_onStateChange p;
     dispatched := dispatched p; panicked := panicked p |}.
Definition set_onExit (v : onExit_func) (p : process) : process :=
  {| binary := binary p; args := args p; cmd := cmd p; pid := pid p;
     lastLine := lastLine p; state_state := state_state p;
     state_time := state_time p; state_states := state_states p;
     order_order := order_order p; parser := parser p;
     stale_last := stale_last p; stale_timeout := stale_timeout p;
     stale_cancel := stale_cancel p; reconn_enable := reconn_enable p;
     reconn_delay := reconn_delay p; reconn_timer := reconn_timer p;
     killTimer := killTimer p; limits := limits p;
     callbacks_onStart := callbacks_onStart p;
     callbacks_onExit := v;
     callbacks_onStateChange := callbacks_onStateChange p;
     dispatched := dispatched p; panicked := panicked p |}.
Definition set_panicked (v : bool) (p : process) : process :=
  {| binary := binary p; args := args p; cmd := cmd p; pid := pid p;
     lastLine := lastLine p; state_state := state_state p;
     state_time := state_time p; state_states := state_states p;
     order_order := order_order p; parser := parser p;
     stale_last := stale_last p; stale_timeout := stale_timeout p;
     stale_cancel := stale_cancel p; reconn_enable := reconn_enable p;
     reconn_delay := reconn_delay p; reconn_timer := reconn_timer p;
     killTimer := killTimer p; limits := limits p;
     callbacks_onStart := callbacks_onStart p;
     callbacks_onExit := callbacks_onExit p;
     callbacks_onStateChange := callbacks_onStateChange p;
     dispatched := dispatched p; panicked := v |}.
(** [go callback(...)]. *)
Definition dispatch (c : call) (p : process) : process :=
  {| binary := binary p; args := args p; cmd := cmd p; pid := pid p;
     lastLine := lastLine p; state_state := state_state p;
     state_time := state_time p; state_states := state_states p;
     order_order := order_order p; parser := parser p;
     stale_last := stale_last p; stale_timeout := stale_timeout p;
     stale_cancel := stale_cancel p; reconn_enable := reconn_enable p;
     reconn_delay := reconn_delay p; reconn_timer := reconn_timer p;
     killTimer := killTimer p; limits := limits p;
     callbacks_onStart := callbacks_onStart p;
     callbacks_onExit := callbacks_onExit p;
     callbacks_onStateChange := callbacks_onStateChange p;
     dispatched := dispatched p ++ [c]; panicked := panicked p |}.

(** [x++] on a counter. *)
Definition incr (x : Z) : Z := wrap_uint64 (x + 1).

Definition inc_Finished (c : States) : States :=
  {| Finished := incr (Finished c); Starting := Starting c; Running := Running c;
     Finishing := Finishing c; Failed := Failed c; Killed := Killed c |}.
Definition inc_Starting (c : States) : States :=
  {| Finished := Finished c; Starting := incr (Starting c); Running := Running c;
     Finishing := Finishing c; Failed := Failed c; Killed := Killed c |}.
Definition inc_Running (c : States) : States :=
  {| Finished := Finished c; Starting := Starting c; Running := incr (Running c);
     Finishing := Finishing c; Failed := Failed c; Killed := Killed c |}.
Definition inc_Finishing (c : States) : States :=
  {| Finished := Finished c; Starting := Starting c; Running := Running c;
     Finishing := incr (Finishing c); Failed := Failed c; Killed := Killed c |}.
Definition inc_Failed (c : States) : States :=
  {| Finished := Finished c; Starting := Starting c; Running := Running c;
     Finishing := Finishing c; Failed := incr (Failed c); Killed := Killed c |}.
Definition inc_Killed (c : States) : States :=
  {| Finished := Finished c; Starting := Starting c; Running := Running c;
     Finishing := Finishing c; Failed := Failed c; Killed := incr (Killed c) |}.

(** The counters with the one of state [s] incremented. *)
Definition count (s : stateType) (c : States) : States :=
  if String.eqb s stateFinished then inc_Finished c
  else if String.eqb s stateStarting then inc_Starting c
  else if String.eqb s stateRunning then inc_Running c
  else if String.eqb s stateFinishing then inc_Finishing c
  else if String.eqb s stateFailed then inc_Failed c
  else if String.eqb s stateKilled then inc_Killed c
  else c.

(** [setState]: the process after the call and the error returned. *)
Definition setState (t : Z) (state : stateType) (p : process) : process * error :=
  let prevState := state_state p in
  let c := state_states p in
  (* the tail of the function when [failed] is false *)
  let commit (c' : States) : process * error :=
    let p' := set_state state t c' p in
    (if callbacks_onStateChange p
     then dispatch (Call_onStateChange prevState state) p' else p', None) in
  (* the tail of the function when [failed] is true *)
  let refuse : process * error :=
    (p, Some ("can't change from " +:+ prevState +:+ " to " +:+ state)) in
  if String.eqb prevState stateFinished then
    if String.eqb state stateStarting then commit (inc_Starting c) else refuse
  else if String.eqb prevState stateStarting then
    if String.eqb state stateFinishing || String.eqb state stateRunning
       || String.eqb state stateFailed
    then commit (if String.eqb state stateFinishing then inc_Finishing c
                 else if String.eqb state stateRunning then inc_Running c
                 else inc_Failed c)
    else refuse
  else if String.eqb prevState stateRunning then
    if String.eqb state stateFinished || String.eqb state stateFinishing
       || String.eqb state stateFailed || String.eqb state stateKilled
    then commit (if String.eqb state stateFinished then inc_Finished c
                 else if String.eqb state stateFinishing then inc_Finishing c
                 else if String.eqb state stateFailed then inc_Failed c
                 else if String.eqb state stateKilled then inc_Killed c
                 else c)
    else refuse
  else if String.eqb prevState stateFinishing then
    if String.eqb state stateFinished || String.eqb state stateFailed
       || String.eqb state stateKilled
    then commit (if String.eqb state stateFinished then inc_Finished c
                 else if String.eqb state stateFailed then inc_Failed c
                 else inc_Killed c)
    else refuse
  else if String.eqb prevState stateFailed || String.eqb prevState stateKilled then
    if String.eqb state stateStarting then commit (inc_Starting c) else refuse
  else (p, Some ("unhandled state: " +:+ prevState)).

Definition getState (p : process) : stateType := state_state p.
Definition isRunning (p : process) : bool := stateType_IsRunning (getState p).
Definition getStateString (p : process) : string := state_state p.
Definition IsRunning (p : process) : bool := isRunning p.

(** [New]: [nil] and an error when no binary is given. *)
Definition New (t : Z) (config : Config P) : option process * error :=
  if (String.length (Binary config) =? 0)%nat
  then (None, Some "no valid binary given")
  else
    (Some {| binary := Binary config; args := Args config; cmd := None;
             pid := 0; lastLine := "";
             state_state := stateFinished; state_time := t;
             state_states := {| Finished := 0; Starting := 0; Running := 0;
                                Finishing := 0; Failed := 0; Killed := 0 |};
             order_order := "stop";
             parser := match Parser_ config with
                       | Some q => inl q
                       | None => inr NullParser
                       end;
             stale_last := t; stale_timeout := StaleTimeout config;
             stale_cancel := false;
             reconn_enable := Reconnect config;
             reconn_delay := ReconnectDelay config;
             reconn_timer := Timer_nil; killTimer := Timer_nil;
             limits := None;
             callbacks_onStart := OnStart config;
             callbacks_onExit := if OnExit config then onExit_config else onExit_nil;
             callbacks_onStateChange := OnStateChange config;
             dispatched := []; panicked := false |}, None).

(** [unreconnect]. *)
Definition unreconnect (p : process) : process :=
  match reconn_timer p with
  | Timer_nil => p
  | _ => set_reconn_timer Timer_nil p
  end.

(** [reconnect]. *)
Definition reconnect (p : process) : process :=
  if negb (reconn_enable p) then p
  else set_reconn_timer Timer_armed (unreconnect p).

(** [p.parser.Parse(line)]. *)
Definition parser_Parse (t : Z) (line : string) (p : process) : process * Z :=
  let '(q, n) := Parse t line (parser p) in (set_parser q p, n).

(** The two failure branches of [start]. *)
Definition start_failed (w : World) (err : string) (p : process) : process * error :=
  let p := fst (setState (now w) stateFailed p) in
  let p := fst (parser_Parse (now w) err p) in
  let p := reconnect p in
  (p, Some err).

(** [start]. On success the goroutines [reader] and [staler] are
    launched; their steps are [reader_begin], [reader_line], [waiter],
    [staler_begin] and [staler_tick] below. *)
Definition start (w : World) (p : process) : process * error :=
  if isRunning p then (p, None)
  else
    let p := unreconnect p in
    let p := fst (setState (now w) stateStarting p) in
    let p := set_cmd (Some {| cmd_Args := binary p :: args p; cmd_Env := [];
                              cmd_Process := None |}) p in
    match pipe_err w with
    | Some err => start_failed w err p
    | None =>
        match start_err w with
        | Some err => start_failed w err p
        | None =>
            let p := set_cmd (Some {| cmd_Args := binary p :: args p; cmd_Env := [];
                                      cmd_Process := Some (new_pid w) |}) p in
            let p := set_pid (new_pid w) p in
            let p := if limiter_ok w then set_limits (Some (pid p)) p else p in
            let p := fst (setState (now w) stateRunning p) in
            let p := if callbacks_onStart p then dispatch Call_onStart p else p in
            let p := if negb (stale_timeout p =? 0) then set_stale_cancel true p else p in
            (p, None)
        end
    end.

(** [Start]. *)
Definition Start (w : World) (p : process) : process * error :=
  if String.eqb (order_order p) "start" then (p, None)
  else start w (set_order "start" p).

(** One iteration of the loop of [reader]. *)
Definition reader_line (t : Z) (line : string) (p : process) : process :=
  let p := set_lastLine line p in
  let '(p, n) := parser_Parse t line p in
  if negb (n =? 0) then set_stale_last t p else p.

(** [reader] before its loop. *)
Definition reader_begin (t : Z) (p : process) : process :=
  set_parser (ResetLog t (ResetStats (parser p))) p.

(** The state [waiter] asks for, from the result of [cmd.Wait()]. *)
Definition waiter_state (err : option WaitError) : stateType :=
  match err with
  | Some (ExitError status) =>
      if WaitStatus_Exited status then
        if WaitStatus_ExitStatus status =? 255 then stateFinished
        else stateFailed
      else stateKilled
  | Some (OtherError _) => stateKilled
  | None => stateFinished
  end.

(** [if p.callbacks.onExit != nil { go p.callbacks.onExit() }], with the
    run of that goroutine: the call changes the counters of the wait groups
    the function holds; when it panics the program is dead. *)
Definition go_onExit (p : process) : process :=
  match callbacks_onExit p with
  | onExit_nil => p
  | f =>
      let p := dispatch Call_onExit p in
      match onExit_call f with
      | Some f' => set_onExit f' p
      | None => set_panicked true p
      end
  end.

(** [waiter] through the call of [onExit]. *)
Definition waiter_body (w : World) (p : process) : process :=
  let p := fst (setState (now w) (waiter_state (Cmd_Wait (wait w))) p) in
  let p := set_limits None p in
  let p := match killTimer p with Timer_nil => p | _ => set_killTimer Timer_nil p end in
  let p := if stale_cancel p then set_stale_cancel false p else p in
  let p := set_parser (ResetStats (parser p)) p in
  go_onExit p.

(** The end of [waiter], under the order lock: after a [Stop] or [Kill]
    that waits, it runs once that call has returned and released the
    lock. *)
Definition waiter_tail (p : process) : process :=
  if String.eqb (order_order p) "start" then reconnect p else p.

(** [waiter]. *)
Definition waiter (w : World) (p : process) : process :=
  waiter_tail (waiter_body w p).

(** [stop]. With [wait] the function [onExit] is replaced by a closure
    over the function found and the wait group [wg] of this call, after
    [wg.Add(1)]; nothing puts the function found back. The third component
    tells whether the caller blocked in [wg.Wait()]: it resumes when the
    closure, called by [waiter], has called [wg.Done()], that is after the
    reader has drained the remaining lines and [waiter_body] has run. When
    the call of the closure panics instead ([panicked] in the result), the
    caller never resumes. *)
Definition stop (w : World) (wait_ : bool) (p : process) : process * error * bool :=
  if negb (isRunning p) then (unreconnect p, None, false)
  else if String.eqb (getState p) stateFinishing then (p, None, false)
  else
    let p := fst (setState (now w) stateFinishing p) in
    let p := if wait_
             then set_onExit (onExit_closure (callbacks_onExit p) 1) p else p in
    let '(err, p) :=
      if windows w then (kill_err w, p)
      else match signal_err w with
           | Some _ => (kill_err w, p)
           | None => (None, set_killTimer Timer_armed p)
           end in
    match err with
    | None =>
        if wait_
        then (waiter_body w (fold_left (fun p l => reader_line (now w) l p) (lines w) p),
              None, true)
        else (p, None, false)
    | Some e =>
        let p := fst (parser_Parse (now w) e p) in
        let p := fst (setState (now w) stateFailed p) in
        (p, Some e, false)
    end.

(** [Stop]: the supervisor and the error at the return of the call. *)
Definition Stop (w : World) (wait_ : bool) (p : process) : process * error :=
  if String.eqb (order_order p) "stop" then (p, None)
  else
    let '(p, err, _) := stop w wait_ (set_order "stop" p) in
    (p, err).

(** [Kill]: the supervisor and the error at the return of the call. *)
Definition Kill (w : World) (wait_ : bool) (p : process) : process * error :=
  if negb (isRunning p) then (p, None)
  else
    let '(p, err, _) := stop w wait_ p in
    (p, err).

(** The function armed by [reconnect], when its timer expires. *)
Definition reconnect_fire (w : World) (p : process) : process :=
  match reconn_timer p with
  | Timer_armed => fst (start w (set_reconn_timer Timer_fired p))
  | _ => p
  end.

(** The function armed by [stop], when its timer expires: the child is
    killed, which [waiter] later observes. *)
Definition killTimer_fire (p : process) : process :=
  match killTimer p with
  | Timer_armed => set_killTimer Timer_fired p
  | _ => p
  end.

(** [Duration.Seconds()], on a duration in nanoseconds. *)
Definition Duration_Seconds (d : Z) : float :=
  PrimFloat.add (float64_of_Z (Z.quot d 1000000000))
    (PrimFloat.div (float64_of_Z (Z.rem d 1000000000)) 1000000000%float).

(** [t.Sub(u)]: the difference, saturated to the range of [Duration]. *)
Definition Time_Sub (t u : Z) : Z :=
  Z.max (- 2 ^ 63) (Z.min (2 ^ 63 - 1) (t - u)).

(** [staler] before its loop. *)
Definition staler_begin (t : Z) (p : process) : process := set_stale_last t p.

(** One tick of [staler]. *)
Definition staler_tick (w : World) (p : process) : process :=
  if PrimFloat.ltb (Duration_Seconds (stale_timeout p))
       (Duration_Seconds (Time_Sub (now w) (stale_last p)))
  then fst (fst (stop w false p))
  else p.

(** The lifecycle operations and the internal transitions, one step
    each. [Op_waiter] is the [waiter] of a child nobody waits for;
    [Op_waiter_tail] is the end of a [waiter] after the [Stop] or [Kill]
    that waited for it. Nothing runs once the program is dead. *)
Inductive op :=
| Op_Start
| Op_Stop (wait_ : bool)
| Op_Kill (wait_ : bool)
| Op_reconnect_fire
| Op_killTimer_fire
| Op_staler_begin
| Op_staler_tick
| Op_reader_begin
| Op_reader_line (line : string)
| Op_waiter
| Op_waiter_tail.

Definition step (p : process) (wo : World * op) : process :=
  let '(w, o) := wo in
  if panicked p then p else
  match o with
  | Op_Start => fst (Start w p)
  | Op_Stop b => fst (Stop w b p)
  | Op_Kill b => fst (Kill w b p)
  | Op_reconnect_fire => reconnect_fire w p
  | Op_killTimer_fire => killTimer_fire p
  | Op_staler_begin => staler_begin (now w) p
  | Op_staler_tick => staler_tick w p
  | Op_reader_begin => reader_begin (now w) p
  | Op_reader_line l => reader_line (now w) l p
  | Op_waiter => waiter w p
  | Op_waiter_tail => waiter_tail p
  end.

(** A call of [onStateChange] reports a transition of the extended
    table; the other callbacks report none. *)
Definition call_legal (c : call) : bool :=
  match c with
  | Call_onStateChange from to => spec_legal_or_starting_finishing from to
  | _ => true
  end.

(** What a successful [setState] leaves: the new state, its time, its
    counter incremented, and the callback launched when one is set. *)
Definition committed (t : Z) (s : stateType) (p : process) : process :=
  let p' := set_state s t (count s (state_states p)) p in
  if callbacks_onStateChange p
  then dispatch (Call_onStateChange (state_state p) s) p' else p'.

(** The invariant of the supervisor: its state is one of the six, and
    every transition it reported is in the extended table. *)
Definition Inv (p : process) : Prop :=
  In (state_state p) all_states
  /\ forallb call_legal (dispatched p) = true.

(** A run: the operations applied in order. *)
Definition run (ops : list (World * op)) (p : process) : process :=
  fold_left step ops p.

(** *** Properties kept along a run *)

(** A property of the supervisor that every primitive write of the
    package keeps: [setState], and the assignments to the other fields
    with the values the code gives them. *)
Record closed (Q : process -> Prop) : Prop := {
  closed_setState : forall t s p, Q p -> Q (fst (setState t s p));
  closed_cmd : forall pr p, Q p ->
    Q (set_cmd (Some {| cmd_Args := binary p :: args p; cmd_Env := [];
                        cmd_Process := pr |}) p);
  closed_pid : forall v p, Q p -> Q (set_pid v p);
  closed_lastLine : forall v p, Q p -> Q (set_lastLine v p);
  closed_order : forall v p, Q p -> Q (set_order v p);
  closed_parser : forall v p, Q p -> Q (set_parser v p);
  closed_stale_last : forall v p, Q p -> Q (set_stale_last v p);
  closed_stale_cancel : forall v p, Q p -> Q (set_stale_cancel v p);
  closed_timer_nil : forall p, Q p -> Q (set_reconn_timer Timer_nil p);
  closed_timer_armed : forall p,
    reconn_enable p = true -> Q p -> Q (set_reconn_timer Timer_armed p);
  closed_timer_fired : forall p,
    reconn_timer p = Timer_armed -> Q p -> Q (set_reconn_timer Timer_fired p);
  closed_killTimer : forall v p, Q p -> Q (set_killTimer v p);
  closed_limits : forall v p, Q p -> Q (set_limits v p);
  closed_onExit : forall f p, Q p -> Q (set_onExit f p);
  closed_panicked : forall p, Q p -> Q (set_panicked true p);
  closed_onStart_call : forall p, Q p -> Q (dispatch Call_onStart p);
  closed_onExit_call : forall p, Q p -> Q (dispatch Call_onExit p)
}.

(** What [New] copies from the configuration and nothing writes again;
    the command, once built, is the configured binary and arguments with an
    empty environment. *)
Definition configured (config : Config P) (p : process) : Prop :=
  binary p = Binary config
  /\ args p = Args config
  /\ reconn_enable p = Reconnect config
  /\ reconn_delay p = ReconnectDelay config
  /\ stale_timeout p = StaleTimeout config
  /\ callbacks_onStart p = OnStart config
  /\ callbacks_onStateChange p = OnStateChange config
  /\ match cmd p with
     | None => True
     | Some c => cmd_Args c = Binary config :: Args config /\ cmd_Env c = []
     end.

(** The counter of state [s]. *)
Definition counter (s : stateType) (c : States) : Z :=
  if String.eqb s stateFinished then Finished c
  else if String.eqb s stateStarting then Starting c
  else if String.eqb s stateRunning then Running c
  else if String.eqb s stateFinishing then Finishing c
  else if String.eqb s stateFailed then Failed c
  else if String.eqb s stateKilled then Killed c
  else 0.

(** The number of reported transitions into state [s]. *)
Fixpoint reports_to (s : stateType) (cs : list call) : Z :=
  match cs with
  | [] => 0
  | Call_onStateChange _ b :: rest =>
      (if String.eqb b s then 1 else 0) + reports_to s rest
  | _ :: rest => reports_to s rest
  end.

(** Every counter is the number of reported transitions into its state,
    as a [uint64]. *)
Definition counted (p : process) : Prop :=
  callbacks_onStateChange p = true
  /\ forall s, In s all_states ->
       counter s (state_states p) = wrap_uint64 (reports_to s (dispatched p)).

(** Reconnect is disabled and no timer is set. *)
Definition never_armed (p : process) : Prop :=
  reconn_enable p = false /\ reconn_timer p = Timer_nil.

End Supervisor.
Arguments process P : clear implicits.

End process.
(** ** Package ffmpeg *)

(** The progress parser is the [process.Parser] the registry installs. *)
#[global] Instance parse_Parser : process.Parser parse.parser := {|
  process.Parse := parse.Parse;
  process.ResetStats := parse.ResetStats;
  process.ResetLog := parse.ResetLog;
  process.Log := parse.Log
|}.

Module ffmpeg.

(** A compiled [*regexp.Regexp], as the predicate [MatchString]. *)
Record Regexp := { MatchString : string -> bool }.

Record validator := {
  allow : list Regexp;
  block : list Regexp
}.

(** The loop over [v.allow] and the [return false] after it. *)
Fixpoint IsValid_allow (es : list Regexp) (text : string) : bool :=
  match es with
  | [] => false
  | e :: es' => if MatchString e text then true else IsValid_allow es' text
  end.

(** The loop over [v.block]; [rest] is what follows the loop. *)
Fixpoint IsValid_block (es : list Regexp) (text : string) (rest : bool) : bool :=
  match es with
  | [] => rest
  | e :: es' => if MatchString e text then false else IsValid_block es' text rest
  end.

(** [IsValid]. *)
Definition IsValid (v : validator) (text : string) : bool :=
  IsValid_block (block v) text
    (if (length (allow v) =? 0)%nat then true
     else IsValid_allow (allow v) text).

Record ProcessConfig := {
  Reconnect : bool;
  ReconnectDelay : Z;
  StaleTimeout : Z;
  Command : list string;
  Parser : option parse.parser;
  OnExit : bool;
  OnStart : bool;
  OnStateChange : bool
}.

(** The struct [ffmpeg], without the capability snapshot. *)
Record ffmpeg := {
  binary : string;
  validatorIn : validator;
  validatorOut : validator;
  logLines : Z
}.

(** The method [New]. *)
Definition New (t : Z) (f : ffmpeg) (config : ProcessConfig)
  : option (process.process parse.parser) * error :=
  process.New t
    {| process.Binary := binary f;
       process.Args := Command config;
       process.Reconnect := Reconnect config;
       process.ReconnectDelay := ReconnectDelay config;
       process.StaleTimeout := StaleTimeout config;
       process.Parser_ := Parser config;
       process.OnStart := OnStart config;
       process.OnExit := OnExit config;
       process.OnStateChange := OnStateChange config |}.

(** [NewParser]. *)
Definition NewParser (t : Z) (f : ffmpeg) : parse.parser :=
  parse.New t {| parse.LogLines := logLines f |}.

Definition ValidateInput (f : ffmpeg) (address : string) : bool :=
  IsValid (validatorIn f) address.

Definition ValidateOutput (f : ffmpeg) (address : string) : bool :=
  IsValid (validatorOut f) address.

(** *** The validator's constructor *)

Section NewValidator.
(** [strings.TrimSpace] and [regexp.Compile]: the expression compiled, or
    the text of the error. *)
Variable TrimSpace : string -> string.
Variable Compile : string -> Regexp + string.

(** One loop of [NewValidator]: [kind] is the word of its error message,
    [acc] the expressions appended so far. *)
Fixpoint NewValidator_loop (kind : string) (exps : list string) (acc : list Regexp)
  : list Regexp + string :=
  match exps with
  | [] => inl acc
  | exp :: rest =>
      let exp := TrimSpace exp in
      if String.eqb exp EmptyString then NewValidator_loop kind rest acc
      else
        match Compile exp with
        | inr err =>
            inr ("invalid " +:+ kind +:+ " expression '" +:+ exp +:+ "': " +:+ err)
        | inl re => NewValidator_loop kind rest (acc ++ [re])
        end
  end.

(** [NewValidator]. *)
Definition NewValidator (allow block : list string) : option validator * error :=
  match NewValidator_loop "allow" allow [] with
  | inr err => (None, Some err)
  | inl a =>
      match NewValidator_loop "block" block [] with
      | inr err => (None, Some err)
      | inl b => (Some {| allow := a; block := b |}, None)
      end
  end.

(** The expression of [exp] as a validator keeps it: none when [exp] is
    blank or does not compile. *)
Definition compiled (exp : string) : option Regexp :=
  if String.eqb (TrimSpace exp) EmptyString then None
  else match Compile (TrimSpace exp) with inl re => Some re | inr _ => None end.

End NewValidator.

End ffmpeg.

(** ** Package task *)

Module task.

Definition ErrNotFound : string := "task not found".
Definition ErrTaskExists : string := "task already exists".
Definition ErrInvalidConfig : string :=
  "invalid config: need at least one input and one output".
Definition ErrInvalidInputAddress : string := "invalid input address".
Definition ErrInvalidOutputAddress : string := "invalid output address".

Record ConfigIO := {
  io_ID : string;
  io_Address : string;
  io_Options : list string
}.

Record Config := {
  ID : string;
  Reference : string;
  Input : list ConfigIO;
  Output : list ConfigIO;
  Options : list string;
  Reconnect : bool;
  ReconnectDelay : Z;
  Autostart : bool;
  StaleTimeout : Z;
  LimitCPU : float;
  LimitMemory : Z;
  LimitWaitFor : Z
}.

Definition set_ID (v : string) (c : Config) : Config :=
  {| ID := v; Reference := Reference c; Input := Input c; Output := Output c;
     Options := Options c; Reconnect := Reconnect c;
     ReconnectDelay := ReconnectDelay c; Autostart := Autostart c;
     StaleTimeout := StaleTimeout c; LimitCPU := LimitCPU c;
     LimitMemory := LimitMemory c; LimitWaitFor := LimitWaitFor c |}.
Definition set_Reference (v : string) (c : Config) : Config :=
  {| ID := ID c; Reference := v; Input := Input c; Output := Output c;
     Options := Options c; Reconnect := Reconnect c;
     ReconnectDelay := ReconnectDelay c; Autostart := Autostart c;
     StaleTimeout := StaleTimeout c; LimitCPU := LimitCPU c;
     LimitMemory := LimitMemory c; LimitWaitFor := LimitWaitFor c |}.

(** [CreateCommand]: [cmd] is threaded through the two loops. *)
Definition CreateCommand (c : Config) : list string :=
  let cmd := [] in
  let cmd := cmd ++ Options c in
  let cmd :=
    fold_left (fun cmd in_ => (cmd ++ io_Options in_) ++ ["-i"; io_Address in_])
      (Input c) cmd in
  let cmd :=
    fold_left (fun cmd out => (cmd ++ io_Options out) ++ [io_Address out])
      (Output c) cmd in
  cmd.

(** [Task]. The field [parser] of the source is the very parser handed
    to the supervisor, so the model keeps it once, inside [proc]. *)
Record Task := {
  Task_ID : string;
  Task_Reference : string;
  Task_Config : Config;
  CreatedAt : Z;
  UpdatedAt : Z;
  Order : string;
  proc : process.process parse.parser
}.

(** [store], without its logger. *)
Record store := {
  ffmpeg_ : ffmpeg.ffmpeg;
  tasks : gmap string Task
}.

Definition set_tasks (m : gmap string Task) (s : store) : store :=
  {| ffmpeg_ := ffmpeg_ s; tasks := m |}.

(** [NewStore]. *)
Definition NewStore (ff : ffmpeg.ffmpeg) : store :=
  {| ffmpeg_ := ff; tasks := ∅ |}.

(** [time.Duration(n) * time.Second] for a [uint64] [n]. *)
Definition seconds (n : Z) : Z := wrap_int (wrap_int n * 1000000000).

(** [t.Unix()], the zero instant being 1 January of year 1. *)
Definition Time_Unix (t : Z) : Z := t / 1000000000 - 62135596800.

(** The loops [for _, in := range config.Input { if !Validate(in.Address)
    { return nil, err } }]: whether the loop returns. *)
Fixpoint rejects (valid : string -> bool) (ios : list ConfigIO) : bool :=
  match ios with
  | [] => false
  | io :: rest => if negb (valid (io_Address io)) then true else rejects valid rest
  end.

(** The parser and supervisor [Add] and [Update] build for a config. *)
Definition new_proc (t : Z) (f : ffmpeg.ffmpeg) (config : Config)
  : option (process.process parse.parser) * error :=
  let parser := ffmpeg.NewParser t f in
  ffmpeg.New t f
    {| ffmpeg.Reconnect := Reconnect config;
       ffmpeg.ReconnectDelay := seconds (ReconnectDelay config);
       ffmpeg.StaleTimeout := seconds (StaleTimeout config);
       ffmpeg.Command := CreateCommand config;
       ffmpeg.Parser := Some parser;
       ffmpeg.OnExit := false;
       ffmpeg.OnStart := false;
       ffmpeg.OnStateChange := true |}.

(** What a registry call returns besides the store: the task (or [nil]),
    the error, and whether [go proc.Start()] was launched. *)
Record result := {
  res_task : option Task;
  res_err : error;
  res_go_Start : bool
}.

Definition fail (e : string) : result :=
  {| res_task := None; res_err := Some e; res_go_Start := false |}.

(** [Add]. [uuid] is what [shortuuid.New()] would return. The config
    comes by pointer and the task keeps that pointer: the model takes the
    config by value, which is what the handlers ask of it, since they pass a
    config built for the call by [requestToConfig] and drop it. A caller
    that passed one config twice would share it between tasks, which this
    model does not follow. *)
Definition Add (w : process.World) (uuid : string) (config : Config) (s : store)
  : store * result :=
  let config := if (String.length (ID config) =? 0)%nat then set_ID uuid config else config in
  if (length (Input config) =? 0)%nat || (length (Output config) =? 0)%nat
  then (s, fail ErrInvalidConfig)
  else if rejects (ffmpeg.ValidateInput (ffmpeg_ s)) (Input config)
  then (s, fail ErrInvalidInputAddress)
  else if rejects (ffmpeg.ValidateOutput (ffmpeg_ s)) (Output config)
  then (s, fail ErrInvalidOutputAddress)
  else
    match tasks s !! ID config with
    | Some _ => (s, fail ErrTaskExists)
    | None =>
        let now := Time_Unix (process.now w) in
        match new_proc (process.now w) (ffmpeg_ s) config with
        | (Some proc, None) =>
            let task :=
              {| Task_ID := ID config; Task_Reference := Reference config;
                 Task_Config := config; CreatedAt := now; UpdatedAt := now;
                 Order := if Autostart config then "start" else "stop";
                 proc := proc |} in
            (set_tasks (<[ID config := task]> (tasks s)) s,
             {| res_task := Some task; res_err := None;
                res_go_Start := Autostart config |})
        | (_, Some err) => (s, fail err)
        | (None, None) => (s, {| res_task := None; res_err := None; res_go_Start := false |})
        end
    end.

(** [Get]. *)
Definition Get (id : string) (s : store) : option Task * error :=
  match tasks s !! id with
  | Some t => (Some t, None)
  | None => (None, Some ErrNotFound)
  end.

Definition set_proc (v : process.process parse.parser) (t : Task) : Task :=
  {| Task_ID := Task_ID t; Task_Reference := Task_Reference t;
     Task_Config := Task_Config t; CreatedAt := CreatedAt t;
     UpdatedAt := UpdatedAt t; Order := Order t; proc := v |}.

(** [Update]. The task is reached through a pointer, so what [Stop] did
    to its supervisor stays in the store when [Update] fails later. The
    config is taken by value, as in [Add]: the assignments to [config.ID]
    and [config.Reference] are made on the value of this call. *)
Definition Update (w : process.World) (id : string) (config : Config) (s : store)
  : store * result :=
  match tasks s !! id with
  | None => (s, fail ErrNotFound)
  | Some t =>
      let wasRunning := process.IsRunning (proc t) in
      let t := if wasRunning then set_proc (fst (process.Stop w true (proc t))) t else t in
      let s := set_tasks (<[id := t]> (tasks s)) s in
      let config := set_ID id config in
      let config := set_Reference (Task_Reference t) config in
      if rejects (ffmpeg.ValidateInput (ffmpeg_ s)) (Input config)
      then (s, fail ErrInvalidInputAddress)
      else if rejects (ffmpeg.ValidateOutput (ffmpeg_ s)) (Output config)
      then (s, fail ErrInvalidOutputAddress)
      else
        match new_proc (process.now w) (ffmpeg_ s) config with
        | (Some proc, None) =>
            let go := wasRunning || Autostart config in
            let t :=
              {| Task_ID := Task_ID t; Task_Reference := Task_Reference t;
                 Task_Config := config; CreatedAt := CreatedAt t;
                 UpdatedAt := Time_Unix (process.now w);
                 Order := if go then "start" else Order t;
                 proc := proc |} in
            (set_tasks (<[id := t]> (tasks s)) s,
             {| res_task := Some t; res_err := None; res_go_Start := go |})
        | (_, Some err) => (s, fail err)
        | (None, None) => (s, {| res_task := None; res_err := None; res_go_Start := false |})
        end
  end.

(** A sequence of [Update] calls. *)
Definition Updates (us : list (process.World * string * Config)) (s : store) : store :=
  fold_left (fun s u => fst (Update (fst (fst u)) (snd (fst u)) (snd u) s)) us s.

(** [Delete]. The supervisor it stops leaves the registry with the task,
    and the error of that [Stop] is dropped. *)
Definition Delete (w : process.World) (id : string) (s : store) : store * error :=
  match tasks s !! id with
  | None => (s, Some ErrNotFound)
  | Some t => (set_tasks (delete id (tasks s)) s, None)
  end.

(** *** The rest of the [Store] interface *)

(** [List]. The order of a [range] over a map is not specified; the model
    takes the order of [map_to_list]. *)
Definition List (ids : list string) (reference : string) (s : store) : list Task :=
  List.filter (fun t =>
                 negb ((0 <? String.length reference)%nat
                       && negb (String.eqb (Task_Reference t) reference))
                 && (if (0 <? length ids)%nat
                     then existsb (String.eqb (Task_ID t)) ids else true))
    (map snd (map_to_list (tasks s))).

(** [Start]. *)
Definition Start (w : process.World) (id : string) (s : store) : store * error :=
  let '(t, err) := Get id s in
  match err with
  | Some e => (s, Some e)
  | None =>
      match t with
      | Some t =>
          let '(p, err) := process.Start w (proc t) in
          (set_tasks (<[id := set_proc p t]> (tasks s)) s, err)
      | None => (s, None)
      end
  end.

(** [Stop]. *)
Definition Stop (w : process.World) (id : string) (s : store) : store * error :=
  let '(t, err) := Get id s in
  match err with
  | Some e => (s, Some e)
  | None =>
      match t with
      | Some t =>
          let '(p, err) := process.Stop w true (proc t) in
          (set_tasks (<[id := set_proc p t]> (tasks s)) s, err)
      | None => (s, None)
      end
  end.

(** [Restart]: [w1] is the environment of the [Stop], [w2] that of the
    [Start]. *)
Definition Restart (w1 w2 : process.World) (id : string) (s : store) : store * error :=
  let '(t, err) := Get id s in
  match err with
  | Some e => (s, Some e)
  | None =>
      match t with
      | Some t =>
          let p := fst (process.Stop w1 true (proc t)) in
          let '(p, err) := process.Start w2 p in
          (set_tasks (<[id := set_proc p t]> (tasks s)) s, err)
      | None => (s, None)
      end
  end.

(** The calls of the [Store] interface that write. *)
Inductive op :=
| Op_Add (w : process.World) (uuid : string) (config : Config)
| Op_Update (w : process.World) (id : string) (config : Config)
| Op_Delete (w : process.World) (id : string)
| Op_Start (w : process.World) (id : string)
| Op_Stop (w : process.World) (id : string)
| Op_Restart (w1 w2 : process.World) (id : string).

Definition step (s : store) (o : op) : store :=
  match o with
  | Op_Add w uuid config => fst (Add w uuid config s)
  | Op_Update w id config => fst (Update w id config s)
  | Op_Delete w id => fst (Delete w id s)
  | Op_Start w id => fst (Start w id s)
  | Op_Stop w id => fst (Stop w id s)
  | Op_Restart w1 w2 id => fst (Restart w1 w2 id s)
  end.

Definition run (ops : list op) (s : store) : store := fold_left step ops s.

(** Every task is filed under its own ID, which is also the ID of its
    config, and carries the reference of its config. *)
Definition registry_ok (s : store) : Prop :=
  forall id t, tasks s !! id = Some t ->
    Task_ID t = id /\ ID (Task_Config t) = id
    /\ Reference (Task_Config t) = Task_Reference t.


End task.

(** ** Package api *)

Module api.

Record ProcessConfigIO := {
  pio_ID : string;
  pio_Address : string;
  pio_Options : list string
}.

Record ProcessConfigLimits := {
  lim_CPU : float;
  lim_Memory : Z;
  lim_WaitFor : Z
}.

Record ProcessConfigRequest := {
  req_ID : string;
  req_Reference : string;
  req_Input : list ProcessConfigIO;
  req_Output : list ProcessConfigIO;
  req_Options : list string;
  req_Reconnect : bool;
  req_ReconnectDelay : Z;
  req_Autostart : bool;
  req_StaleTimeout : Z;
  req_Limits : ProcessConfigLimits
}.

Record ProcessConfig := {
  pc_ID : string;
  pc_Type : string;
  pc_Reference : string;
  pc_Input : list ProcessConfigIO;
  pc_Output : list ProcessConfigIO;
  pc_Options : list string;
  pc_Reconnect : bool;
  pc_ReconnectDelay : Z;
  pc_Autostart : bool;
  pc_StaleTimeout : Z;
  pc_Limits : ProcessConfigLimits
}.

(** The body of a response: an [ErrorResponse], the string ["OK"], or a
    [ProcessConfig]. *)
Inductive body :=
| ErrorResponse (Code : Z) (Message Detail : string)
| OK
| Config (c : ProcessConfig).

(** What a handler writes with [c.JSON]: the status code and the body. *)
Definition response : Type := Z * body.

Definition StatusOK : Z := 200.
Definition StatusBadRequest : Z := 400.
Definition StatusNotFound : Z := 404.
Definition StatusInternalServerError : Z := 500.

(** [errResp]. *)
Definition errResp (code : Z) (msg detail : string) : response :=
  (code, ErrorResponse code msg detail).

(** [requestToConfig]. *)
Definition requestToConfig (req : ProcessConfigRequest) : task.Config :=
  let to_io io :=
    {| task.io_ID := pio_ID io; task.io_Address := pio_Address io;
       task.io_Options := pio_Options io |} in
  {| task.ID := req_ID req;
     task.Reference := req_Reference req;
     task.Input := fold_left (fun acc io => acc ++ [to_io io]) (req_Input req) [];
     task.Output := fold_left (fun acc io => acc ++ [to_io io]) (req_Output req) [];
     task.Options := req_Options req;
     task.Reconnect := req_Reconnect req;
     task.ReconnectDelay := req_ReconnectDelay req;
     task.Autostart := req_Autostart req;
     task.StaleTimeout := req_StaleTimeout req;
     task.LimitCPU := lim_CPU (req_Limits req);
     task.LimitMemory :=
       wrap_uint64 (wrap_uint64 (lim_Memory (req_Limits req) * 1024) * 1024);
     task.LimitWaitFor := lim_WaitFor (req_Limits req) |}.

(** [taskToProcessConfig]. *)
Definition taskToProcessConfig (t : task.Task) : ProcessConfig :=
  let of_io io :=
    {| pio_ID := task.io_ID io; pio_Address := task.io_Address io;
       pio_Options := task.io_Options io |} in
  let c := task.Task_Config t in
  {| pc_ID := task.Task_ID t;
     pc_Type := "ffmpeg";
     pc_Reference := task.Task_Reference t;
     pc_Input := fold_left (fun acc io => acc ++ [of_io io]) (task.Input c) [];
     pc_Output := fold_left (fun acc io => acc ++ [of_io io]) (task.Output c) [];
     pc_Options := task.Options c;
     pc_Reconnect := task.Reconnect c;
     pc_ReconnectDelay := task.ReconnectDelay c;
     pc_Autostart := task.Autostart c;
     pc_StaleTimeout := task.StaleTimeout c;
     pc_Limits := {| lim_CPU := task.LimitCPU c;
                     lim_Memory := task.LimitMemory c / 1024 / 1024;
                     lim_WaitFor := task.LimitWaitFor c |} |}.

(** [AddProcess]. [req] is what [ShouldBindJSON] gives: the error text or
    the request. *)
Definition AddProcess (w : process.World) (uuid : string)
    (req : string + ProcessConfigRequest) (s : task.store) : task.store * response :=
  match req with
  | inl e => (s, errResp StatusBadRequest "Invalid JSON" e)
  | inr req =>
      if (length (req_Input req) =? 0)%nat || (length (req_Output req) =? 0)%nat
      then (s, errResp StatusBadRequest "At least one input and one output required" EmptyString)
      else
        let cfg := requestToConfig req in
        let '(s, r) := task.Add w uuid cfg s in
        match task.res_err r with
        | Some err =>
            if String.eqb err task.ErrTaskExists
            then (s, errResp StatusBadRequest "Task exists" err)
            else if String.eqb err task.ErrInvalidInputAddress
                    || String.eqb err task.ErrInvalidOutputAddress
            then (s, errResp StatusBadRequest "Invalid address" err)
            else (s, errResp StatusBadRequest "Invalid config" err)
        | None =>
            match task.res_task r with
            | Some t => (s, (StatusOK, Config (taskToProcessConfig t)))
            | None => (s, (StatusOK, OK))
            end
        end
  end.

(** [DeleteProcess]. The registry is locked inside [store.Stop] and inside
    [store.Delete], not from the one to the other: [between] is what the
    requests served meanwhile make of the registry. *)
Definition DeleteProcess (w : process.World) (id : string)
    (between : task.store -> task.store) (s : task.store) : task.store * response :=
  let '(s, err) := task.Stop w id s in
  match err with
  | Some e => (s, errResp StatusNotFound "Unknown process ID" e)
  | None =>
      let s := between s in
      let '(s, err) := task.Delete w id s in
      match err with
      | Some e => (s, errResp StatusInternalServerError "Delete failed" e)
      | None => (s, (StatusOK, OK))
      end
  end.

(** [UpdateProcess]. *)
Definition UpdateProcess (w : process.World) (id : string)
    (req : string + ProcessConfigRequest) (s : task.store) : task.store * response :=
  match req with
  | inl e => (s, errResp StatusBadRequest "Invalid JSON" e)
  | inr req =>
      if (length (req_Input req) =? 0)%nat || (length (req_Output req) =? 0)%nat
      then (s, errResp StatusBadRequest "At least one input and one output required" EmptyString)
      else
        let cfg := requestToConfig req in
        let cfg := task.set_ID id cfg in
        let '(s, r) := task.Update w id cfg s in
        match task.res_err r with
        | Some err =>
            if String.eqb err task.ErrNotFound
            then (s, errResp StatusNotFound "Unknown process ID" err)
            else (s, errResp StatusBadRequest "Invalid config" err)
        | None =>
            match task.res_task r with
            | Some t => (s, (StatusOK, Config (taskToProcessConfig t)))
            | None => (s, (StatusOK, OK))
            end
        end
  end.

(** [Command]. [req] is what [ShouldBindJSON] gives: the error text or the
    field [Command] of the request. *)
Definition Command (w w2 : process.World) (id : string) (req : string + string)
    (s : task.store) : task.store * response :=
  match req with
  | inl e => (s, errResp StatusBadRequest "Invalid JSON" e)
  | inr command =>
      let run (r : task.store * error) : task.store * response :=
        let '(s, err) := r in
        match err with
        | Some e => (s, errResp StatusBadRequest "Command failed" e)
        | None => (s, (StatusOK, OK))
        end in
      if String.eqb command "start" then run (task.Start w id s)
      else if String.eqb command "stop" then run (task.Stop w id s)
      else if String.eqb command "restart" then run (task.Restart w w2 id s)
      else (s, errResp StatusBadRequest "Unknown command" "Known: start, stop, restart")
  end.

(** The calls of the registry that the handlers make. [AddProcess] and
    [UpdateProcess], the only callers of [Add] and [Update], hand over a
    config that [requestToConfig] has built for that call and that nothing
    else holds. *)
Inductive store_call :=
| Call_Add (w : process.World) (uuid : string) (req : ProcessConfigRequest)
| Call_Update (w : process.World) (id : string) (req : ProcessConfigRequest)
| Call_Delete (w : process.World) (id : string)
| Call_Start (w : process.World) (id : string)
| Call_Stop (w : process.World) (id : string)
| Call_Restart (w1 w2 : process.World) (id : string).

Definition store_op (c : store_call) : task.op :=
  match c with
  | Call_Add w uuid req => task.Op_Add w uuid (requestToConfig req)
  | Call_Update w id req => task.Op_Update w id (task.set_ID id (requestToConfig req))
  | Call_Delete w id => task.Op_Delete w id
  | Call_Start w id => task.Op_Start w id
  | Call_Stop w id => task.Op_Stop w id
  | Call_Restart w1 w2 id => task.Op_Restart w1 w2 id
  end.

(** The registry after the calls of any number of requests, in the order
    in which they are served. *)
Definition serve (calls : list store_call) (s : task.store) : task.store :=
  task.run (map store_op calls) s.

End api.

(** ** Package config, and the start of main *)

Module config.

Record Config := {
  Server_Bind : string;
  FFmpeg_Path : string
}.

(** [Default]. *)
Definition Default : Config := {| Server_Bind := ":8080"; FFmpeg_Path := "ffmpeg" |}.

(** What [os.ReadFile] returns: the data, an error for which
    [os.IsNotExist] holds, or another error. *)
Inductive ReadFile_result :=
| ReadFile_data (data : string)
| ReadFile_not_exist (err : string)
| ReadFile_error (err : string).

Section Load.
(** [yaml.Unmarshal(data, cfg)]: the config it leaves and its error. *)
Variable Unmarshal : string -> Config -> Config * error.

(** [Load], on what reading the file gave: the config, or the error. *)
Definition Load (file : ReadFile_result) : Config + string :=
  let cfg := Default in
  match file with
  | ReadFile_not_exist _ => inl cfg
  | ReadFile_error err => inr err
  | ReadFile_data data =>
      let '(cfg, err) := Unmarshal data cfg in
      match err with
      | Some err => inr err
      | None =>
          let cfg := if String.eqb (Server_Bind cfg) EmptyString
                     then {| Server_Bind := ":8080"; FFmpeg_Path := FFmpeg_Path cfg |}
                     else cfg in
          let cfg := if String.eqb (FFmpeg_Path cfg) EmptyString
                     then {| Server_Bind := Server_Bind cfg; FFmpeg_Path := "ffmpeg" |}
                     else cfg in
          inl cfg
      end
  end.

(** The start of [main]: the bind address and the binary path the server
    goes on with, or the message it dies with. The file is read only when
    a config path is given. *)
Definition settings (configPath bind ffmpegBin : string) (file : ReadFile_result)
  : (string * string) + string :=
  let loaded :=
    if negb (String.eqb configPath EmptyString) then Load file else inl Default in
  match loaded with
  | inr err => inr ("Load config: " +:+ err)
  | inl cfg =>
      let bindAddr := if negb (String.eqb bind EmptyString) then bind
                      else Server_Bind cfg in
      let ffmpegPath := if negb (String.eqb ffmpegBin EmptyString) then ffmpegBin
                        else FFmpeg_Path cfg in
      inl (bindAddr, ffmpegPath)
  end.

End Load.
End config.

(** ** Package skills: the listings without regular expressions *)

Module skills.

Record Protocol := { Protocol_Id : string; Protocol_Name : string }.
Record HWAccel := { HWAccel_Id : string; HWAccel_Name : string }.

(** The class [[A-Za-z0-9]]. *)
Definition is_alnum (c : ascii) : bool :=
  let n := byte_of c in
  ((65 <=? n) && (n <=? 90)) || ((97 <=? n) && (n <=? 122)) || is_digit c.

(** [^[A-Za-z0-9]+$] on a line of the scanner, which holds no newline. *)
Definition re_hwaccel (line : string) : bool :=
  match span1 is_alnum line with
  | Some (_, EmptyString) => true
  | _ => false
  end.

Section Parsers.
(** [strings.TrimSpace]. *)
Variable TrimSpace : string -> string.

(** The loop of [parseProtocols] over the lines the scanner yields:
    [mode] and [p] are its variables. *)
Fixpoint parseProtocols_loop (lines : list string) (mode : string)
    (p : list Protocol * list Protocol) : list Protocol * list Protocol :=
  match lines with
  | [] => p
  | line :: rest =>
      if String.eqb line "Input:" then parseProtocols_loop rest "input" p
      else if String.eqb line "Output:" then parseProtocols_loop rest "output" p
      else if String.eqb mode EmptyString then parseProtocols_loop rest mode p
      else
        let id := TrimSpace line in
        let proto := {| Protocol_Id := id; Protocol_Name := id |} in
        if String.eqb mode "input"
        then parseProtocols_loop rest mode (fst p ++ [proto], snd p)
        else parseProtocols_loop rest mode (fst p, snd p ++ [proto])
  end.

(** [parseProtocols], on the lines of its data: the fields [Input] and
    [Output]. *)
Definition parseProtocols (lines : list string) : list Protocol * list Protocol :=
  parseProtocols_loop lines EmptyString ([], []).

(** The loop of [parseHWAccels]: [start] and [accels] are its
    variables. *)
Fixpoint parseHWAccels_loop (lines : list string) (start : bool) (accels : list HWAccel)
  : list HWAccel :=
  match lines with
  | [] => accels
  | line :: rest =>
      if String.eqb line "Hardware acceleration methods:"
      then parseHWAccels_loop rest true accels
      else if negb start || negb (re_hwaccel line)
      then parseHWAccels_loop rest start accels
      else
        let id := TrimSpace line in
        parseHWAccels_loop rest start
          (accels ++ [{| HWAccel_Id := id; HWAccel_Name := id |}])
  end.

(** [parseHWAccels], on the lines of its data. *)
Definition parseHWAccels (lines : list string) : list HWAccel :=
  parseHWAccels_loop lines false [].

End Parsers.
(** The entry [parseProtocols] makes of a line. *)
Definition protocol_of (TrimSpace : string -> string) (line : string) : Protocol :=
  {| Protocol_Id := TrimSpace line; Protocol_Name := TrimSpace line |}.

(** A line that is neither header of the protocol listing. *)
Definition no_header (line : string) : Prop := line <> "Input:" /\ line <> "Output:".

End skills.

(** ** Example values, used to run the model *)

(** An environment at instant [t] in which the spawn fails with
    [spawn_error] (or succeeds), signals are delivered, and the child, once
    waited for, reports the wait status [status]. *)
Definition example_World (t : Z) (spawn_error : error) (status : process.WaitStatus)
  : process.World :=
  {| process.now := t; process.windows := false; process.pipe_err := None;
     process.start_err := spawn_error; process.new_pid := 4242;
     process.limiter_ok := true; process.signal_err := None;
     process.kill_err := None; process.lines := [];
     process.wait := inr status |}.

(** The configuration of a supervisor with the progress parser, reconnect
    after one second, and a state-change callback. *)
Definition example_Config : process.Config parse.parser :=
  {| process.Binary := "/usr/bin/ffmpeg";
     process.Args := ["-i"; "/data/in.mp4"; "/data/out.mp4"];
     process.Reconnect := true; process.ReconnectDelay := 1000000000;
     process.StaleTimeout := 0;
     process.Parser_ := Some (parse.New 0 {| parse.LogLines := 100 |});
     process.OnStart := false; process.OnExit := false;
     process.OnStateChange := true |}.

(** A registry whose validators block addresses containing [..] and allow
    everything else. *)
Definition example_ffmpeg : ffmpeg.ffmpeg :=
  let v := {| ffmpeg.allow := [];
              ffmpeg.block := [{| ffmpeg.MatchString := fun a => Contains a ".." |}] |} in
  {| ffmpeg.binary := "/usr/bin/ffmpeg"; ffmpeg.validatorIn := v;
     ffmpeg.validatorOut := v; ffmpeg.logLines := 100 |}.

Definition example_task_Config (id ref input output : string) : task.Config :=
  {| task.ID := id; task.Reference := ref;
     task.Input := [{| task.io_ID := ""; task.io_Address := input; task.io_Options := [] |}];
     task.Output := [{| task.io_ID := ""; task.io_Address := output;
                        task.io_Options := ["-c:v"; "libx264"] |}];
     task.Options := []; task.Reconnect := false; task.ReconnectDelay := 0;
     task.Autostart := false; task.StaleTimeout := 0; task.LimitCPU := 0%float;
     task.LimitMemory := 0; task.LimitWaitFor := 0 |}.

(** * Properties *)

(** ** Command derivation *)

Lemma fold_left_append {A : Type} (f g : A -> list string) (l : list A) (acc : list string) :
  fold_left (fun cmd x => (cmd ++ f x) ++ g x) l acc
  = acc ++ concat (map (fun x => f x ++ g x) l).
Proof.
  revert acc. induction l as [|x l IH]; intros acc; simpl.
  - by rewrite app_nil_r.
  - rewrite IH. by rewrite <- !app_assoc.
Qed.

(** C2. For every config, [CreateCommand] returns the global options,
    then for each input in order its options, ["-i"] and its address, then
    for each output in order its options and its address; and identical
    configs give identical argument lists. *)
Theorem CreateCommand_spec (c c' : task.Config) :
  task.CreateCommand c
  = task.Options c
    ++ concat (map (fun i => task.io_Options i ++ ["-i"; task.io_Address i]) (task.Input c))
    ++ concat (map (fun o => task.io_Options o ++ [task.io_Address o]) (task.Output c))
  /\ (c = c' -> task.CreateCommand c = task.CreateCommand c').
Proof.
  split.
  - unfold task.CreateCommand. rewrite !fold_left_append. simpl.
    by rewrite <- app_assoc.
  - intros ->. reflexivity.
Qed.

(** Scenario 1 of the specification: one input, one output with options. *)
Lemma CreateCommand_spec_witness :
  let c := {| task.ID := "a"; task.Reference := "";
              task.Input := [{| task.io_ID := ""; task.io_Address := "/data/in.mp4";
                                task.io_Options := [] |}];
              task.Output := [{| task.io_ID := ""; task.io_Address := "/data/out.mp4";
                                 task.io_Options := ["-c:v"; "libx264"] |}];
              task.Options := []; task.Reconnect := false; task.ReconnectDelay := 0;
              task.Autostart := true; task.StaleTimeout := 0; task.LimitCPU := 0%float;
              task.LimitMemory := 0; task.LimitWaitFor := 0 |} in
  task.CreateCommand c = ["-i"; "/data/in.mp4"; "-c:v"; "libx264"; "/data/out.mp4"]
  /\ task.CreateCommand c = task.CreateCommand c.
Proof.
  intros c. destruct (CreateCommand_spec c c) as [Heq Hpure]. split.
  - rewrite Heq. reflexivity.
  - apply Hpure. reflexivity.
Defined.

(** ** Address validation *)

Lemma IsValid_allow_existsb (es : list ffmpeg.Regexp) (text : string) :
  ffmpeg.IsValid_allow es text = existsb (fun e => ffmpeg.MatchString e text) es.
Proof.
  induction es as [|e es IH]; simpl; [done|].
  destruct (ffmpeg.MatchString e text); [done|exact IH].
Qed.

Lemma IsValid_block_existsb (es : list ffmpeg.Regexp) (text : string) (rest : bool) :
  ffmpeg.IsValid_block es text rest
  = if existsb (fun e => ffmpeg.MatchString e text) es then false else rest.
Proof.
  induction es as [|e es IH]; simpl; [done|].
  destruct (ffmpeg.MatchString e text); [done|exact IH].
Qed.

(** C8. The validator answers invalid when some block expression matches;
    otherwise valid when the allow list is empty; otherwise valid exactly
    when some allow expression matches. *)
Theorem IsValid_block_then_allow (v : ffmpeg.validator) (text : string) :
  ffmpeg.IsValid v text
  = if existsb (fun e => ffmpeg.MatchString e text) (ffmpeg.block v) then false
    else match ffmpeg.allow v with
         | [] => true
         | _ => existsb (fun e => ffmpeg.MatchString e text) (ffmpeg.allow v)
         end.
Proof.
  unfold ffmpeg.IsValid. rewrite IsValid_block_existsb, IsValid_allow_existsb.
  by destruct (ffmpeg.allow v).
Qed.

(** ** The progress parser *)

Lemma search_weaken {A B : Type} (m : string -> option A) (m' : string -> option B)
    (s : string) (r : A) :
  (forall u a, m u = Some a -> is_Some (m' u)) ->
  search m s = Some r -> is_Some (search m' s).
Proof.
  intros Hm. induction s as [|c s IH]; simpl.
  - destruct (m "") eqn:E; [|done]. intros _.
    destruct (Hm _ _ E) as [b ->]. by eexists.
  - destruct (m (String c s)) eqn:E.
    + intros _. destruct (Hm _ _ E) as [b ->]. by eexists.
    + intros Hs. destruct (m' (String c s)); [by eexists|]. by apply IH.
Qed.

(** A line on which the frame expression matches contains the token
    [frame=]. *)
Lemma re_frame_Contains (line d : string) :
  parse.re_frame line = Some d -> Contains line "frame=" = true.
Proof.
  intros Hre. unfold Contains, parse.re_frame in *.
  apply (search_weaken _ (strip_prefix "frame=")) in Hre as [r ->]; [done|].
  intros u a Hu. destruct (strip_prefix "frame=" u); [by eexists|done].
Qed.

Lemma Parse_progress_line (t : Z) (line : string) (p : parse.parser) :
  Contains line "frame=" = true ->
  parse.progress (fst (parse.Parse t line p)) = parse.update_progress line (parse.progress p)
  /\ snd (parse.Parse t line p) = parse.Frame (parse.update_progress line (parse.progress p)).
Proof. intros Hc. unfold parse.Parse. rewrite Hc. by simpl. Qed.

Lemma Parse_other_line (t : Z) (line : string) (p : parse.parser) :
  Contains line "frame=" = false ->
  parse.progress (fst (parse.Parse t line p)) = parse.progress p
  /\ snd (parse.Parse t line p) = 0.
Proof. intros Hc. unfold parse.Parse. rewrite Hc. by simpl. Qed.

(** A field is left alone by the update of another field. *)
Lemma assign_other {A B X : Type} (f : parse.Progress -> X) (m : option A)
    (conv : A -> option B) (set : B -> parse.Progress -> parse.Progress)
    (g : parse.Progress) :
  (forall x g', f (set x g') = f g') -> f (parse.assign m conv set g) = f g.
Proof.
  intros Hset. unfold parse.assign. destruct m as [a|]; [|done].
  destruct (conv a); [apply Hset|done].
Qed.

Lemma assign_None {A B : Type} (conv : A -> option B)
    (set : B -> parse.Progress -> parse.Progress) (g : parse.Progress) :
  parse.assign None conv set g = g.
Proof. reflexivity. Qed.

Lemma assign_Some {A B : Type} (a : A) (x : B) (conv : A -> option B)
    (set : B -> parse.Progress -> parse.Progress) (g : parse.Progress) :
  conv a = Some x -> parse.assign (Some a) conv set g = set x g.
Proof. intros Hc. unfold parse.assign. by rewrite Hc. Qed.

Lemma assign_unparsed {A B : Type} (a : A) (conv : A -> option B)
    (set : B -> parse.Progress -> parse.Progress) (g : parse.Progress) :
  conv a = None -> parse.assign (Some a) conv set g = g.
Proof. intros Hc. unfold parse.assign. by rewrite Hc. Qed.

(** Strip, from the outside, the updates that do not write the field [f]. *)
Ltac peel f := repeat (rewrite (assign_other f); [|by intros]).

(** The same, across updates whose expression did not match. *)
Ltac peel_unmatched f :=
  repeat (rewrite assign_None || (rewrite (assign_other f); [|by intros])).

Ltac unfold_updates :=
  unfold parse.update_progress, parse.update_dup, parse.update_drop,
    parse.update_speed, parse.update_timeMs, parse.update_time,
    parse.update_sizeBytes, parse.update_size, parse.update_quantizer,
    parse.update_frame.

Lemma update_progress_Frame (line : string) (g : parse.Progress) :
  parse.Frame (parse.update_progress line g)
  = parse.Frame (parse.update_frame line g).
Proof. unfold_updates. by peel parse.Frame. Qed.

Lemma update_progress_Size (line : string) (g : parse.Progress) :
  parse.Size (parse.update_progress line g)
  = parse.Size (parse.update_sizeBytes line (parse.update_size line g)).
Proof.
  unfold_updates. peel parse.Size.
  destruct (parse.re_sizeBytes line) as [d|]; simpl;
    [destruct (ParseUint d); simpl; [done|]|];
    (destruct (parse.re_size line) as [d'|]; simpl;
     [destruct (ParseUint d'); simpl; [done|]|]); by peel parse.Size.
Qed.

Lemma update_progress_Time (line : string) (g : parse.Progress) :
  parse.Time (parse.update_progress line g)
  = parse.Time (parse.update_timeMs line (parse.update_time line g)).
Proof.
  unfold_updates. peel parse.Time.
  destruct (parse.re_timeMs line) as [d|]; simpl;
    [destruct (ParseUint d); simpl; [done|]|];
    (destruct (parse.re_time line) as [m|]; simpl; [done|]); by peel parse.Time.
Qed.

(** C3 as stated fails on the first progress line FFmpeg prints:
    its frame field parses, to zero, and zero is returned. *)
Lemma Parse_nonzero_counterexample :
  ~ (forall (t : Z) (line : string) (p : parse.parser) (d : string) (x : Z),
        Contains line "frame=" = true ->
        parse.re_frame line = Some d -> ParseUint d = Some x ->
        snd (parse.Parse t line p) <> 0).
Proof.
  intros Hclaim.
  apply (Hclaim 1 "frame=    0 fps=0.0 q=0.0 size=       0kB time=00:00:00.00 bitrate=N/A speed=0x"
           (parse.New 0 {| parse.LogLines := 100 |}) "0" 0); reflexivity.
Qed.

(** C3, amended. A line without the token [frame=] returns 0 and leaves
    the progress alone; a line whose frame field parses to [x] stores [x]
    as the frame and returns [x], so the value returned is non-zero
    exactly when [x] is. *)
Theorem Parse_returns_frame (t : Z) (line : string) (p : parse.parser) :
  (Contains line "frame=" = false ->
     snd (parse.Parse t line p) = 0
     /\ parse.progress (fst (parse.Parse t line p)) = parse.progress p)
  /\ (forall d x,
        parse.re_frame line = Some d -> ParseUint d = Some x ->
        snd (parse.Parse t line p) = x
        /\ parse.Frame (parse.progress (fst (parse.Parse t line p))) = x
        /\ (snd (parse.Parse t line p) <> 0 <-> x <> 0)).
Proof.
  split.
  - intros Hc. destruct (Parse_other_line t line p Hc) as [Hg Hr]. by split.
  - intros d x Hre Hx.
    destruct (Parse_progress_line t line p (re_frame_Contains _ _ Hre)) as [Hg Hr].
    assert (Hf : parse.Frame (parse.update_progress line (parse.progress p)) = x).
    { rewrite update_progress_Frame. unfold parse.update_frame.
      rewrite Hre. by rewrite (assign_Some d x). }
    rewrite Hr, Hg, Hf. by repeat split.
Qed.

Lemma Parse_returns_frame_witness :
  let p := parse.New 0 {| parse.LogLines := 100 |} in
  let line := "frame=   42 q=28.0 size=     100kB time=00:00:01.50 speed=1.2x" in
  snd (parse.Parse 1 "ffmpeg version 8.0" p) = 0
  /\ snd (parse.Parse 1 line p) = 42
  /\ parse.Frame (parse.progress (fst (parse.Parse 1 line p))) = 42.
Proof.
  intros p line. split.
  - apply (Parse_returns_frame 1 "ffmpeg version 8.0" p). reflexivity.
  - destruct (Parse_returns_frame 1 line p) as [_ Hf].
    destruct (Hf "42" 42) as (H1 & H2 & _); [reflexivity|reflexivity|].
    by split.
Defined.

Lemma frac_div_length (digits : string) (div : float) :
  parse.frac_div digits div
  = Nat.iter (String.length digits) (fun d => PrimFloat.mul d 10%float) div.
Proof.
  revert div. induction digits as [|c digits IH]; intros div; [done|].
  simpl parse.frac_div. rewrite IH. simpl String.length. by rewrite Nat.iter_succ_r.
Qed.

(** Up to 22 fractional digits the divisor of the fraction is the exact
    power of ten. *)
Lemma frac_div_pow10 (digits : string) :
  (String.length digits <= 22)%nat ->
  parse.frac_div digits 1%float = float64_of_Z (10 ^ Z.of_nat (String.length digits)).
Proof.
  intros Hlen. rewrite frac_div_length.
  remember (String.length digits) as n eqn:Hn. clear Hn.
  do 23 (destruct n as [|n]; [vm_compute; reflexivity|]). lia.
Qed.

(** C4. On a progress line, a parsed [total_size=] value is stored as the
    size whatever [size=...kB] carried, which counts only in its absence,
    times 1024 (in [uint64]); a parsed [out_time_ms=] value divided by 1e6
    is stored as the time whatever [time=] carried, which counts only in
    its absence, as whole seconds plus the fraction digits over ten to the
    number of those digits; and the line of scenario 2 gives time 2.5 and
    size 4096. *)
Theorem Parse_size_and_time_forms (t : Z) (line : string) (p : parse.parser) :
  Contains line "frame=" = true ->
  let g := parse.progress (fst (parse.Parse t line p)) in
  (forall d x, parse.re_sizeBytes line = Some d -> ParseUint d = Some x ->
     parse.Size g = x)
  /\ (forall d x, parse.re_sizeBytes line = None ->
        parse.re_size line = Some d -> ParseUint d = Some x ->
        parse.Size g = wrap_uint64 (x * 1024))
  /\ (forall d x, parse.re_timeMs line = Some d -> ParseUint d = Some x ->
        parse.Time g = PrimFloat.div (float64_of_Z x) 1000000%float)
  /\ (forall m, parse.re_timeMs line = None -> parse.re_time line = Some m ->
        parse.Time g = parse.time_seconds m)
  /\ (forall h mm ss fr x,
        (String.length fr <= 22)%nat -> ParseUint fr = Some x ->
        parse.time_seconds (h, mm, ss, fr)
        = PrimFloat.add
            (float64_of_Z
               (wrap_int (wrap_int (wrap_int (Atoi h * 3600) + wrap_int (Atoi mm * 60))
                          + Atoi ss)))
            (PrimFloat.div (float64_of_Z x)
               (float64_of_Z (10 ^ Z.of_nat (String.length fr)))))
  /\ (line = "frame=10 out_time_ms=2500000 total_size=4096 speed=2.0x" ->
        parse.Time g = 2.5%float /\ parse.Size g = 4096).
Proof.
  intros Hc g. destruct (Parse_progress_line t line p Hc) as [Hg _].
  subst g. rewrite Hg.
  assert (Hbytes : forall d x, parse.re_sizeBytes line = Some d -> ParseUint d = Some x ->
            parse.Size (parse.update_progress line (parse.progress p)) = x).
  { intros d x Hre Hx. rewrite update_progress_Size. unfold parse.update_sizeBytes.
    rewrite Hre. by rewrite (assign_Some d x). }
  assert (Hms : forall d x, parse.re_timeMs line = Some d -> ParseUint d = Some x ->
            parse.Time (parse.update_progress line (parse.progress p))
            = PrimFloat.div (float64_of_Z x) 1000000%float).
  { intros d x Hre Hx. rewrite update_progress_Time. unfold parse.update_timeMs.
    rewrite Hre. by rewrite (assign_Some d x). }
  split; [exact Hbytes|]. split; [|split; [exact Hms|split; [|split]]].
  - intros d x Hnone Hre Hx. rewrite update_progress_Size.
    unfold parse.update_sizeBytes, parse.update_size.
    rewrite Hnone, Hre, assign_None. by rewrite (assign_Some d x).
  - intros m Hnone Hre. rewrite update_progress_Time.
    unfold parse.update_timeMs, parse.update_time.
    rewrite Hnone, Hre, assign_None. by rewrite (assign_Some m (parse.time_seconds m)).
  - intros h mm ss fr x Hlen Hx. unfold parse.time_seconds.
    rewrite Hx, (frac_div_pow10 fr Hlen).
    destruct fr as [|c fr]; [discriminate|done].
  - intros ->. split.
    + rewrite (Hms "2500000" 2500000); reflexivity.
    + apply (Hbytes "4096"); reflexivity.
Qed.

(** A line carrying both forms of the size and of the time. *)
Lemma Parse_size_and_time_forms_witness :
  let line := "frame=5 size=1kB time=00:00:01.50 total_size=4096 out_time_ms=2500000" in
  let g := parse.progress (fst (parse.Parse 7 line (parse.New 0 {| parse.LogLines := 100 |}))) in
  parse.re_size line = Some "1" /\ parse.re_time line = Some ("00", "00", "01", "50")
  /\ parse.Size g = 4096 /\ parse.Time g = 2.5%float
  /\ parse.time_seconds ("00", "00", "01", "50") = 1.5%float.
Proof.
  intros line g.
  destruct (Parse_size_and_time_forms 7 line (parse.New 0 {| parse.LogLines := 100 |}) eq_refl)
    as (Hsize & _ & Htime & _ & Hfrac & _).
  split; [reflexivity|]. split; [reflexivity|]. split; [|split].
  - apply (Hsize "4096"); reflexivity.
  - subst g. rewrite (Htime "2500000" 2500000); reflexivity.
  - rewrite (Hfrac "00" "00" "01" "50" 50); [reflexivity|simpl; lia|reflexivity].
Defined.

(** C10. On a line that contains [frame=] but whose frame field does not
    match or does not parse, the frame is unchanged and its stored value is
    returned, so the result is non-zero exactly when the stored frame is,
    and 0 right after [ResetStats]; every field whose expressions did not
    match is unchanged too. *)
Theorem Parse_unparsed_frame (t : Z) (line : string) (p : parse.parser) :
  Contains line "frame=" = true ->
  (parse.re_frame line = None
   \/ exists d, parse.re_frame line = Some d /\ ParseUint d = None) ->
  let r := parse.Parse t line p in
  let g := parse.progress (fst r) in
  let g0 := parse.progress p in
  snd r = parse.Frame g0
  /\ parse.Frame g = parse.Frame g0
  /\ (parse.re_quantizer line = None -> parse.Quantizer g = parse.Quantizer g0)
  /\ (parse.re_size line = None -> parse.re_sizeBytes line = None ->
        parse.Size g = parse.Size g0)
  /\ (parse.re_time line = None -> parse.re_timeMs line = None ->
        parse.Time g = parse.Time g0)
  /\ (parse.re_speed line = None -> parse.Speed g = parse.Speed g0)
  /\ (parse.re_drop line = None -> parse.Drop g = parse.Drop g0)
  /\ (parse.re_dup line = None -> parse.Dup g = parse.Dup g0)
  /\ (parse.Frame g0 <> 0 -> snd r <> 0)
  /\ (g0 = parse.progress (parse.ResetStats p) -> snd r = 0).
Proof.
  intros Hc Hframe r g g0.
  destruct (Parse_progress_line t line p Hc) as [Hg Hr].
  assert (Hupd : parse.update_frame line g0 = g0).
  { unfold parse.update_frame.
    destruct Hframe as [-> | (d & -> & Hd)]; [done|by apply assign_unparsed]. }
  assert (Hf : parse.Frame (parse.update_progress line g0) = parse.Frame g0).
  { by rewrite update_progress_Frame, Hupd. }
  subst r g. rewrite Hr, Hg. fold g0. rewrite Hf.
  split; [done|]. split; [done|].
  unfold_updates; fold (parse.update_frame line g0); rewrite Hupd.
  repeat split.
  - intros ->. by peel_unmatched parse.Quantizer.
  - intros -> ->. by peel_unmatched parse.Size.
  - intros -> ->. by peel_unmatched parse.Time.
  - intros ->. by peel_unmatched parse.Speed.
  - intros ->. by peel_unmatched parse.Drop.
  - intros ->. by peel_unmatched parse.Dup.
  - done.
  - intros ->. reflexivity.
Qed.

(** A parser that has seen frame 42, then a line whose frame field is not
    a number; and the same line right after [ResetStats]. *)
Lemma Parse_unparsed_frame_witness :
  let p := fst (parse.Parse 1 "frame=42 q=28.0" (parse.New 0 {| parse.LogLines := 100 |})) in
  snd (parse.Parse 2 "frame=N/A speed=1.0x" p) = 42
  /\ parse.Quantizer (parse.progress (fst (parse.Parse 2 "frame=N/A speed=1.0x" p))) = 28%float
  /\ snd (parse.Parse 2 "frame=N/A speed=1.0x" (parse.ResetStats p)) = 0.
Proof.
  intros p.
  destruct (Parse_unparsed_frame 2 "frame=N/A speed=1.0x" p eq_refl (or_introl eq_refl))
    as (Hret & _ & Hq & _).
  destruct (Parse_unparsed_frame 2 "frame=N/A speed=1.0x" (parse.ResetStats p) eq_refl
              (or_introl eq_refl)) as (_ & _ & _ & _ & _ & _ & _ & _ & _ & Hzero).
  split; [exact Hret|]. split; [apply Hq; reflexivity|apply Hzero; reflexivity].
Defined.

(** ** The supervisor *)

(** Decide every comparison of the requested state [s] with a constant. *)
Ltac case_target s :=
  repeat match goal with
         | |- context [String.eqb s ?c] =>
             destruct (String.eqb_spec s c) as [->|?]; simpl
         end.

Section SupervisorProperties.
Context {P : Type} `{process.Parser P}.
Import process.

Lemma setState_cases (t : Z) (s : stateType) (p : process P) :
  In (state_state p) all_states ->
  (spec_legal_or_starting_finishing (state_state p) s = true
   /\ setState t s p = (committed t s p, None))
  \/ (spec_legal_or_starting_finishing (state_state p) s = false
      /\ exists msg, setState t s p = (p, Some msg)).
Proof.
  intros Hin. unfold setState, committed, spec_legal_or_starting_finishing, spec_legal, count.
  simpl in Hin.
  destruct Hin as [Hs|[Hs|[Hs|[Hs|[Hs|[Hs|[]]]]]]]; rewrite <- Hs; simpl;
    case_target s;
    first [ left; split; reflexivity
          | right; split; [reflexivity|eexists; reflexivity] ].
Qed.

Lemma committed_state (t : Z) (s : stateType) (p : process P) :
  state_state (committed t s p) = s
  /\ state_time (committed t s p) = t
  /\ state_states (committed t s p) = count s (state_states p).
Proof. unfold committed. by destruct (callbacks_onStateChange p). Qed.

Lemma legal_target (a b : stateType) :
  spec_legal_or_starting_finishing a b = true -> In b all_states.
Proof.
  unfold spec_legal_or_starting_finishing, spec_legal. intros Hl.
  destruct (String.eqb_spec b stateFinished) as [Hb|?]; [rewrite Hb; simpl; tauto|].
  destruct (String.eqb_spec b stateStarting) as [Hb|?]; [rewrite Hb; simpl; tauto|].
  destruct (String.eqb_spec b stateRunning) as [Hb|?]; [rewrite Hb; simpl; tauto|].
  destruct (String.eqb_spec b stateFinishing) as [Hb|?]; [rewrite Hb; simpl; tauto|].
  destruct (String.eqb_spec b stateFailed) as [Hb|?]; [rewrite Hb; simpl; tauto|].
  destruct (String.eqb_spec b stateKilled) as [Hb|?]; [rewrite Hb; simpl; tauto|].
  exfalso. rewrite !andb_false_r in Hl. discriminate.
Qed.

(** [setState] keeps the invariant. *)
Lemma Inv_setState (t : Z) (s : stateType) (p : process P) :
  Inv p -> Inv (fst (setState t s p)).
Proof.
  intros [Hin Hcalls].
  destruct (setState_cases t s p Hin) as [[Hl ->]|[_ [msg ->]]]; [|by split].
  simpl. split.
  - destruct (committed_state t s p) as [-> _]. by eapply legal_target.
  - unfold committed. destruct (callbacks_onStateChange p); simpl; [|done].
    rewrite forallb_app, Hcalls. simpl. by rewrite Hl.
Qed.

(** The fields of the invariant are out of reach of the other writes. *)
Lemma Inv_fields (p q : process P) :
  state_state q = state_state p -> dispatched q = dispatched p ->
  Inv p -> Inv q.
Proof. unfold Inv. by intros -> ->. Qed.

Lemma Inv_dispatch (c : call) (p : process P) :
  call_legal c = true -> Inv p -> Inv (dispatch c p).
Proof.
  intros Hc [Hin Hcalls]. split; [done|]. simpl.
  rewrite forallb_app, Hcalls. simpl. by rewrite Hc.
Qed.

Lemma Inv_unreconnect (p : process P) : Inv p -> Inv (unreconnect p).
Proof. unfold unreconnect. by destruct (reconn_timer p). Qed.

Lemma Inv_reconnect (p : process P) : Inv p -> Inv (reconnect p).
Proof.
  intros HI. unfold reconnect. destruct (reconn_enable p); simpl; [|done].
  by apply (Inv_fields (unreconnect p)), Inv_unreconnect.
Qed.

Lemma Inv_parser_Parse (t : Z) (line : string) (p : process P) :
  Inv p -> Inv (fst (parser_Parse t line p)).
Proof. unfold parser_Parse. by destruct (Parse t line (parser p)). Qed.

Lemma Inv_start_failed (w : World) (err : string) (p : process P) :
  Inv p -> Inv (fst (start_failed w err p)).
Proof.
  intros HI. unfold start_failed. simpl.
  by apply Inv_reconnect, Inv_parser_Parse, Inv_setState.
Qed.

Lemma Inv_start (w : World) (p : process P) : Inv p -> Inv (fst (start w p)).
Proof.
  intros HI. unfold start. destruct (isRunning p); [done|].
  pose proof (Inv_setState (now w) stateStarting _ (Inv_unreconnect p HI)) as HI1.
  destruct (pipe_err w); [by apply Inv_start_failed|].
  destruct (start_err w); [by apply Inv_start_failed|]. simpl.
  set (p2 := fst (setState (now w) stateRunning _)).
  assert (HI2 : Inv p2).
  { apply Inv_setState. by destruct (limiter_ok w). }
  assert (HI3 : Inv (if callbacks_onStart p2 then dispatch Call_onStart p2 else p2)).
  { destruct (callbacks_onStart p2); [by apply Inv_dispatch|done]. }
  by destruct (negb _).
Qed.

Lemma Inv_Start (w : World) (p : process P) : Inv p -> Inv (fst (Start w p)).
Proof.
  intros HI. unfold Start. destruct (String.eqb _ _); [done|]. by apply Inv_start.
Qed.

Lemma Inv_reader_line (t : Z) (line : string) (p : process P) :
  Inv p -> Inv (reader_line t line p).
Proof.
  intros HI. unfold reader_line.
  pose proof (Inv_parser_Parse t line (set_lastLine line p) HI) as HI1.
  destruct (parser_Parse t line (set_lastLine line p)) as [q n].
  by destruct (negb _).
Qed.

Lemma Inv_reader_lines (t : Z) (ls : list string) (p : process P) :
  Inv p -> Inv (fold_left (fun q l => reader_line t l q) ls p).
Proof.
  revert p. induction ls as [|l ls IH]; intros p HI; simpl; [done|].
  by apply IH, Inv_reader_line.
Qed.

Lemma Inv_go_onExit (p : process P) : Inv p -> Inv (go_onExit p).
Proof.
  intros HI. unfold go_onExit.
  pose proof (Inv_dispatch Call_onExit p eq_refl HI) as HI1.
  destruct (callbacks_onExit p) as [| |cb wg]; [done| |];
    cbv zeta; destruct (onExit_call _); exact HI1.
Qed.

Lemma Inv_waiter_body (w : World) (p : process P) : Inv p -> Inv (waiter_body w p).
Proof.
  intros HI. unfold waiter_body.
  pose proof (Inv_setState (now w) (waiter_state (Cmd_Wait (wait w))) p HI) as HI1.
  set (p1 := fst (setState _ _ p)) in *.
  set (q := set_parser _ _).
  assert (HIq : Inv q).
  { apply (Inv_fields p1); [| |done]; subst q.
    all: simpl; destruct (killTimer p1); simpl; by destruct (stale_cancel p1). }
  by apply Inv_go_onExit.
Qed.

Lemma Inv_waiter_tail (p : process P) : Inv p -> Inv (waiter_tail p).
Proof.
  intros HI. unfold waiter_tail. destruct (String.eqb _ _); [|done].
  by apply Inv_reconnect.
Qed.

Lemma Inv_stop (w : World) (b : bool) (p : process P) :
  Inv p -> Inv (fst (fst (stop w b p))).
Proof.
  intros HI. unfold stop.
  destruct (negb (isRunning p)); [by apply Inv_unreconnect|].
  destruct (String.eqb _ _); [done|].
  pose proof (Inv_setState (now w) stateFinishing p HI) as HI1.
  set (p1 := fst (setState _ _ p)) in *.
  set (p2 := if b then set_onExit _ p1 else p1).
  assert (HI2 : Inv p2) by (subst p2; by destruct b).
  destruct (windows w); [|destruct (signal_err w)];
    try destruct (kill_err w); simpl; try destruct b; simpl;
    repeat first [ exact HI2
                 | apply Inv_setState | apply Inv_parser_Parse
                 | apply Inv_waiter_body | apply Inv_reader_lines ].
Qed.

Lemma Inv_Stop (w : World) (b : bool) (p : process P) : Inv p -> Inv (fst (Stop w b p)).
Proof.
  intros HI. unfold Stop. destruct (String.eqb _ _); [done|].
  pose proof (Inv_stop w b (set_order "stop" p) HI) as HI1.
  by destruct (stop w b (set_order "stop" p)) as [[q e] blocked].
Qed.

Lemma Inv_Kill (w : World) (b : bool) (p : process P) : Inv p -> Inv (fst (Kill w b p)).
Proof.
  intros HI. unfold Kill. destruct (negb _); [done|].
  pose proof (Inv_stop w b p HI) as HI1.
  by destruct (stop w b p) as [[q e] blocked].
Qed.

Lemma Inv_step (p : process P) (wo : World * op) : Inv p -> Inv (step p wo).
Proof.
  intros HI. destruct wo as [w o]. unfold step.
  destruct (panicked p); [done|]. destruct o.
  - by apply Inv_Start.
  - by apply Inv_Stop.
  - by apply Inv_Kill.
  - unfold reconnect_fire. destruct (reconn_timer p); [done| |done].
    by apply Inv_start.
  - unfold killTimer_fire. by destruct (killTimer p).
  - done.
  - unfold staler_tick. destruct (PrimFloat.ltb _ _); [|done]. by apply Inv_stop.
  - done.
  - by apply Inv_reader_line.
  - by apply Inv_waiter_tail, Inv_waiter_body.
  - by apply Inv_waiter_tail.
Qed.

Lemma Inv_run (ops : list (World * op)) (p : process P) : Inv p -> Inv (run ops p).
Proof.
  revert p. induction ops as [|o ops IH]; intros p HI; simpl; [done|].
  by apply IH, Inv_step.
Qed.

(** In a state that is none of the six, [setState] refuses everything. *)
Lemma setState_cases_any (t : Z) (s : stateType) (p : process P) :
  (spec_legal_or_starting_finishing (state_state p) s = true
   /\ setState t s p = (committed t s p, None))
  \/ (spec_legal_or_starting_finishing (state_state p) s = false
      /\ exists msg, setState t s p = (p, Some msg)).
Proof.
  destruct (in_dec String.string_dec (state_state p) all_states) as [Hin|Hout];
    [by apply setState_cases|].
  right.
  assert (Hne : forall c, In c all_states -> String.eqb (state_state p) c = false).
  { intros c Hc. apply String.eqb_neq. intros Heq. apply Hout. by rewrite Heq. }
  unfold setState, spec_legal_or_starting_finishing, spec_legal.
  rewrite !Hne by (simpl; tauto). simpl. split; [done|by eexists].
Qed.

Lemma setState_legal (t : Z) (s : stateType) (p : process P) :
  In (state_state p) all_states ->
  spec_legal_or_starting_finishing (state_state p) s = true ->
  setState t s p = (committed t s p, None).
Proof.
  intros Hin Hl. destruct (setState_cases t s p Hin) as [[_ Heq]|[Hno _]]; [done|].
  rewrite Hl in Hno. discriminate.
Qed.

(** A successful [setState] writes the state fields and launches the
    callback, nothing else. *)
Lemma committed_other (t : Z) (s : stateType) (p : process P) :
  parser (committed t s p) = parser p
  /\ order_order (committed t s p) = order_order p
  /\ reconn_timer (committed t s p) = reconn_timer p
  /\ reconn_enable (committed t s p) = reconn_enable p.
Proof. unfold committed. by destruct (callbacks_onStateChange p). Qed.

Lemma unreconnect_fields (p : process P) :
  state_state (unreconnect p) = state_state p
  /\ state_states (unreconnect p) = state_states p
  /\ parser (unreconnect p) = parser p
  /\ order_order (unreconnect p) = order_order p
  /\ reconn_enable (unreconnect p) = reconn_enable p
  /\ reconn_timer (unreconnect p) = Timer_nil.
Proof. unfold unreconnect. by destruct (reconn_timer p) eqn:E. Qed.

Lemma reconnect_fields (p : process P) :
  state_state (reconnect p) = state_state p
  /\ state_states (reconnect p) = state_states p
  /\ parser (reconnect p) = parser p
  /\ order_order (reconnect p) = order_order p
  /\ reconn_timer (reconnect p)
     = if reconn_enable p then Timer_armed else reconn_timer p.
Proof.
  unfold reconnect. destruct (reconn_enable p); simpl; [|done].
  by destruct (unreconnect_fields p) as (-> & -> & -> & -> & _).
Qed.

(** The failure branches of [start], from a state that is [starting]. *)
Lemma start_failed_fields (w : World) (err : string) (p : process P) :
  state_state p = stateStarting ->
  snd (start_failed w err p) = Some err
  /\ state_state (fst (start_failed w err p)) = stateFailed
  /\ state_states (fst (start_failed w err p)) = inc_Failed (state_states p)
  /\ parser (fst (start_failed w err p)) = fst (Parse (now w) err (parser p))
  /\ order_order (fst (start_failed w err p)) = order_order p
  /\ reconn_timer (fst (start_failed w err p))
     = if reconn_enable p then Timer_armed else reconn_timer p.
Proof.
  intros Hs. unfold start_failed. cbn [fst snd].
  rewrite (setState_legal (now w) stateFailed p); [|rewrite Hs; simpl; tauto|by rewrite Hs].
  cbn [fst snd]. set (q := committed (now w) stateFailed p).
  destruct (committed_state (now w) stateFailed p) as (Hq1 & _ & Hq3).
  destruct (committed_other (now w) stateFailed p) as (Hq4 & Hq5 & Hq6 & Hq7).
  fold q in Hq1, Hq3, Hq4, Hq5, Hq6, Hq7.
  unfold parser_Parse. rewrite Hq4.
  destruct (Parse (now w) err (parser p)) as [r n]. cbn [fst snd].
  destruct (reconnect_fields (set_parser r q)) as (-> & -> & -> & -> & ->). simpl.
  by rewrite Hq1, Hq3, Hq5, Hq6, Hq7.
Qed.

(** After its [setState], [waiter] leaves the state fields alone. *)
Lemma waiter_state_fields (w : World) (p : process P) :
  let p1 := fst (setState (now w) (waiter_state (Cmd_Wait (wait w))) p) in
  state_state (waiter w p) = state_state p1
  /\ state_states (waiter w p) = state_states p1.
Proof.
  intros p1. unfold waiter, waiter_tail.
  assert (Hbody : state_state (waiter_body w p) = state_state p1
                  /\ state_states (waiter_body w p) = state_states p1).
  { unfold waiter_body. fold p1.
    set (q := set_parser _ _).
    assert (Hq : state_state q = state_state p1 /\ state_states q = state_states p1).
    { subst q. simpl. destruct (killTimer p1); simpl; by destruct (stale_cancel p1). }
    unfold go_onExit. destruct (callbacks_onExit q) as [| |cb wg]; [done| |];
      cbv zeta; by destruct (onExit_call _). }
  destruct (String.eqb _ _); [|done].
  by destruct (reconnect_fields (waiter_body w p)) as (-> & -> & _).
Qed.

End SupervisorProperties.

(** C1, amended. [setState] keeps the state among the six; when it returns
    no error the transition is in the table of the specification or is
    starting to finishing, the state is the requested one and its counter
    alone is incremented; a transition outside that extended table returns
    an error and changes nothing. Along every sequence of lifecycle
    operations and internal transitions of a new supervisor the state stays
    among the six and every transition reported to [onStateChange] is in
    the extended table. *)
Theorem supervisor_state_machine {P : Type} `{process.Parser P} :
  (forall (t : Z) (s : process.stateType) (p : process.process P),
      (In (process.state_state p) process.all_states ->
       In (process.state_state (fst (process.setState t s p))) process.all_states)
      /\ (snd (process.setState t s p) = None ->
            process.spec_legal_or_starting_finishing (process.state_state p) s = true
            /\ process.state_state (fst (process.setState t s p)) = s
            /\ process.state_time (fst (process.setState t s p)) = t
            /\ process.state_states (fst (process.setState t s p))
               = process.count s (process.state_states p))
      /\ (process.spec_legal_or_starting_finishing (process.state_state p) s = false ->
            snd (process.setState t s p) <> None
            /\ fst (process.setState t s p) = p))
  /\ (forall (t : Z) (config : process.Config P) (p0 : process.process P)
             (ops : list (process.World * process.op)),
        process.New t config = (Some p0, None) ->
        In (process.state_state (process.run ops p0)) process.all_states
        /\ forallb process.call_legal (process.dispatched (process.run ops p0)) = true).
Proof.
  split.
  - intros t s p.
    destruct (setState_cases_any t s p) as [[Hl ->]|[Hl [msg ->]]]; simpl.
    + destruct (committed_state t s p) as (-> & -> & ->).
      split; [intros _; by eapply legal_target|].
      split; [done|]. intros Hno. rewrite Hl in Hno. discriminate.
    + split; [done|]. split; [discriminate|]. done.
  - intros t config p0 ops Hnew.
    apply Inv_run. unfold process.New in Hnew.
    destruct (_ =? _)%nat; [discriminate|]. injection Hnew as <-.
    split; simpl; [tauto|done].
Qed.

(** C1 as stated fails at [setState] itself: a supervisor that is
    [starting] accepts [finishing], a transition the table of the
    specification does not list. *)
Lemma setState_starting_finishing_counterexample :
  ~ (forall (t : Z) (s : process.stateType) (p : process.process process.nullParser),
        In (process.state_state p) process.all_states ->
        process.spec_legal (process.state_state p) s = false ->
        snd (process.setState t s p) <> None /\ fst (process.setState t s p) = p).
Proof.
  intros Hclaim.
  destruct (fst (process.New (P := process.nullParser) 0
                   {| process.Binary := "ffmpeg"; process.Args := [];
                      process.Reconnect := false; process.ReconnectDelay := 0;
                      process.StaleTimeout := 0; process.Parser_ := None;
                      process.OnStart := false; process.OnExit := false;
                      process.OnStateChange := true |})) as [p0|] eqn:E;
    vm_compute in E; [injection E as E|discriminate].
  destruct (Hclaim 2 process.stateFinishing
              (fst (process.setState 1 process.stateStarting p0))) as [Herr _].
  - subst p0. vm_compute. tauto.
  - subst p0. reflexivity.
  - apply Herr. subst p0. reflexivity.
Qed.

(** A new supervisor run through start, a progress line, a blocking stop
    that ends with exit status 255, and a second start whose spawn fails. *)
Lemma supervisor_state_machine_witness :
  exists p0,
    process.New 0 example_Config = (Some p0, None)
    /\ let ops := [(example_World 1 None 0, process.Op_Start);
                   (example_World 2 None 0, process.Op_reader_begin);
                   (example_World 3 None 0, process.Op_reader_line "frame=1 q=2.0");
                   (example_World 4 None 65280, process.Op_Stop true);
                   (example_World 5 (Some "fork/exec: no such file") 0, process.Op_Start)] in
       let p := process.run ops p0 in
       (In (process.state_state p) process.all_states
        /\ forallb process.call_legal (process.dispatched p) = true)
       /\ process.state_state p = process.stateFailed
       /\ process.dispatched p
          = [process.Call_onStateChange "finished" "starting";
             process.Call_onStateChange "starting" "running";
             process.Call_onStateChange "running" "finishing";
             process.Call_onStateChange "finishing" "finished";
             process.Call_onExit;
             process.Call_onStateChange "finished" "starting";
             process.Call_onStateChange "starting" "failed"]
       /\ In (process.state_state (fst (process.setState 6 process.stateStarting p)))
            process.all_states
       /\ snd (process.setState 6 process.stateRunning p) <> None
       /\ fst (process.setState 6 process.stateRunning p) = p.
Proof.
  eexists. split; [reflexivity|]. intros ops p.
  destruct (@supervisor_state_machine parse.parser _) as [Hset Hrun].
  split; [exact (Hrun 0 example_Config _ ops eq_refl)|].
  split; [reflexivity|]. split; [reflexivity|]. split.
  - apply (Hset 6 process.stateStarting p).
    exact (proj1 (Hrun 0 example_Config _ ops eq_refl)).
  - apply (Hset 6 process.stateRunning p). reflexivity.
Defined.

(** C5 as stated fails for a child that ends after a [Stop] whose signal
    and kill both failed: that [Stop] has left the supervisor [failed],
    [setState] refuses [finished] there, and the exit with code 0 commits
    nothing. *)
Lemma waiter_commit_counterexample :
  ~ (forall (p0 : process.process parse.parser)
            (ops : list (process.World * process.op)) (w : process.World)
            (status : process.WaitStatus),
        process.New 0 example_Config = (Some p0, None) ->
        process.wait w = inr status ->
        process.WaitStatus_Exited status = true ->
        process.WaitStatus_ExitStatus status = 0 ->
        process.state_state (process.waiter w (process.run ops p0))
        = process.stateFinished).
Proof.
  intros Hclaim.
  assert (Hnew : exists p0, process.New 0 example_Config = (Some p0, None))
    by (eexists; reflexivity).
  destruct Hnew as [p0 Hnew].
  pose proof (Hclaim p0
                [(example_World 1 None 0, process.Op_Start);
                 ({| process.now := 2; process.windows := false;
                     process.pipe_err := None; process.start_err := None;
                     process.new_pid := 0; process.limiter_ok := false;
                     process.signal_err := Some "os: process already finished";
                     process.kill_err := Some "os: process already finished";
                     process.lines := []; process.wait := inr 0 |},
                  process.Op_Stop false)]
                (example_World 3 None 0) 0 Hnew eq_refl eq_refl eq_refl) as Hc.
  vm_compute in Hnew. injection Hnew as <-.
  vm_compute in Hc. discriminate Hc.
Qed.

(** C5, amended. For the child's wait status, [waiter] asks [setState] for
    [finished] after a normal exit with code 0 or 255, for [failed] after a
    normal exit with any other code, and for [killed] when the child did
    not exit normally (it was ended by a signal). Reached while the
    supervisor is running or finishing, that state is committed and its
    counter incremented; reached while the supervisor is finished, failed
    or killed, [setState] refuses it, and state and counters stay. *)
Theorem waiter_classifies_exit {P : Type} `{process.Parser P}
    (w : process.World) (p : process.process P) (status : process.WaitStatus) :
  process.wait w = inr status ->
  exists target : process.stateType,
    (process.WaitStatus_Exited status = true ->
       (process.WaitStatus_ExitStatus status = 0
        \/ process.WaitStatus_ExitStatus status = 255 ->
        target = process.stateFinished)
       /\ (process.WaitStatus_ExitStatus status <> 0 ->
           process.WaitStatus_ExitStatus status <> 255 ->
           target = process.stateFailed))
    /\ (process.WaitStatus_Exited status = false -> target = process.stateKilled)
    /\ process.state_state (process.waiter w p)
       = process.state_state (fst (process.setState (process.now w) target p))
    /\ process.state_states (process.waiter w p)
       = process.state_states (fst (process.setState (process.now w) target p))
    /\ (process.state_state p = process.stateRunning
        \/ process.state_state p = process.stateFinishing ->
        process.state_state (process.waiter w p) = target
        /\ process.state_states (process.waiter w p)
           = process.count target (process.state_states p))
    /\ (In (process.state_state p)
          [process.stateFinished; process.stateFailed; process.stateKilled] ->
        process.state_state (process.waiter w p) = process.state_state p
        /\ process.state_states (process.waiter w p) = process.state_states p).
Proof.
  intros Hwait.
  exists (process.waiter_state (process.Cmd_Wait (process.wait w))).
  destruct (waiter_state_fields w p) as [Hs Hc].
  assert (Hin : In (process.waiter_state (process.Cmd_Wait (process.wait w)))
                  [process.stateFinished; process.stateFailed; process.stateKilled]).
  { unfold process.waiter_state.
    destruct (process.Cmd_Wait (process.wait w)) as [[st|msg]|]; simpl; [|tauto|tauto].
    destruct (process.WaitStatus_Exited st); [|tauto].
    destruct (_ =? 255); tauto. }
  split; [|split; [|split; [exact Hs|split; [exact Hc|]]]].
  - rewrite Hwait. unfold process.Cmd_Wait, process.waiter_state.
    intros Hex. split.
    + intros [H0 | H255]; [by rewrite H0|].
      rewrite H255. simpl. by rewrite Hex, H255.
    + intros H0 H255.
      destruct (Z.eqb_spec (process.WaitStatus_ExitStatus status) 0); [done|].
      rewrite Hex. by destruct (Z.eqb_spec (process.WaitStatus_ExitStatus status) 255).
  - rewrite Hwait. unfold process.Cmd_Wait, process.waiter_state.
    intros Hex. unfold process.WaitStatus_ExitStatus. rewrite Hex. simpl. by rewrite Hex.
  - split.
    + intros Hstate. rewrite Hs, Hc.
      rewrite (setState_legal (process.now w) _ p).
      * simpl. by destruct (committed_state (process.now w)
                              (process.waiter_state (process.Cmd_Wait (process.wait w))) p)
          as (-> & _ & ->).
      * destruct Hstate as [-> | ->]; simpl; tauto.
      * simpl in Hin.
        destruct Hstate as [-> | ->], Hin as [<-|[<-|[<-|[]]]]; reflexivity.
    + intros Hidle. rewrite Hs, Hc.
      destruct (setState_cases_any (process.now w)
                  (process.waiter_state (process.Cmd_Wait (process.wait w))) p)
        as [[Hl _]|[_ [msg ->]]]; [|done].
      exfalso. simpl in Hin, Hidle.
      destruct Hidle as [Hp|[Hp|[Hp|[]]]], Hin as [Ht|[Ht|[Ht|[]]]];
        rewrite <- Hp, <- Ht in Hl; discriminate Hl.
Qed.

(** A running supervisor whose child exits with code 255, with code 0,
    with code 1, and is ended by signal 9. *)
Lemma waiter_classifies_exit_witness :
  exists p0,
    process.New 0 example_Config = (Some p0, None)
    /\ let p := fst (process.Start (example_World 1 None 0) p0) in
       process.state_state p = process.stateRunning
       /\ process.state_state (process.waiter (example_World 2 None 65280) p)
          = process.stateFinished
       /\ process.state_state (process.waiter (example_World 2 None 0) p)
          = process.stateFinished
       /\ process.state_state (process.waiter (example_World 2 None 256) p)
          = process.stateFailed
       /\ process.state_state (process.waiter (example_World 2 None 9) p)
          = process.stateKilled.
Proof.
  eexists. split; [reflexivity|]. intros p. split; [reflexivity|].
  split; [|split; [|split]].
  - destruct (waiter_classifies_exit (example_World 2 None 65280) p 65280 eq_refl)
      as (target & Hexit & _ & _ & _ & Hcommit & _).
    rewrite (proj1 (Hcommit (or_introl eq_refl))).
    apply Hexit; [reflexivity|right; reflexivity].
  - destruct (waiter_classifies_exit (example_World 2 None 0) p 0 eq_refl)
      as (target & Hexit & _ & _ & _ & Hcommit & _).
    rewrite (proj1 (Hcommit (or_introl eq_refl))).
    apply Hexit; [reflexivity|left; reflexivity].
  - destruct (waiter_classifies_exit (example_World 2 None 256) p 256 eq_refl)
      as (target & Hexit & _ & _ & _ & Hcommit & _).
    rewrite (proj1 (Hcommit (or_introl eq_refl))).
    apply Hexit; [reflexivity|discriminate|discriminate].
  - destruct (waiter_classifies_exit (example_World 2 None 9) p 9 eq_refl)
      as (target & _ & Hsig & _ & _ & Hcommit & _).
    rewrite (proj1 (Hcommit (or_introl eq_refl))).
    apply Hsig. reflexivity.
Defined.

(** C7. When the order is not yet [start] and no child is alive, a [Start]
    whose pipe creation or process start fails with [err] returns [err],
    leaves the supervisor [failed] (having counted [starting] and
    [failed]), has passed the text of [err] to the parser, and has armed
    the reconnect timer exactly when reconnect is enabled. *)
Theorem Start_spawn_failure {P : Type} `{process.Parser P}
    (w : process.World) (p : process.process P) (err : string) :
  process.order_order p <> "start" ->
  In (process.state_state p)
    [process.stateFinished; process.stateFailed; process.stateKilled] ->
  (process.pipe_err w = Some err
   \/ (process.pipe_err w = None /\ process.start_err w = Some err)) ->
  let p' := fst (process.Start w p) in
  snd (process.Start w p) = Some err
  /\ process.state_state p' = process.stateFailed
  /\ process.state_states p'
     = process.inc_Failed (process.inc_Starting (process.state_states p))
  /\ process.parser p' = fst (process.Parse (process.now w) err (process.parser p))
  /\ process.reconn_timer p'
     = (if process.reconn_enable p then process.Timer_armed else process.Timer_nil)
  /\ process.order_order p' = "start".
Proof.
  intros Horder Hin Herr p'. subst p'.
  apply String.eqb_neq in Horder.
  unfold process.Start. rewrite Horder. unfold process.start.
  set (p0 := process.set_order "start" p).
  assert (Hidle : process.isRunning p0 = false).
  { unfold process.isRunning, process.getState. simpl.
    simpl in Hin. by destruct Hin as [<-|[<-|[<-|[]]]]. }
  rewrite Hidle.
  destruct (unreconnect_fields p0) as (Hu1 & Hu2 & Hu3 & Hu4 & Hu5 & Hu6).
  rewrite (setState_legal (process.now w) process.stateStarting (process.unreconnect p0)).
  2: { rewrite Hu1. simpl. simpl in Hin. tauto. }
  2: { rewrite Hu1. simpl. simpl in Hin. by destruct Hin as [<-|[<-|[<-|[]]]]. }
  cbn [fst].
  set (p1 := process.committed (process.now w) process.stateStarting (process.unreconnect p0)).
  destruct (committed_state (process.now w) process.stateStarting (process.unreconnect p0))
    as (Hc1 & _ & Hc3).
  destruct (committed_other (process.now w) process.stateStarting (process.unreconnect p0))
    as (Hc4 & Hc5 & Hc6 & Hc7).
  fold p1 in Hc1, Hc3, Hc4, Hc5, Hc6, Hc7.
  set (p2 := process.set_cmd _ p1).
  assert (Hfail : let r := process.start_failed w err p2 in
            snd r = Some err
            /\ process.state_state (fst r) = process.stateFailed
            /\ process.state_states (fst r)
               = process.inc_Failed (process.inc_Starting (process.state_states p))
            /\ process.parser (fst r)
               = fst (process.Parse (process.now w) err (process.parser p))
            /\ process.reconn_timer (fst r)
               = (if process.reconn_enable p then process.Timer_armed
                  else process.Timer_nil)
            /\ process.order_order (fst r) = "start").
  { intros r. subst r.
    destruct (start_failed_fields w err p2 Hc1) as (-> & -> & -> & -> & -> & ->).
    subst p2. simpl. rewrite Hc3, Hc4, Hc5, Hc6, Hc7, Hu2, Hu3, Hu4, Hu5, Hu6.
    by subst p0. }
  destruct Herr as [-> | [-> ->]]; exact Hfail.
Qed.

(** A new supervisor with the progress parser whose first spawn fails: the
    error comes back, the state is [failed], the log holds the error text
    and the reconnect timer is armed. *)
Lemma Start_spawn_failure_witness :
  exists p0,
    process.New 0 example_Config = (Some p0, None)
    /\ let err := "fork/exec /usr/bin/ffmpeg: no such file or directory" in
       let r := process.Start (example_World 1 (Some err) 0) p0 in
       snd r = Some err
       /\ process.state_state (fst r) = process.stateFailed
       /\ process.Log (process.parser (fst r))
          = [{| process_line.Timestamp := 1; process_line.Data := err |}]
       /\ process.reconn_timer (fst r) = process.Timer_armed.
Proof.
  eexists. split; [reflexivity|]. intros err r.
  match goal with
  | r := process.Start ?w ?p |- _ =>
      destruct (Start_spawn_failure w p err) as (H1 & H2 & _ & H4 & H5 & _);
        [discriminate|simpl; tauto|right; split; reflexivity|]
  end.
  split; [exact H1|]. split; [exact H2|]. split; [|exact H5].
  subst r. rewrite H4. reflexivity.
Defined.

(** ** The registry *)

Lemma rejects_true (valid : string -> bool) (ios : list task.ConfigIO) :
  (exists io, In io ios /\ valid (task.io_Address io) = false) ->
  task.rejects valid ios = true.
Proof.
  intros (io & Hin & Hv). induction ios as [|x ios IH]; simpl in *; [done|].
  destruct (valid (task.io_Address x)) eqn:E; simpl; [|done].
  destruct Hin as [->|Hin]; [congruence|by apply IH].
Qed.

Lemma rejects_false (valid : string -> bool) (ios : list task.ConfigIO) :
  (forall io, In io ios -> valid (task.io_Address io) = true) ->
  task.rejects valid ios = false.
Proof.
  intros Hall. induction ios as [|x ios IH]; simpl in *; [done|].
  rewrite (Hall x); [|by left]. simpl. apply IH. intros io Hin. apply Hall. by right.
Qed.

Lemma length_eqb_0 {A : Type} (l : list A) :
  (length l =? 0)%nat = true <-> l = [].
Proof. destruct l; simpl; split; done. Qed.

(** C6. The checks of [Add], in the order of the code: a config without
    inputs or without outputs gives [ErrInvalidConfig]; otherwise a
    rejected input address gives [ErrInvalidInputAddress]; otherwise a
    rejected output address gives [ErrInvalidOutputAddress]; otherwise an
    ID already present gives [ErrTaskExists]; and whenever [Add] returns an
    error the store is unchanged and no task is returned. *)
Theorem Add_errors (w : process.World) (uuid : string) (config : task.Config)
    (s : task.store) :
  let id := if (String.length (task.ID config) =? 0)%nat then uuid else task.ID config in
  let s' := fst (task.Add w uuid config s) in
  let r := snd (task.Add w uuid config s) in
  let bad_input :=
    exists io, In io (task.Input config)
               /\ ffmpeg.ValidateInput (task.ffmpeg_ s) (task.io_Address io) = false in
  let bad_output :=
    exists io, In io (task.Output config)
               /\ ffmpeg.ValidateOutput (task.ffmpeg_ s) (task.io_Address io) = false in
  (task.Input config = [] \/ task.Output config = [] ->
     task.res_err r = Some task.ErrInvalidConfig)
  /\ (task.Input config <> [] -> task.Output config <> [] -> bad_input ->
        task.res_err r = Some task.ErrInvalidInputAddress)
  /\ (task.Input config <> [] -> task.Output config <> [] -> ~ bad_input ->
        bad_output -> task.res_err r = Some task.ErrInvalidOutputAddress)
  /\ (task.Input config <> [] -> task.Output config <> [] -> ~ bad_input ->
        ~ bad_output -> is_Some (task.tasks s !! id) ->
        task.res_err r = Some task.ErrTaskExists)
  /\ (task.res_err r <> None ->
        s' = s /\ task.res_task r = None /\ task.res_go_Start r = false).
Proof.
  intros id s' r bad_input bad_output. subst s' r. unfold task.Add.
  set (config' := if (String.length (task.ID config) =? 0)%nat
                  then task.set_ID uuid config else config).
  assert (Hin : task.Input config' = task.Input config)
    by (subst config'; by destruct (_ =? _)%nat).
  assert (Hout : task.Output config' = task.Output config)
    by (subst config'; by destruct (_ =? _)%nat).
  assert (Hid : task.ID config' = id)
    by (subst config' id; by destruct (_ =? _)%nat).
  rewrite Hin, Hout, Hid.
  assert (Hempty : forall A (l : list A), l <> [] -> (length l =? 0)%nat = false).
  { intros A l Hl. destruct (length l =? 0)%nat eqn:E; [|done]. by apply length_eqb_0 in E. }
  assert (Hri : ~ bad_input ->
            task.rejects (ffmpeg.ValidateInput (task.ffmpeg_ s)) (task.Input config) = false).
  { intros Hno. apply rejects_false. intros io Hio.
    destruct (ffmpeg.ValidateInput _ _) eqn:E; [done|]. destruct Hno. by exists io. }
  assert (Hro : ~ bad_output ->
            task.rejects (ffmpeg.ValidateOutput (task.ffmpeg_ s)) (task.Output config) = false).
  { intros Hno. apply rejects_false. intros io Hio.
    destruct (ffmpeg.ValidateOutput _ _) eqn:E; [done|]. destruct Hno. by exists io. }
  split; [|split; [|split; [|split]]].
  - intros [-> | ->]; simpl; [done|]. by rewrite orb_true_r.
  - intros Hi Ho Hbad. rewrite (Hempty _ _ Hi), (Hempty _ _ Ho). simpl.
    by rewrite (rejects_true _ _ Hbad).
  - intros Hi Ho Hgood Hbad. rewrite (Hempty _ _ Hi), (Hempty _ _ Ho). simpl.
    by rewrite (Hri Hgood), (rejects_true _ _ Hbad).
  - intros Hi Ho Hgi Hgo [t Ht]. rewrite (Hempty _ _ Hi), (Hempty _ _ Ho). simpl.
    by rewrite (Hri Hgi), (Hro Hgo), Ht.
  - destruct (_ || _); [done|].
    destruct (task.rejects _ (task.Input config)); [done|].
    destruct (task.rejects _ (task.Output config)); [done|].
    destruct (task.tasks s !! id); [done|].
    destruct (task.new_proc _ _ _) as [[proc|] [e|]]; simpl; done.
Qed.

(** A registry holding task [t1]: adding a config without inputs, one with
    a blocked input address, one with a blocked output address, and one
    with the ID [t1] again. *)
Lemma Add_errors_witness :
  let w := example_World 1 None 0 in
  let s := fst (task.Add w "u1" (example_task_Config "t1" "r" "/data/in.mp4" "/data/out.mp4")
                  (task.NewStore example_ffmpeg)) in
  let no_input :=
    {| task.ID := "t2"; task.Reference := ""; task.Input := [];
       task.Output := []; task.Options := []; task.Reconnect := false;
       task.ReconnectDelay := 0; task.Autostart := false; task.StaleTimeout := 0;
       task.LimitCPU := 0%float; task.LimitMemory := 0; task.LimitWaitFor := 0 |} in
  let bad_in := example_task_Config "t2" "r" "../in.mp4" "/data/out.mp4" in
  let bad_out := example_task_Config "t2" "r" "/data/in.mp4" "../out.mp4" in
  let again := example_task_Config "t1" "r" "/data/in.mp4" "/data/out.mp4" in
  task.res_err (snd (task.Add w "u2" no_input s)) = Some task.ErrInvalidConfig
  /\ task.res_err (snd (task.Add w "u2" bad_in s)) = Some task.ErrInvalidInputAddress
  /\ task.res_err (snd (task.Add w "u2" bad_out s)) = Some task.ErrInvalidOutputAddress
  /\ task.res_err (snd (task.Add w "u2" again s)) = Some task.ErrTaskExists
  /\ fst (task.Add w "u2" again s) = s.
Proof.
  intros w s no_input bad_in bad_out again.
  split; [|split; [|split; [|split]]].
  - apply (Add_errors w "u2" no_input s). by left.
  - apply (Add_errors w "u2" bad_in s); [done|done|].
    eexists. split; [by left|reflexivity].
  - apply (Add_errors w "u2" bad_out s); [done|done| |].
    + intros (io & [<-|[]] & Hv). discriminate.
    + eexists. split; [by left|reflexivity].
  - apply (Add_errors w "u2" again s); [done|done| | |].
    + intros (io & [<-|[]] & Hv). discriminate.
    + intros (io & [<-|[]] & Hv). discriminate.
    + eexists. reflexivity.
  - apply (Add_errors w "u2" again s).
    assert (He : task.res_err (snd (task.Add w "u2" again s)) = Some task.ErrTaskExists).
    { apply (Add_errors w "u2" again s); [done|done| | |].
      + intros (io & [<-|[]] & Hv). discriminate.
      + intros (io & [<-|[]] & Hv). discriminate.
      + eexists. reflexivity. }
    rewrite He. discriminate.
Defined.

(** [New] returns a supervisor or an error, never both or neither. *)
Lemma new_proc_result (t : Z) (f : ffmpeg.ffmpeg) (config : task.Config) :
  (exists proc, task.new_proc t f config = (Some proc, None))
  \/ (exists e, task.new_proc t f config = (None, Some e)).
Proof.
  unfold task.new_proc, ffmpeg.New, process.New. simpl.
  destruct (_ =? _)%nat; [right|left]; by eexists.
Qed.

Lemma Update_Reference_all (w : process.World) (id : string) (config : task.Config)
    (s : task.store) (id0 : string) (t0 : task.Task) :
  task.tasks s !! id0 = Some t0 ->
  exists t0', task.tasks (fst (task.Update w id config s)) !! id0 = Some t0'
              /\ task.Task_Reference t0' = task.Task_Reference t0.
Proof.
  intros H0. unfold task.Update.
  destruct (task.tasks s !! id) as [t|] eqn:Ht; [|by exists t0].
  set (t1 := if process.IsRunning (task.proc t) then _ else t).
  assert (Ht1 : task.Task_Reference t1 = task.Task_Reference t)
    by (subst t1; by destruct (process.IsRunning _)).
  set (s1 := task.set_tasks _ s).
  assert (Hs1 : exists t0', task.tasks s1 !! id0 = Some t0'
                            /\ task.Task_Reference t0' = task.Task_Reference t0).
  { subst s1. simpl. destruct (decide (id = id0)) as [->|Hne].
    - rewrite lookup_insert_eq. exists t1. split; [done|]. congruence.
    - rewrite lookup_insert_ne; [|done]. by exists t0. }
  destruct (task.rejects _ _); [done|].
  destruct (task.rejects _ _); [done|].
  destruct (task.new_proc _ _ _) as [[proc|] [e|]]; simpl; try done.
  destruct (decide (id = id0)) as [->|Hne].
  - rewrite lookup_insert_eq. eexists. split; [done|]. simpl. congruence.
  - rewrite lookup_insert_ne; [|done]. subst s1. simpl.
    rewrite lookup_insert_ne; [|done]. by exists t0.
Qed.

Lemma Updates_Reference_all (us : list (process.World * string * task.Config))
    (s : task.store) (id0 : string) (t0 : task.Task) :
  task.tasks s !! id0 = Some t0 ->
  exists t0', task.tasks (task.Updates us s) !! id0 = Some t0'
              /\ task.Task_Reference t0' = task.Task_Reference t0.
Proof.
  revert s t0. induction us as [|[[w id] config] us IH]; intros s t0 H0; simpl.
  - by exists t0.
  - destruct (Update_Reference_all w id config s id0 t0 H0) as (t1 & H1 & Hr1).
    destruct (IH _ t1 H1) as (t2 & H2 & Hr2).
    exists t2. split; [done|]. congruence.
Qed.

(** C9. For an existing task, [Update] installs the supplied config with
    its ID overwritten by [id] and its Reference by the task's Reference,
    and the Reference of the task (of every task) is the same after the
    call, whether it succeeds or not, and after any sequence of calls. *)
Theorem Update_keeps_Reference (w : process.World) (id : string) (config : task.Config)
    (s : task.store) (t : task.Task) :
  task.tasks s !! id = Some t ->
  let s' := fst (task.Update w id config s) in
  let r := snd (task.Update w id config s) in
  (exists t', task.tasks s' !! id = Some t'
              /\ task.Task_Reference t' = task.Task_Reference t)
  /\ (task.res_err r = None ->
        exists t', task.res_task r = Some t'
                   /\ task.tasks s' !! id = Some t'
                   /\ task.Task_Config t'
                      = task.set_Reference (task.Task_Reference t) (task.set_ID id config)
                   /\ task.ID (task.Task_Config t') = id
                   /\ task.Reference (task.Task_Config t') = task.Task_Reference t
                   /\ task.Task_Reference t' = task.Task_Reference t)
  /\ (forall us, exists t',
        task.tasks (task.Updates us s) !! id = Some t'
        /\ task.Task_Reference t' = task.Task_Reference t).
Proof.
  intros Ht s' r.
  split; [exact (Update_Reference_all w id config s id t Ht)|].
  split; [|intros us; exact (Updates_Reference_all us s id t Ht)].
  subst s' r. unfold task.Update. rewrite Ht.
  set (t1 := if process.IsRunning (task.proc t) then _ else t).
  assert (Ht1 : task.Task_Reference t1 = task.Task_Reference t)
    by (subst t1; by destruct (process.IsRunning _)).
  destruct (task.rejects _ _); [done|].
  destruct (task.rejects _ _); [done|].
  destruct (new_proc_result (process.now w) (task.ffmpeg_ s)
              (task.set_Reference (task.Task_Reference t1) (task.set_ID id config)))
    as [[proc Hp]|[e Hp]]; simpl in Hp |- *; rewrite Hp; simpl; [|done].
  intros _. eexists. split; [done|]. rewrite lookup_insert_eq.
  split; [done|]. simpl. rewrite Ht1. by repeat split.
Qed.

(** Task [t1] with reference [r] updated with a config that names another
    ID and another reference, and updated twice. *)
Lemma Update_keeps_Reference_witness :
  let w := example_World 1 None 0 in
  let s := fst (task.Add w "u1" (example_task_Config "t1" "r" "/data/in.mp4" "/data/out.mp4")
                  (task.NewStore example_ffmpeg)) in
  let c := example_task_Config "other" "changed" "/data/in.mp4" "/data/new.mp4" in
  exists t', task.tasks (fst (task.Update w "t1" c s)) !! "t1" = Some t'
             /\ task.Task_Reference t' = "r"
             /\ task.Reference (task.Task_Config t') = "r"
             /\ task.ID (task.Task_Config t') = "t1".
Proof.
  intros w s c.
  assert (Ht : exists t, task.tasks s !! "t1" = Some t /\ task.Task_Reference t = "r").
  { eexists. split; [vm_compute; reflexivity|reflexivity]. }
  destruct Ht as (t & Ht & Href).
  destruct (Update_keeps_Reference w "t1" c s t Ht) as (_ & Hok & _).
  destruct Hok as (t' & _ & Hl & _ & Hid & Hcr & Hr); [vm_compute; reflexivity|].
  exists t'. split; [exact Hl|]. split; [by rewrite Hr|].
  split; [by rewrite Hcr|exact Hid].
Defined.

(** ** The split function of the reader *)
Lemma byte_of_range (c : ascii) : 0 <= byte_of c < 256.
Proof.
  unfold byte_of. destruct c as [[] [] [] [] [] [] [] []]; vm_compute; split; congruence.
Qed.

Lemma lor_lower (a b : Z) : 0 <= a -> 0 <= b -> a <= Z.lor a b.
Proof.
  intros Ha Hb. apply (Z.ldiff_le a (Z.lor a b)); [by apply Z.lor_nonneg|].
  apply Z.bits_inj'. intros n Hn.
  rewrite Z.ldiff_spec, Z.lor_spec, Z.bits_0. by destruct (Z.testbit a n), (Z.testbit b n).
Qed.

Lemma land_63 (b : Z) : Z.land b 63 = b mod 64.
Proof. change 63 with (Z.ones 6). by rewrite Z.land_ones. Qed.
Lemma land_31 (b : Z) : Z.land b 31 = b mod 32.
Proof. change 31 with (Z.ones 5). by rewrite Z.land_ones. Qed.
Lemma land_15 (b : Z) : Z.land b 15 = b mod 16.
Proof. change 15 with (Z.ones 4). by rewrite Z.land_ones. Qed.
Lemma land_7 (b : Z) : Z.land b 7 = b mod 8.
Proof. change 7 with (Z.ones 3). by rewrite Z.land_ones. Qed.

Ltac byte_cmp :=
  repeat match goal with
         | |- context [?a <? ?b] => destruct (Z.ltb_spec a b); simpl
         | |- context [?a =? ?b] => destruct (Z.eqb_spec a b); simpl
         | |- context [?a <=? ?b] => destruct (Z.leb_spec a b); simpl
         end.

Lemma utf8_first_cases (b : Z) :
  0 <= b < 256 ->
  (b < 128 /\ utf8_first b = 240)
  \/ ((128 <= b < 194 \/ 245 <= b) /\ utf8_first b = 241)
  \/ (194 <= b < 224 /\ utf8_first b = 2)
  \/ (b = 224 /\ utf8_first b = 19)
  \/ ((225 <= b < 237 \/ 238 <= b < 240) /\ utf8_first b = 3)
  \/ (b = 237 /\ utf8_first b = 35)
  \/ (b = 240 /\ utf8_first b = 52)
  \/ (241 <= b < 244 /\ utf8_first b = 4)
  \/ (b = 244 /\ utf8_first b = 68).
Proof.
  intros Hb. unfold utf8_first. byte_cmp; lia.
Qed.

(** What the decoded rune is at least, from its leading bits. *)
Lemma rune2_lower (p0 b1 : Z) :
  0 <= p0 -> 0 <= b1 -> Z.land p0 31 * 64 <= Z.lor (Z.shiftl (Z.land p0 31) 6) (Z.land b1 63).
Proof.
  intros H0 H1. rewrite Z.shiftl_mul_pow2 by lia. change (2 ^ 6) with 64.
  apply lor_lower; [|by apply Z.land_nonneg; left].
  apply Z.mul_nonneg_nonneg; [by apply Z.land_nonneg; left|lia].
Qed.

Lemma rune3_lower (p0 b1 b2 : Z) :
  0 <= p0 -> 0 <= b1 -> 0 <= b2 ->
  Z.land p0 15 * 4096 <= Z.lor (Z.lor (Z.shiftl (Z.land p0 15) 12)
                                     (Z.shiftl (Z.land b1 63) 6)) (Z.land b2 63)
  /\ Z.land b1 63 * 64 <= Z.lor (Z.lor (Z.shiftl (Z.land p0 15) 12)
                                     (Z.shiftl (Z.land b1 63) 6)) (Z.land b2 63).
Proof.
  intros H0 H1 H2. rewrite !Z.shiftl_mul_pow2 by lia.
  change (2 ^ 12) with 4096. change (2 ^ 6) with 64.
  assert (Ha : 0 <= Z.land p0 15 * 4096)
    by (apply Z.mul_nonneg_nonneg; [by apply Z.land_nonneg; left|lia]).
  assert (Hb : 0 <= Z.land b1 63 * 64)
    by (apply Z.mul_nonneg_nonneg; [by apply Z.land_nonneg; left|lia]).
  assert (Hc : 0 <= Z.land b2 63) by (by apply Z.land_nonneg; left).
  pose proof (lor_lower (Z.land p0 15 * 4096) (Z.land b1 63 * 64) Ha Hb) as L1.
  pose proof (lor_lower (Z.land b1 63 * 64) (Z.land p0 15 * 4096) Hb Ha) as L2.
  rewrite (Z.lor_comm (Z.land b1 63 * 64)) in L2.
  assert (Hab : 0 <= Z.lor (Z.land p0 15 * 4096) (Z.land b1 63 * 64))
    by (by apply Z.lor_nonneg).
  pose proof (lor_lower _ (Z.land b2 63) Hab Hc) as L3. lia.
Qed.

Lemma rune4_lower (p0 b1 b2 b3 : Z) :
  0 <= p0 -> 0 <= b1 -> 0 <= b2 -> 0 <= b3 ->
  let r := Z.lor (Z.lor (Z.lor (Z.shiftl (Z.land p0 7) 18)
                            (Z.shiftl (Z.land b1 63) 12))
                     (Z.shiftl (Z.land b2 63) 6)) (Z.land b3 63) in
  Z.land p0 7 * 262144 <= r /\ Z.land b1 63 * 4096 <= r.
Proof.
  intros H0 H1 H2 H3 r. subst r. rewrite !Z.shiftl_mul_pow2 by lia.
  change (2 ^ 18) with 262144. change (2 ^ 12) with 4096. change (2 ^ 6) with 64.
  assert (Ha : 0 <= Z.land p0 7 * 262144)
    by (apply Z.mul_nonneg_nonneg; [by apply Z.land_nonneg; left|lia]).
  assert (Hb : 0 <= Z.land b1 63 * 4096)
    by (apply Z.mul_nonneg_nonneg; [by apply Z.land_nonneg; left|lia]).
  assert (Hc : 0 <= Z.land b2 63 * 64)
    by (apply Z.mul_nonneg_nonneg; [by apply Z.land_nonneg; left|lia]).
  assert (Hd : 0 <= Z.land b3 63) by (by apply Z.land_nonneg; left).
  pose proof (lor_lower (Z.land p0 7 * 262144) (Z.land b1 63 * 4096) Ha Hb) as L1.
  pose proof (lor_lower (Z.land b1 63 * 4096) (Z.land p0 7 * 262144) Hb Ha) as L2.
  rewrite (Z.lor_comm (Z.land b1 63 * 4096)) in L2.
  assert (Hab : 0 <= Z.lor (Z.land p0 7 * 262144) (Z.land b1 63 * 4096))
    by (by apply Z.lor_nonneg).
  pose proof (lor_lower _ (Z.land b2 63 * 64) Hab Hc) as L3.
  assert (Habc : 0 <= Z.lor (Z.lor (Z.land p0 7 * 262144) (Z.land b1 63 * 4096))
                        (Z.land b2 63 * 64)) by (by apply Z.lor_nonneg).
  pose proof (lor_lower _ (Z.land b3 63) Habc Hd) as L4. lia.
Qed.

Lemma not_eol_high (c : ascii) : 128 <= byte_of c -> not_eol c = true.
Proof. intros Hc. unfold not_eol, is_eol. byte_cmp; lia. Qed.

(** Evaluate what [DecodeRune] reads off the table entry [x]. *)
Ltac table_entry x :=
  let b := eval vm_compute in (240 <=? x) in
  change (240 <=? x) with b;
  let sz := eval vm_compute in (Z.land x 7) in
  change (Z.land x 7) with sz;
  let ac := eval vm_compute in (utf8_acceptRanges (Z.shiftr x 4)) in
  change (utf8_acceptRanges (Z.shiftr x 4)) with ac;
  let o := eval vm_compute in (Z.odd x) in
  change (Z.odd x) with o;
  cbv iota; cbn [fst snd];
  repeat match goal with
         | |- context [Z.leb ?a 2] =>
             let v := eval vm_compute in (Z.leb a 2) in
             lazymatch v with true => idtac | false => idtac end;
             change (Z.leb a 2) with v
         | |- context [Z.leb ?a 3] =>
             let v := eval vm_compute in (Z.leb a 3) in
             lazymatch v with true => idtac | false => idtac end;
             change (Z.leb a 3) with v
         end;
  cbv iota.

(** One continuation byte of [DecodeRune]: outside its range the result is
    the error case [Herr]. *)
Ltac next_byte p1 c1 p2 Herr :=
  destruct p1 as [|c1 p2]; [exact Herr|];
  let H1 := fresh "Hlo" in
  let H2 := fresh "Hhi" in
  match goal with
  | |- context [Z.ltb (byte_of c1) ?lo || Z.ltb ?hi (byte_of c1)] =>
      destruct (Z.ltb_spec (byte_of c1) lo) as [H1|H1]; [exact Herr|];
      destruct (Z.ltb_spec hi (byte_of c1)) as [H2|H2]; [exact Herr|];
      simpl orb; cbv iota
  end.

(** [DecodeRune] on data that is not empty: the width is at least one and
    within the data; a line separator is decoded as itself, with width 1;
    any other rune is no line separator, and none of its bytes is. *)
Lemma DecodeRune_cons (c : ascii) (p1 : string) :
  exists r w,
    DecodeRune (String c p1) = (r, w)
    /\ 1 <= w <= Z.of_nat (String.length (String c p1))
    /\ (if is_eol c then r = byte_of c /\ w = 1
        else r <> 10 /\ r <> 13
             /\ all_bytes not_eol (take_bytes (Z.to_nat w) (String c p1)) = true).
Proof.
  pose proof (byte_of_range c) as Hc.
  assert (Hone : forall r, (if is_eol c then r = byte_of c
                            else r <> 10 /\ r <> 13) ->
            exists r' w, (r, 1) = (r', w)
              /\ 1 <= w <= Z.of_nat (String.length (String c p1))
              /\ (if is_eol c then r' = byte_of c /\ w = 1
                  else r' <> 10 /\ r' <> 13
                       /\ all_bytes not_eol (take_bytes (Z.to_nat w) (String c p1)) = true)).
  { intros r Hr. exists r, 1. split; [done|]. split; [simpl String.length; lia|].
    destruct (is_eol c) eqn:E; [done|]. destruct Hr as [? ?]. repeat split; try done.
    simpl. unfold not_eol. by rewrite E. }
  destruct (Z.ltb_spec (byte_of c) 128) as [Hlt|Hge].
  { (* ASCII *)
    unfold DecodeRune.
    destruct (utf8_first_cases _ Hc) as [[_ ->]|H9]; [|exfalso; lia].
    simpl. rewrite Z.ldiff_0_r, Z.land_0_r, Z.lor_0_r. apply Hone.
    unfold is_eol. byte_cmp; lia. }
  assert (E : is_eol c = false) by (unfold is_eol; byte_cmp; lia).
  assert (Hc0 : not_eol c = true) by (by apply not_eol_high).
  assert (Herr : exists r' w, (RuneError, 1) = (r', w)
              /\ 1 <= w <= Z.of_nat (String.length (String c p1))
              /\ (if is_eol c then r' = byte_of c /\ w = 1
                  else r' <> 10 /\ r' <> 13
                       /\ all_bytes not_eol (take_bytes (Z.to_nat w) (String c p1)) = true)).
  { apply Hone. rewrite E. by split. }
  rewrite E in *.
  unfold DecodeRune.
  destruct (utf8_first_cases _ Hc)
    as [[? ->]|[[? ->]|[[? ->]|[[? ->]|[[? ->]|[[? ->]|[[? ->]|[[? ->]|[? ->]]]]]]]]];
    try lia;
    match goal with |- context [240 <=? ?x] => table_entry x end.
  - (* invalid first byte *)
    rewrite Z.ldiff_m1_r. exact Herr.
  - (* two bytes *)
    destruct (_ <? 2); [exact Herr|]. next_byte p1 c1 p2 Herr.
    pose proof (byte_of_range c1) as Hc1.
    eexists _, 2. split; [done|]. split; [simpl String.length; lia|].
    pose proof (rune2_lower (byte_of c) (byte_of c1) ltac:(lia) ltac:(lia)) as Hr.
    rewrite land_31 in *.
    split; [|split]; [Z.div_mod_to_equations; lia..|].
    change (Z.to_nat 2) with 2%nat. simpl. rewrite Hc0. by rewrite not_eol_high.
  - (* three bytes, first byte E0 *)
    destruct (_ <? 3); [exact Herr|].
    next_byte p1 c1 p2 Herr. next_byte p2 c2 p3 Herr.
    pose proof (byte_of_range c1). pose proof (byte_of_range c2).
    eexists _, 3. split; [done|]. split; [simpl String.length; lia|].
    pose proof (rune3_lower (byte_of c) (byte_of c1) (byte_of c2)
                  ltac:(lia) ltac:(lia) ltac:(lia)) as Hr.
    rewrite land_15, !land_63 in *.
    split; [|split]; [Z.div_mod_to_equations; lia..|].
    change (Z.to_nat 3) with 3%nat. simpl. by rewrite Hc0, !not_eol_high by lia.
  - (* three bytes *)
    destruct (_ <? 3); [exact Herr|].
    next_byte p1 c1 p2 Herr. next_byte p2 c2 p3 Herr.
    pose proof (byte_of_range c1). pose proof (byte_of_range c2).
    eexists _, 3. split; [done|]. split; [simpl String.length; lia|].
    pose proof (rune3_lower (byte_of c) (byte_of c1) (byte_of c2)
                  ltac:(lia) ltac:(lia) ltac:(lia)) as Hr.
    rewrite land_15, !land_63 in *.
    split; [|split]; [Z.div_mod_to_equations; lia..|].
    change (Z.to_nat 3) with 3%nat. simpl. by rewrite Hc0, !not_eol_high by lia.
  - (* three bytes, first byte ED *)
    destruct (_ <? 3); [exact Herr|].
    next_byte p1 c1 p2 Herr. next_byte p2 c2 p3 Herr.
    pose proof (byte_of_range c1). pose proof (byte_of_range c2).
    eexists _, 3. split; [done|]. split; [simpl String.length; lia|].
    pose proof (rune3_lower (byte_of c) (byte_of c1) (byte_of c2)
                  ltac:(lia) ltac:(lia) ltac:(lia)) as Hr.
    rewrite land_15, !land_63 in *.
    split; [|split]; [Z.div_mod_to_equations; lia..|].
    change (Z.to_nat 3) with 3%nat. simpl. by rewrite Hc0, !not_eol_high by lia.
  - (* four bytes, first byte F0 *)
    destruct (_ <? 4); [exact Herr|].
    next_byte p1 c1 p2 Herr. next_byte p2 c2 p3 Herr. next_byte p3 c3 p4 Herr.
    pose proof (byte_of_range c1). pose proof (byte_of_range c2).
    pose proof (byte_of_range c3).
    eexists _, 4. split; [done|]. split; [simpl String.length; lia|].
    pose proof (rune4_lower (byte_of c) (byte_of c1) (byte_of c2) (byte_of c3)
                  ltac:(lia) ltac:(lia) ltac:(lia) ltac:(lia)) as Hr.
    cbv zeta in Hr. rewrite land_7, !land_63 in *.
    split; [|split]; [Z.div_mod_to_equations; lia..|].
    change (Z.to_nat 4) with 4%nat. simpl. by rewrite Hc0, !not_eol_high by lia.
  - (* four bytes *)
    destruct (_ <? 4); [exact Herr|].
    next_byte p1 c1 p2 Herr. next_byte p2 c2 p3 Herr. next_byte p3 c3 p4 Herr.
    pose proof (byte_of_range c1). pose proof (byte_of_range c2).
    pose proof (byte_of_range c3).
    eexists _, 4. split; [done|]. split; [simpl String.length; lia|].
    pose proof (rune4_lower (byte_of c) (byte_of c1) (byte_of c2) (byte_of c3)
                  ltac:(lia) ltac:(lia) ltac:(lia) ltac:(lia)) as Hr.
    cbv zeta in Hr. rewrite land_7, !land_63 in *.
    split; [|split]; [Z.div_mod_to_equations; lia..|].
    change (Z.to_nat 4) with 4%nat. simpl. by rewrite Hc0, !not_eol_high by lia.
  - (* four bytes, first byte F4 *)
    destruct (_ <? 4); [exact Herr|].
    next_byte p1 c1 p2 Herr. next_byte p2 c2 p3 Herr. next_byte p3 c3 p4 Herr.
    pose proof (byte_of_range c1). pose proof (byte_of_range c2).
    pose proof (byte_of_range c3).
    eexists _, 4. split; [done|]. split; [simpl String.length; lia|].
    pose proof (rune4_lower (byte_of c) (byte_of c1) (byte_of c2) (byte_of c3)
                  ltac:(lia) ltac:(lia) ltac:(lia) ltac:(lia)) as Hr.
    cbv zeta in Hr. rewrite land_7, !land_63 in *.
    split; [|split]; [Z.div_mod_to_equations; lia..|].
    change (Z.to_nat 4) with 4%nat. simpl. by rewrite Hc0, !not_eol_high by lia.
Qed.

Lemma append_cons (c : ascii) (a b : string) :
  String c a +:+ b = String c (a +:+ b).
Proof. reflexivity. Qed.

Lemma append_nil (b : string) : EmptyString +:+ b = b.
Proof. reflexivity. Qed.

Lemma span_app (f : ascii -> bool) (s : string) :
  s = fst (span f s) +:+ snd (span f s).
Proof.
  induction s as [|c s IH]; simpl; [done|].
  destruct (f c); [|done]. destruct (span f s) as [a b]. simpl in *.
  rewrite append_cons. by f_equal.
Qed.

Lemma span_all (f : ascii -> bool) (s : string) :
  all_bytes f (fst (span f s)) = true.
Proof.
  induction s as [|c s IH]; simpl; [done|].
  destruct (f c) eqn:E; [|done]. destruct (span f s) as [a b]. simpl in *. by rewrite E.
Qed.

Lemma span_stops (f : ascii -> bool) (s : string) (c : ascii) (rest : string) :
  snd (span f s) = String c rest -> f c = false.
Proof.
  induction s as [|d s IH]; simpl; [done|].
  destruct (f d) eqn:E.
  - destruct (span f s) as [a b]. simpl in *. exact IH.
  - simpl. intros [= -> _]. exact E.
Qed.

Lemma length_append (a b : string) :
  String.length (a +:+ b) = (String.length a + String.length b)%nat.
Proof.
  induction a as [|c a IH]; [done|]. rewrite append_cons. simpl. by rewrite IH.
Qed.

Lemma drop_bytes_app (a b : string) : drop_bytes (String.length a) (a +:+ b) = b.
Proof.
  induction a as [|c a IH]; [rewrite append_nil; by destruct b|].
  rewrite append_cons. exact IH.
Qed.

Lemma take_bytes_app (a b : string) : take_bytes (String.length a) (a +:+ b) = a.
Proof.
  induction a as [|c a IH]; [rewrite append_nil; by destruct b|].
  rewrite append_cons. simpl. by rewrite IH.
Qed.

Lemma length_take_bytes (n : nat) (s : string) :
  (n <= String.length s)%nat -> String.length (take_bytes n s) = n.
Proof.
  revert s. induction n as [|n IH]; intros [|c s]; simpl; try done; try lia.
  intros Hn. rewrite IH; lia.
Qed.

Lemma length_drop_bytes (n : nat) (s : string) :
  String.length (drop_bytes n s) = (String.length s - n)%nat.
Proof.
  revert s. induction n as [|n IH]; intros [|c s]; simpl; try done.
Qed.

(** A run of bytes satisfying [f] at the head of [s] is a prefix of the
    span of [f]. *)
Lemma span_take (f : ascii -> bool) (n : nat) (s : string) :
  all_bytes f (take_bytes n s) = true ->
  span f s = (take_bytes n s +:+ fst (span f (drop_bytes n s)),
              snd (span f (drop_bytes n s))).
Proof.
  revert s. induction n as [|n IH]; intros [|c s]; simpl; try done.
  - by destruct (f c), (span f s).
  - intros [Hc Hs]%andb_true_iff. rewrite Hc, (IH s Hs). done.
Qed.

Lemma is_eol_byte (c : ascii) :
  is_eol c = true <-> byte_of c = 10 \/ byte_of c = 13.
Proof. unfold is_eol. byte_cmp; split; try done; try lia; tauto. Qed.

(** The first loop skips exactly the leading line separators. *)
Lemma scanLine_skip_spec (fuel : nat) (rest : string) (start : Z) :
  (String.length rest <= fuel)%nat ->
  process.scanLine_skip fuel rest start
  = (start + Z.of_nat (String.length (fst (span is_eol rest))), snd (span is_eol rest)).
Proof.
  revert rest start. induction fuel as [|fuel IH]; intros rest start Hfuel.
  - destruct rest; [|simpl in Hfuel; lia]. simpl. f_equal. lia.
  - destruct rest as [|c p1]; [simpl; f_equal; lia|].
    cbn [process.scanLine_skip].
    destruct (DecodeRune_cons c p1) as (r & w & -> & Hw & Hr).
    cbn [span]. destruct (is_eol c) eqn:E.
    + destruct Hr as [-> ->]. apply is_eol_byte in E.
      replace (negb (byte_of c =? 10) && negb (byte_of c =? 13)) with false
        by (byte_cmp; done || lia).
      change (drop_bytes (Z.to_nat 1) (String c p1)) with p1.
      rewrite IH by (simpl in Hfuel; lia).
      destruct (span is_eol p1) as [a b]. simpl. f_equal. lia.
    + destruct Hr as (H10 & H13 & _).
      replace (negb (r =? 10) && negb (r =? 13)) with true by (byte_cmp; done || lia).
      simpl. f_equal. lia.
Qed.

(** The second loop stops at the first line separator, having stepped over
    whole runes. *)
Lemma scanLine_find_spec (fuel : nat) (data : string) (start i : Z) (rest : string) :
  (String.length rest <= fuel)%nat ->
  process.scanLine_find fuel data start i rest
  = match snd (span not_eol rest) with
    | EmptyString => None
    | String _ _ =>
        Some (i + Z.of_nat (String.length (fst (span not_eol rest))) + 1,
              slice data start (i + Z.of_nat (String.length (fst (span not_eol rest)))))
    end.
Proof.
  revert rest i. induction fuel as [|fuel IH]; intros rest i Hfuel.
  - destruct rest; [done|simpl in Hfuel; lia].
  - destruct rest as [|c p1]; [done|].
    cbn [process.scanLine_find].
    destruct (DecodeRune_cons c p1) as (r & w & -> & Hw & Hr).
    destruct (is_eol c) eqn:E.
    + destruct Hr as [-> ->]. pose proof E as E'. apply is_eol_byte in E'.
      replace ((byte_of c =? 10) || (byte_of c =? 13)) with true by (byte_cmp; done || lia).
      cbn [span]. replace (not_eol c) with false by (unfold not_eol; by rewrite E).
      simpl. do 2 f_equal; [lia|f_equal; lia].
    + destruct Hr as (H10 & H13 & Hall).
      replace ((r =? 10) || (r =? 13)) with false by (byte_cmp; done || lia).
      rewrite IH.
      2: { rewrite length_drop_bytes. simpl String.length in *. lia. }
      rewrite (span_take not_eol (Z.to_nat w) (String c p1) Hall). cbn [fst snd].
      destruct (snd (span not_eol (drop_bytes (Z.to_nat w) (String c p1)))); [done|].
      rewrite length_append, length_take_bytes by lia.
      do 2 f_equal; [lia|f_equal; lia].
Qed.

Lemma slice_middle (a b c : string) :
  slice (a +:+ b +:+ c) (Z.of_nat (String.length a))
    (Z.of_nat (String.length a) + Z.of_nat (String.length b)) = b.
Proof.
  unfold slice. rewrite Nat2Z.id, drop_bytes_app.
  replace (Z.to_nat _) with (String.length b) by lia. apply take_bytes_app.
Qed.

Lemma append_empty_r (a : string) : a +:+ EmptyString = a.
Proof. induction a as [|c a IH]; [done|]. rewrite append_cons. by rewrite IH. Qed.

(** [process.scanLine] through the bytes of [data]: the leading separators, the
    run of other bytes after them, and what follows that run. *)
Lemma scanLine_spec (data : string) (atEOF : bool) :
  let seps := fst (span is_eol data) in
  let tok := fst (span not_eol (snd (span is_eol data))) in
  let rest := snd (span not_eol (snd (span is_eol data))) in
  data = seps +:+ tok +:+ rest
  /\ process.scanLine data atEOF
     = match rest with
       | String _ _ =>
           (Z.of_nat (String.length seps) + Z.of_nat (String.length tok) + 1, Some tok)
       | EmptyString =>
           if atEOF && negb (String.eqb tok EmptyString)
           then (Z.of_nat (String.length data), Some tok)
           else (Z.of_nat (String.length seps), None)
       end.
Proof.
  intros seps tok rest.
  assert (Hdata : data = seps +:+ tok +:+ rest).
  { subst seps tok rest. rewrite <- span_app. apply span_app. }
  split; [exact Hdata|].
  unfold process.scanLine. rewrite scanLine_skip_spec by lia. fold seps.
  rewrite scanLine_find_spec.
  2: { rewrite (span_app is_eol data) at 2. rewrite length_append. lia. }
  fold tok rest. rewrite Z.add_0_l.
  destruct rest as [|c rest'] eqn:Erest.
  - rewrite append_empty_r in Hdata.
    assert (Hlen : String.length data = (String.length seps + String.length tok)%nat)
      by (by rewrite Hdata at 1; rewrite length_append).
    destruct atEOF; simpl; [|done].
    destruct tok as [|t tok'] eqn:Etok.
    + simpl String.length in *.
      replace (_ <? _) with false by (byte_cmp; done || lia). done.
    + replace (_ <? _) with true by (simpl String.length in *; byte_cmp; done || lia).
      simpl. f_equal. f_equal.
      pose proof (slice_middle seps (String t tok') EmptyString) as Hs.
      rewrite append_empty_r, <- Hdata in Hs.
      rewrite Hlen, Nat2Z.inj_add. exact Hs.
  - f_equal. f_equal.
    pose proof (slice_middle seps tok (String c rest')) as Hs. by rewrite <- Hdata in Hs.
Qed.

(** X1. When [scanLine] returns a token, the data is a run of line
    separators ([\n] or [\r]), then the token, then the rest; the token is
    not empty and holds no separator; either a separator follows it, and the
    advance covers the separators, the token and that one separator, or the
    data ends with the token, [atEOF] is set and the advance is the whole
    data. *)
Theorem scanLine_token (data : string) (atEOF : bool) (advance : Z) (token : string) :
  process.scanLine data atEOF = (advance, Some token) ->
  exists seps rest,
    data = seps +:+ token +:+ rest
    /\ all_bytes is_eol seps = true
    /\ all_bytes not_eol token = true
    /\ token <> EmptyString
    /\ match rest with
       | String c _ =>
           is_eol c = true
           /\ advance = Z.of_nat (String.length seps) + Z.of_nat (String.length token) + 1
       | EmptyString => atEOF = true /\ advance = Z.of_nat (String.length data)
       end.
Proof.
  intros Hscan. destruct (scanLine_spec data atEOF) as [Hdata Hspec].
  cbv zeta in Hdata, Hspec. rewrite Hscan in Hspec.
  pose proof (span_all is_eol data) as Hseps.
  pose proof (span_all not_eol (snd (span is_eol data))) as Htok.
  pose proof (span_app not_eol (snd (span is_eol data))) as Hmid.
  pose proof (span_stops not_eol (snd (span is_eol data))) as Hstop.
  pose proof (span_stops is_eol data) as Hstop0.
  destruct (span is_eol data) as [seps mid]. cbn [fst snd] in *.
  destruct (span not_eol mid) as [tok rest]. cbn [fst snd] in *.
  exists seps, rest. destruct rest as [|c r].
  - destruct atEOF; [|done]. simpl in Hspec.
    destruct tok as [|t tok']; [done|].
    simpl in Hspec. injection Hspec as -> ->. done.
  - injection Hspec as -> ->.
    assert (Hc : is_eol c = true).
    { specialize (Hstop c r eq_refl). unfold not_eol in Hstop. by destruct (is_eol c). }
    assert (tok <> EmptyString).
    { intros ->. rewrite append_nil in Hmid. specialize (Hstop0 c r Hmid). congruence. }
    done.
Qed.

(** Two lines after a leading newline: the first is the token. *)
Lemma scanLine_token_witness :
  exists seps rest,
    String "010" "ab" +:+ String "013" "c"
    = seps +:+ "ab" +:+ rest
    /\ all_bytes is_eol seps = true
    /\ all_bytes not_eol "ab" = true
    /\ "ab" <> EmptyString
    /\ match rest with
       | String c _ =>
           is_eol c = true
           /\ 4 = Z.of_nat (String.length seps) + Z.of_nat (String.length "ab") + 1
       | EmptyString => false = true /\ 4 = Z.of_nat (String.length (String "010" "ab" +:+ String "013" "c"))
       end.
Proof.
  apply (scanLine_token (String "010" "ab" +:+ String "013" "c") false 4 "ab").
  vm_compute. reflexivity.
Defined.

(** X2. When [scanLine] returns no token, it advances over the leading line
    separators only; what follows them holds no separator, and is empty
    unless more data may come ([atEOF] is false). *)
Theorem scanLine_no_token (data : string) (atEOF : bool) (advance : Z) :
  process.scanLine data atEOF = (advance, None) ->
  exists seps tail,
    data = seps +:+ tail
    /\ all_bytes is_eol seps = true
    /\ all_bytes not_eol tail = true
    /\ advance = Z.of_nat (String.length seps)
    /\ (tail = EmptyString \/ atEOF = false).
Proof.
  intros Hscan. destruct (scanLine_spec data atEOF) as [Hdata Hspec].
  cbv zeta in Hdata, Hspec. rewrite Hscan in Hspec.
  pose proof (span_all is_eol data) as Hseps.
  pose proof (span_all not_eol (snd (span is_eol data))) as Htok.
  destruct (span is_eol data) as [seps mid]. cbn [fst snd] in *.
  destruct (span not_eol mid) as [tok rest]. cbn [fst snd] in *.
  destruct rest as [|c r]; [|done].
  rewrite append_empty_r in Hdata.
  exists seps, tok. split; [exact Hdata|].
  split; [exact Hseps|]. split; [exact Htok|].
  destruct atEOF; simpl in Hspec.
  - destruct tok as [|t tok']; [|done]. simpl in Hspec.
    injection Hspec as ->. auto.
  - injection Hspec as ->. auto.
Qed.

(** An unfinished line: only the leading newline is consumed. *)
Lemma scanLine_no_token_witness :
  exists seps tail,
    String "010" "ab" = seps +:+ tail
    /\ all_bytes is_eol seps = true
    /\ all_bytes not_eol tail = true
    /\ 1 = Z.of_nat (String.length seps)
    /\ (tail = EmptyString \/ false = false).
Proof.
  apply (scanLine_no_token (String "010" "ab") false 1). vm_compute. reflexivity.
Defined.

(** ** The supervisor: what every run keeps *)

Section SupervisorRuns.
Context {P : Type} `{process.Parser P}.
Import process.

Variable Q : process P -> Prop.
Hypothesis HQ : closed Q.

Lemma closed_unreconnect (p : process P) : Q p -> Q (unreconnect p).
Proof.
  intros Hp. unfold unreconnect.
  destruct (reconn_timer p); [done|by apply (closed_timer_nil Q HQ)..].
Qed.

Lemma unreconnect_enable (p : process P) :
  reconn_enable (unreconnect p) = reconn_enable p.
Proof. unfold unreconnect. by destruct (reconn_timer p). Qed.

Lemma closed_reconnect (p : process P) : Q p -> Q (reconnect p).
Proof.
  intros Hp. unfold reconnect. destruct (reconn_enable p) eqn:E; simpl; [|done].
  apply (closed_timer_armed Q HQ); [by rewrite unreconnect_enable|by apply closed_unreconnect].
Qed.

Lemma closed_parser_Parse (t : Z) (line : string) (p : process P) :
  Q p -> Q (fst (parser_Parse t line p)).
Proof.
  intros Hp. unfold parser_Parse. destruct (Parse t line (parser p)).
  by apply (closed_parser Q HQ).
Qed.

Lemma closed_start_failed (w : World) (err : string) (p : process P) :
  Q p -> Q (fst (start_failed w err p)).
Proof.
  intros Hp. unfold start_failed. cbn [fst snd].
  by apply closed_reconnect, closed_parser_Parse, (closed_setState Q HQ).
Qed.

Lemma closed_start (w : World) (p : process P) : Q p -> Q (fst (start w p)).
Proof.
  intros Hp. unfold start. destruct (isRunning p); [done|].
  set (p1 := fst (setState (now w) stateStarting (unreconnect p))).
  assert (H1 : Q p1) by (by apply (closed_setState Q HQ), closed_unreconnect).
  set (p2 := set_cmd _ p1).
  assert (H2 : Q p2) by (by apply (closed_cmd Q HQ)).
  destruct (pipe_err w); [by apply closed_start_failed|].
  destruct (start_err w); [by apply closed_start_failed|]. cbn [fst snd].
  set (p3 := set_pid _ (set_cmd _ p2)).
  assert (H3 : Q p3).
  { apply (closed_pid Q HQ). by apply (closed_cmd Q HQ). }
  set (p4 := if limiter_ok w then _ else p3).
  assert (H4 : Q p4) by (subst p4; destruct (limiter_ok w); [by apply (closed_limits Q HQ)|done]).
  set (p5 := fst (setState (now w) stateRunning p4)).
  assert (H5 : Q p5) by (by apply (closed_setState Q HQ)).
  set (p6 := if callbacks_onStart p5 then _ else p5).
  assert (H6 : Q p6)
    by (subst p6; destruct (callbacks_onStart p5); [by apply (closed_onStart_call Q HQ)|done]).
  destruct (negb _); [by apply (closed_stale_cancel Q HQ)|done].
Qed.

Lemma closed_Start (w : World) (p : process P) : Q p -> Q (fst (Start w p)).
Proof.
  intros Hp. unfold Start. destruct (String.eqb _ _); [done|].
  by apply closed_start, (closed_order Q HQ).
Qed.

Lemma closed_reader_line (t : Z) (line : string) (p : process P) :
  Q p -> Q (reader_line t line p).
Proof.
  intros Hp. unfold reader_line.
  pose proof (closed_parser_Parse t line (set_lastLine line p)
                (closed_lastLine Q HQ line p Hp)) as H1.
  destruct (parser_Parse t line (set_lastLine line p)) as [q n].
  destruct (negb _); [by apply (closed_stale_last Q HQ)|done].
Qed.

Lemma closed_reader_lines (t : Z) (ls : list string) (p : process P) :
  Q p -> Q (fold_left (fun q l => reader_line t l q) ls p).
Proof.
  revert p. induction ls as [|l ls IH]; intros p Hp; simpl; [done|].
  by apply IH, closed_reader_line.
Qed.

Lemma closed_go_onExit (p : process P) : Q p -> Q (go_onExit p).
Proof.
  intros Hp. unfold go_onExit.
  pose proof (closed_onExit_call Q HQ p Hp) as H1.
  destruct (callbacks_onExit p) as [| |cb wg]; [done| |]; cbv zeta;
    (destruct (onExit_call _);
     [by apply (closed_onExit Q HQ)|by apply (closed_panicked Q HQ)]).
Qed.

Lemma closed_waiter_body (w : World) (p : process P) : Q p -> Q (waiter_body w p).
Proof.
  intros Hp. unfold waiter_body. cbv zeta.
  set (p1 := set_limits None (fst (setState _ _ p))).
  assert (H1 : Q p1) by (by apply (closed_limits Q HQ), (closed_setState Q HQ)).
  set (p2 := match killTimer p1 with Timer_nil => p1 | _ => _ end).
  assert (H2 : Q p2) by (subst p2; destruct (killTimer p1); [done|by apply (closed_killTimer Q HQ)..]).
  set (p3 := if stale_cancel p2 then _ else p2).
  assert (H3 : Q p3)
    by (subst p3; destruct (stale_cancel p2); [by apply (closed_stale_cancel Q HQ)|done]).
  set (p4 := set_parser _ p3).
  assert (H4 : Q p4) by (by apply (closed_parser Q HQ)).
  by apply closed_go_onExit.
Qed.

Lemma closed_waiter_tail (p : process P) : Q p -> Q (waiter_tail p).
Proof.
  intros Hp. unfold waiter_tail. destruct (String.eqb _ _); [|done].
  by apply closed_reconnect.
Qed.

Lemma closed_stop (w : World) (b : bool) (p : process P) :
  Q p -> Q (fst (fst (stop w b p))).
Proof.
  intros Hp. unfold stop.
  destruct (negb (isRunning p)); [by apply closed_unreconnect|].
  destruct (String.eqb _ _); [done|].
  set (p1 := fst (setState _ _ p)).
  assert (H1 : Q p1) by (by apply (closed_setState Q HQ)).
  set (p2 := if b then set_onExit _ p1 else p1).
  assert (H2 : Q p2) by (subst p2; destruct b; [by apply (closed_onExit Q HQ)|done]).
  assert (Hfail : forall e q, Q q ->
            Q (fst (setState (now w) stateFailed (fst (parser_Parse (now w) e q))))).
  { intros e q Hq. by apply (closed_setState Q HQ), closed_parser_Parse. }
  assert (Hwait : forall q, Q q ->
            Q (waiter_body w (fold_left (fun p l => reader_line (now w) l p) (lines w) q))).
  { intros q Hq. by apply closed_waiter_body, closed_reader_lines. }
  assert (H3 : Q (set_killTimer Timer_armed p2)) by (by apply (closed_killTimer Q HQ)).
  destruct (windows w); [|destruct (signal_err w)];
    try destruct (kill_err w); cbn [fst snd]; try destruct b; cbn [fst snd]; auto.
Qed.

Lemma closed_Stop (w : World) (b : bool) (p : process P) :
  Q p -> Q (fst (Stop w b p)).
Proof.
  intros Hp. unfold Stop. destruct (String.eqb _ _); [done|].
  pose proof (closed_stop w b (set_order "stop" p) (closed_order Q HQ _ p Hp)) as H1.
  by destruct (stop w b (set_order "stop" p)) as [[q e] blocked].
Qed.

Lemma closed_Kill (w : World) (b : bool) (p : process P) :
  Q p -> Q (fst (Kill w b p)).
Proof.
  intros Hp. unfold Kill. destruct (negb _); [done|].
  pose proof (closed_stop w b p Hp) as H1.
  by destruct (stop w b p) as [[q e] blocked].
Qed.

Lemma closed_step (p : process P) (wo : World * op) : Q p -> Q (step p wo).
Proof.
  intros Hp. destruct wo as [w o]. unfold step.
  destruct (panicked p); [done|]. destruct o.
  - by apply closed_Start.
  - by apply closed_Stop.
  - by apply closed_Kill.
  - unfold reconnect_fire. destruct (reconn_timer p) eqn:E; [done| |done].
    by apply closed_start, (closed_timer_fired Q HQ).
  - unfold killTimer_fire. destruct (killTimer p); [done|by apply (closed_killTimer Q HQ)|done].
  - by apply (closed_stale_last Q HQ).
  - unfold staler_tick. destruct (PrimFloat.ltb _ _); [|done]. by apply closed_stop.
  - by apply (closed_parser Q HQ).
  - by apply closed_reader_line.
  - by apply closed_waiter_tail, closed_waiter_body.
  - by apply closed_waiter_tail.
Qed.

Lemma closed_run (ops : list (World * op)) (p : process P) : Q p -> Q (run ops p).
Proof.
  revert p. induction ops as [|o ops IH]; intros p Hp; simpl; [done|].
  by apply IH, closed_step.
Qed.

End SupervisorRuns.

Section SupervisorOperations.
Context {P : Type} `{process.Parser P}.
Import process.

(** [setState] either refuses and leaves the supervisor as it is, or
    commits. *)
Lemma setState_fst (t : Z) (s : stateType) (p : process P) :
  fst (setState t s p) = p \/ fst (setState t s p) = committed t s p.
Proof.
  destruct (setState_cases_any t s p) as [[_ ->]|[_ [msg ->]]]; auto.
Qed.

Lemma setState_order (t : Z) (s : stateType) (p : process P) :
  order_order (fst (setState t s p)) = order_order p.
Proof.
  destruct (setState_fst t s p) as [->| ->]; [done|].
  unfold committed. by destruct (callbacks_onStateChange p).
Qed.

Lemma reconnect_order (p : process P) : order_order (reconnect p) = order_order p.
Proof. by destruct (reconnect_fields p) as (_ & _ & _ & -> & _). Qed.

Lemma unreconnect_order (p : process P) : order_order (unreconnect p) = order_order p.
Proof. by destruct (unreconnect_fields p) as (_ & _ & _ & -> & _). Qed.

Lemma parser_Parse_order (t : Z) (line : string) (p : process P) :
  order_order (fst (parser_Parse t line p)) = order_order p.
Proof. unfold parser_Parse. by destruct (Parse t line (parser p)). Qed.

Lemma start_order (w : World) (p : process P) :
  order_order (fst (start w p)) = order_order p.
Proof.
  unfold start. destruct (isRunning p); [done|].
  assert (Hfail : forall err q, order_order (fst (start_failed w err q)) = order_order q).
  { intros err q. unfold start_failed. cbn [fst snd].
    by rewrite reconnect_order, parser_Parse_order, setState_order. }
  destruct (pipe_err w); [|destruct (start_err w)]; rewrite ?Hfail; cbn [fst snd].
  1,2: simpl; by rewrite setState_order, unreconnect_order.
  set (p4 := if limiter_ok w then _ else _).
  assert (H4 : order_order p4 = order_order p).
  { subst p4. destruct (limiter_ok w); simpl; by rewrite setState_order, unreconnect_order. }
  set (p5 := fst (setState (now w) stateRunning p4)).
  assert (H5 : order_order p5 = order_order p) by (subst p5; by rewrite setState_order).
  destruct (callbacks_onStart p5); by destruct (negb _).
Qed.

Lemma reader_line_order (t : Z) (line : string) (p : process P) :
  order_order (reader_line t line p) = order_order p.
Proof.
  unfold reader_line.
  pose proof (parser_Parse_order t line (set_lastLine line p)) as Ho.
  destruct (parser_Parse t line (set_lastLine line p)) as [q n]. cbn [fst] in Ho.
  by destruct (negb _).
Qed.

Lemma reader_lines_order (t : Z) (ls : list string) (p : process P) :
  order_order (fold_left (fun q l => reader_line t l q) ls p) = order_order p.
Proof.
  revert p. induction ls as [|l ls IH]; intros p; simpl; [done|].
  by rewrite IH, reader_line_order.
Qed.

Lemma go_onExit_order (p : process P) : order_order (go_onExit p) = order_order p.
Proof.
  unfold go_onExit. destruct (callbacks_onExit p) as [| |cb wg]; [done| |];
    cbv zeta; by destruct (onExit_call _).
Qed.

Lemma waiter_body_order (w : World) (p : process P) :
  order_order (waiter_body w p) = order_order p.
Proof.
  unfold waiter_body. cbv zeta. rewrite go_onExit_order.
  set (p1 := fst (setState _ _ p)).
  assert (H1 : order_order p1 = order_order p) by apply setState_order.
  simpl. destruct (killTimer p1); simpl; by destruct (stale_cancel p1).
Qed.

Lemma waiter_tail_order (p : process P) :
  order_order (waiter_tail p) = order_order p.
Proof. unfold waiter_tail. destruct (String.eqb _ _); [apply reconnect_order|done]. Qed.

Lemma stop_order (w : World) (b : bool) (p : process P) :
  order_order (fst (fst (stop w b p))) = order_order p.
Proof.
  unfold stop.
  destruct (negb (isRunning p)); [apply unreconnect_order|].
  destruct (String.eqb _ _); [done|].
  set (p1 := fst (setState _ _ p)).
  assert (H1 : order_order p1 = order_order p) by apply setState_order.
  set (p2 := if b then set_onExit _ p1 else p1).
  assert (H2 : order_order p2 = order_order p) by (subst p2; by destruct b).
  destruct (windows w); [|destruct (signal_err w)];
    try destruct (kill_err w); cbn [fst snd]; try destruct b; cbn [fst snd];
    rewrite ?setState_order, ?parser_Parse_order, ?waiter_body_order,
      ?reader_lines_order; done.
Qed.

Lemma Start_order (w : World) (p : process P) :
  order_order (fst (Start w p)) = "start".
Proof.
  unfold Start. destruct (String.eqb_spec (order_order p) "start"); [done|].
  by rewrite start_order.
Qed.

Lemma Stop_order (w : World) (b : bool) (p : process P) :
  order_order (fst (Stop w b p)) = "stop".
Proof.
  unfold Stop. destruct (String.eqb_spec (order_order p) "stop"); [done|].
  pose proof (stop_order w b (set_order "stop" p)) as Ho.
  by destruct (stop w b (set_order "stop" p)) as [[q e] blocked].
Qed.

End SupervisorOperations.

(** X3. [Start] and [Stop] are idempotent: once one of them has run,
    calling it again changes nothing and returns [nil], whatever the first
    call did (also when the first [Start] failed to spawn). *)
Theorem Start_Stop_idempotent {P : Type} `{process.Parser P}
    (w1 w2 : process.World) (b1 b2 : bool) (p : process.process P) :
  process.Start w2 (fst (process.Start w1 p)) = (fst (process.Start w1 p), None)
  /\ process.Stop w2 b2 (fst (process.Stop w1 b1 p))
     = (fst (process.Stop w1 b1 p), None).
Proof.
  split.
  - unfold process.Start at 1. by rewrite Start_order.
  - unfold process.Stop at 1. by rewrite Stop_order.
Qed.

Section RunInvariants.
Context {P : Type} `{process.Parser P}.
Import process.

Lemma setState_fst' (t : Z) (s : stateType) (p : process P) :
  fst (setState t s p) = p
  \/ (fst (setState t s p) = committed t s p /\ In s all_states).
Proof.
  destruct (setState_cases_any t s p) as [[Hl ->]|[_ [msg ->]]]; [|by left].
  right. split; [done|]. by eapply legal_target.
Qed.

Lemma closed_configured (config : Config P) : closed (configured config).
Proof.
  split; intros; try (unfold configured in *; simpl; tauto).
  - destruct (setState_fst' t s p) as [->|[-> _]]; [done|].
    destruct p. unfold configured, committed in *. simpl in *.
    by destruct callbacks_onStateChange0.
  - match goal with Hp : configured _ _ |- _ => destruct Hp as (Hb & Ha & Hrest) end.
    unfold configured. simpl. rewrite Hb, Ha. tauto.
Qed.

Lemma closed_never_armed : closed (@never_armed P).
Proof.
  split; intros; try (unfold never_armed in *; simpl; tauto).
  - destruct (setState_fst' t s p) as [->|[-> _]]; [done|].
    unfold never_armed, committed in *. by destruct (callbacks_onStateChange p).
  - match goal with Hp : never_armed _ |- _ => destruct Hp as [He _] end. congruence.
  - match goal with Hp : never_armed _ |- _ => destruct Hp as [_ Ht] end. congruence.
Qed.

Lemma reports_to_app (s : stateType) (l1 l2 : list call) :
  reports_to s (l1 ++ l2) = reports_to s l1 + reports_to s l2.
Proof.
  induction l1 as [|[| |a b] l1 IH]; simpl; [done|done|done|]. rewrite IH. lia.
Qed.

Lemma incr_wrap (x : Z) : incr (wrap_uint64 x) = wrap_uint64 (x + 1).
Proof. unfold incr, wrap_uint64. by rewrite Zplus_mod_idemp_l. Qed.

Lemma counter_count (s s' : stateType) (c : States) :
  In s all_states -> In s' all_states ->
  counter s' (count s c) = if String.eqb s s' then incr (counter s' c) else counter s' c.
Proof.
  simpl. intros Hs Hs'.
  destruct Hs as [<-|[<-|[<-|[<-|[<-|[<-|[]]]]]]];
    destruct Hs' as [<-|[<-|[<-|[<-|[<-|[<-|[]]]]]]]; reflexivity.
Qed.

Lemma closed_counted : closed (@counted P).
Proof.
  split; intros; try (unfold counted in *; simpl; tauto).
  - destruct (setState_fst' t s p) as [->|[-> Hs]]; [done|].
    match goal with Hp : counted _ |- _ => destruct Hp as [Hcb Hc] end.
    unfold counted, committed. rewrite Hcb. simpl.
    split; [done|]. intros s' Hs'.
    rewrite reports_to_app, counter_count by done. simpl.
    rewrite (Hc s' Hs'). destruct (String.eqb s s').
    + rewrite incr_wrap. f_equal.
    + f_equal. lia.
  - match goal with Hp : counted _ |- _ => destruct Hp as [Hcb Hc] end.
    split; [done|]. intros s Hs. simpl.
    rewrite reports_to_app. simpl. rewrite Z.add_0_r. by apply Hc.
  - match goal with Hp : counted _ |- _ => destruct Hp as [Hcb Hc] end.
    split; [done|]. intros s Hs. simpl.
    rewrite reports_to_app. simpl. rewrite Z.add_0_r. by apply Hc.
Qed.

End RunInvariants.

(** X10. Along every run of a supervisor made by [New], the binary, the
    arguments, the reconnect and stale settings and the callbacks [onStart]
    and [onStateChange] stay those of the configuration, and the command,
    once built, is the configured binary followed by the configured
    arguments, with an empty environment. *)
Theorem run_keeps_configuration {P : Type} `{process.Parser P}
    (t : Z) (config : process.Config P) (p : process.process P)
    (ops : list (process.World * process.op)) :
  process.New t config = (Some p, None) ->
  process.configured config (process.run ops p).
Proof.
  intros Hnew. apply closed_run; [apply closed_configured|].
  unfold process.New in Hnew. destruct (_ =? _)%nat; [done|].
  injection Hnew as <-. unfold process.configured. simpl. tauto.
Qed.

(** A run with a failed spawn, a reconnect, lines and a stop. *)
Lemma run_keeps_configuration_witness :
  exists p0,
    process.New 0 example_Config = (Some p0, None)
    /\ process.configured example_Config
         (process.run [(example_World 1 (Some "exec: not found") 0, process.Op_Start);
                       (example_World 2 None 0, process.Op_reconnect_fire);
                       (example_World 3 None 0, process.Op_reader_line "frame=1");
                       (example_World 4 None 65280, process.Op_Stop true)] p0).
Proof.
  eexists. split; [reflexivity|].
  apply (run_keeps_configuration 0 example_Config). reflexivity.
Defined.

(** X11. With reconnect disabled in the configuration, no run ever sets the
    reconnect timer, so the expiry of that timer never restarts the
    child. *)
Theorem run_without_reconnect {P : Type} `{process.Parser P}
    (t : Z) (config : process.Config P) (p : process.process P)
    (ops : list (process.World * process.op)) (w : process.World) :
  process.New t config = (Some p, None) ->
  process.Reconnect config = false ->
  process.reconn_timer (process.run ops p) = process.Timer_nil
  /\ process.reconnect_fire w (process.run ops p) = process.run ops p.
Proof.
  intros Hnew Hre.
  assert (Hna : process.never_armed (process.run ops p)).
  { apply closed_run; [apply closed_never_armed|].
    unfold process.New in Hnew. destruct (_ =? _)%nat; [done|].
    injection Hnew as <-. by split. }
  destruct Hna as [_ Ht]. split; [done|].
  unfold process.reconnect_fire. by rewrite Ht.
Qed.

(** A spawn that fails without reconnect: no timer. *)
Lemma run_without_reconnect_witness :
  let config :=
    {| process.Binary := "/usr/bin/ffmpeg"; process.Args := ["-version"];
       process.Reconnect := false; process.ReconnectDelay := 0;
       process.StaleTimeout := 0; process.Parser_ := @None process.nullParser;
       process.OnStart := false; process.OnExit := false;
       process.OnStateChange := false |} in
  exists p0,
    process.New 0 config = (Some p0, None)
    /\ process.reconn_timer
         (process.run [(example_World 1 (Some "exec: not found") 0, process.Op_Start)] p0)
       = process.Timer_nil.
Proof.
  intros config. eexists. split; [reflexivity|].
  apply (run_without_reconnect 0 config _ _ (example_World 1 None 0));
    reflexivity.
Defined.

(** X12. When a state-change callback is configured, along every run each
    of the six counters equals the number of reported transitions into its
    state, as a [uint64]. *)
Theorem counters_match_reports {P : Type} `{process.Parser P}
    (t : Z) (config : process.Config P) (p : process.process P)
    (ops : list (process.World * process.op)) (s : process.stateType) :
  process.New t config = (Some p, None) ->
  process.OnStateChange config = true ->
  In s process.all_states ->
  process.counter s (process.state_states (process.run ops p))
  = wrap_uint64 (process.reports_to s (process.dispatched (process.run ops p))).
Proof.
  intros Hnew Hcb Hs.
  assert (Hc : process.counted (process.run ops p)).
  { apply closed_run; [apply closed_counted|].
    unfold process.New in Hnew. destruct (_ =? _)%nat; [done|].
    injection Hnew as <-. split; [done|]. intros s' Hs'. simpl in *.
    by destruct Hs' as [<-|[<-|[<-|[<-|[<-|[<-|[]]]]]]]. }
  by apply Hc.
Qed.

(** Two spawns, the first failed: [starting] was entered twice. *)
Lemma counters_match_reports_witness :
  exists p0,
    process.New 0 example_Config = (Some p0, None)
    /\ let p := process.run [(example_World 1 (Some "exec: not found") 0, process.Op_Start);
                            (example_World 2 None 0, process.Op_reconnect_fire)] p0 in
       process.counter process.stateStarting (process.state_states p)
       = wrap_uint64 (process.reports_to process.stateStarting (process.dispatched p)).
Proof.
  eexists. split; [reflexivity|]. intros p.
  apply (counters_match_reports 0 example_Config); [reflexivity|reflexivity|].
  simpl. tauto.
Defined.

(** ** The supervisor: the operations *)

(** Evaluate an operation on a supervisor given field by field. *)
Ltac evaluate :=
  lazy -[app Z.add Z.modulo Z.pow process.onExit_call]; simpl app;
  rewrite ?app_nil_r, <- ?app_assoc.

Section SupervisorStop.
Context {P : Type} `{process.Parser P}.
Import process.

(** What the reader leaves of the supervisor after any number of lines:
    all but the last line, the parser and the stale mark is untouched. *)
Lemma reader_lines_shape (t : Z) (ls : list string) (p : process P) :
  exists l q sl,
    fold_left (fun q l => reader_line t l q) ls p
    = set_stale_last sl (set_parser q (set_lastLine l p)).
Proof.
  revert p. induction ls as [|l ls IH]; intros p; simpl.
  - exists (lastLine p), (parser p), (stale_last p). by destruct p.
  - destruct (IH (reader_line t l p)) as (l' & q' & sl' & ->).
    unfold reader_line, parser_Parse. cbn [parser set_lastLine].
    destruct (Parse t l (parser p)) as [q n].
    exists l', q', sl'. destruct (negb (n =? 0)); by destruct p.
Qed.

(** The closure of [stop]: [cb], then [wg.Done()]. *)
Lemma onExit_call_closure (cb : onExit_func) (wg : Z) :
  onExit_call (onExit_closure cb wg)
  = match onExit_call cb with
    | None => None
    | Some cb' => if wg - 1 <? 0 then None else Some (onExit_closure cb' (wg - 1))
    end.
Proof. reflexivity. Qed.

(** A function whose call has returned holds no wait group that is still
    counted: every closure in it has called [wg.Done()]. *)
Lemma go_onExit_cases (q : process P) :
  go_onExit q = q
  \/ (exists f, go_onExit q = set_onExit f (dispatch Call_onExit q))
  \/ go_onExit q = set_panicked true (dispatch Call_onExit q).
Proof.
  unfold go_onExit. destruct (callbacks_onExit q) as [| |cb wg]; [by left| |];
    cbv zeta; (destruct (onExit_call _) as [f|]; [right; left; by exists f|by right; right]).
Qed.

Lemma waiter_state_cases (e : option WaitError) :
  waiter_state e = stateFinished \/ waiter_state e = stateFailed
  \/ waiter_state e = stateKilled.
Proof.
  destruct e as [[st|msg]|]; simpl; auto.
  destruct (WaitStatus_Exited st); auto. destruct (_ =? 255); auto.
Qed.

(** [stop] on a live child that takes the signal: the caller blocks until
    [waiter] has run. *)
Lemma stop_blocks (w : World) (p : process P) :
  In (state_state p) [stateStarting; stateRunning] ->
  (windows w = false /\ signal_err w = None) \/ kill_err w = None ->
  exists kt,
    stop w true p
    = (waiter_body w
         (fold_left (fun p l => reader_line (now w) l p) (lines w)
            (set_killTimer kt
               (set_onExit
                  (onExit_closure
                     (callbacks_onExit (fst (setState (now w) stateFinishing p))) 1)
                  (fst (setState (now w) stateFinishing p))))),
       None, true).
Proof.
  intros Hin Hsig. unfold stop.
  assert (Hrun : isRunning p = true /\ String.eqb (getState p) stateFinishing = false).
  { unfold isRunning, getState. simpl in Hin. by destruct Hin as [<-|[<-|[]]]. }
  destruct Hrun as [-> ->]. cbv zeta. cbn [negb].
  set (p2 := set_onExit _ _).
  assert (Hsame : p2 = set_killTimer (killTimer p2) p2) by (by destruct p2).
  destruct (windows w) eqn:Ew; [|destruct (signal_err w) eqn:Es].
  - destruct Hsig as [[? _]| ->]; [done|]. exists (killTimer p2). by rewrite <- Hsame.
  - destruct Hsig as [[_ ?]| ->]; [done|]. exists (killTimer p2). by rewrite <- Hsame.
  - by exists Timer_armed.
Qed.

(** [start] with no child alive and a spawn that succeeds. *)
Lemma start_spawns (w : World) (p : process P) :
  In (state_state p) [stateFinished; stateFailed; stateKilled] ->
  pipe_err w = None ->
  start_err w = None ->
  let p' := fst (start w p) in
  snd (start w p) = None
  /\ state_state p' = stateRunning
  /\ state_time p' = now w
  /\ state_states p' = inc_Running (inc_Starting (state_states p))
  /\ pid p' = new_pid w
  /\ cmd p'
     = Some {| cmd_Args := binary p :: args p; cmd_Env := [];
               cmd_Process := Some (new_pid w) |}
  /\ limits p' = (if limiter_ok w then Some (new_pid w) else limits p)
  /\ reconn_timer p' = Timer_nil
  /\ stale_cancel p' = (if stale_timeout p =? 0 then stale_cancel p else true)
  /\ order_order p' = order_order p
  /\ dispatched p'
     = dispatched p
       ++ (if callbacks_onStateChange p
           then [Call_onStateChange (state_state p) stateStarting;
                 Call_onStateChange stateStarting stateRunning]
           else [])
       ++ (if callbacks_onStart p then [Call_onStart] else [])
  /\ callbacks_onExit p' = callbacks_onExit p
  /\ panicked p' = panicked p.
Proof.
  intros Hin Hpipe Hstart p'. subst p'.
  destruct w as [wnow wwin wpipe wstart wpid wlim wsig wkill wlines wwait].
  destruct p as [bin ar c pd ll st tm cs ord pa sl sto sc re rd rt kt lim cb1 cb2 cb3 dp pn].
  simpl in Hin, Hpipe, Hstart. subst wpipe wstart.
  destruct Hin as [<-|[<-|[<-|[]]]]; destruct rt, cb3, cb1, wlim, sto;
    evaluate; done.
Qed.

(** [stop(true)] on a live child that takes the signal: what [waiter]
    has made of the supervisor when it has called [onExit]. When that call
    returns, [wg.Wait()] returns to the caller, and the closure left
    installed has used up its wait group; when the call panics, the caller
    never resumes. *)
Lemma stop_waits (w : World) (p : process P) :
  In (state_state p) [stateStarting; stateRunning] ->
  (windows w = false /\ signal_err w = None) \/ kill_err w = None ->
  exists q,
    stop w true p = (q, None, true)
    /\ state_state q = waiter_state (Cmd_Wait (wait w))
    /\ order_order q = order_order p
    /\ limits q = None
    /\ killTimer q = Timer_nil
    /\ stale_cancel q = false
    /\ reconn_timer q = reconn_timer p
    /\ reconn_enable q = reconn_enable p
    /\ dispatched q
       = dispatched p
         ++ (if callbacks_onStateChange p
             then [Call_onStateChange (state_state p) stateFinishing;
                   Call_onStateChange stateFinishing (waiter_state (Cmd_Wait (wait w)))]
             else [])
         ++ [Call_onExit]
    /\ match onExit_call (callbacks_onExit p) with
       | Some cb => callbacks_onExit q = onExit_closure cb 0 /\ panicked q = panicked p
       | None => panicked q = true
       end.
Proof.
  intros Hin Hsig.
  destruct (stop_blocks w p Hin Hsig) as [kt ->].
  eexists. split; [reflexivity|].
  destruct (reader_lines_shape (now w) (lines w)
              (set_killTimer kt
                 (set_onExit
                    (onExit_closure
                       (callbacks_onExit (fst (setState (now w) stateFinishing p))) 1)
                    (fst (setState (now w) stateFinishing p)))))
    as (l & q & sl & ->).
  cbv beta delta [waiter_body].
  destruct (waiter_state_cases (Cmd_Wait (wait w))) as [->|[-> | ->]];
    destruct p as [bin ar c pd ll st tm cs ord pa sl0 sto sc re rd rt kt0 lim cb1 cb2 cb3 dp pn];
    simpl in Hin; destruct Hin as [<-|[<-|[]]]; destruct cb3, kt, sc;
    evaluate; rewrite onExit_call_closure; destruct (onExit_call cb2);
    evaluate; done.
Qed.

(** A closure that has returned once panics at its next call. *)
Lemma onExit_call_spent (cb : onExit_func) :
  onExit_call (onExit_closure cb 0) = None.
Proof. rewrite onExit_call_closure. by destruct (onExit_call cb). Qed.

Lemma waiter_state_idle (e : option WaitError) :
  stateType_IsRunning (waiter_state e) = false
  /\ In (waiter_state e) [stateFinished; stateFailed; stateKilled].
Proof.
  destruct (waiter_state_cases e) as [->|[-> | ->]]; simpl; tauto.
Qed.

Lemma unreconnect_panicked (p : process P) : panicked (unreconnect p) = panicked p.
Proof. unfold unreconnect. by destruct (reconn_timer p). Qed.

(** [Stop(true)] followed by [Start], as [Restart] calls them. A child
    that is running is waited for, which takes an [onExit] that returns. *)
Lemma Stop_then_Start (w1 w2 : World) (p : process P) :
  In (state_state p) [stateFinished; stateFailed; stateKilled; stateRunning] ->
  (windows w1 = false /\ signal_err w1 = None) \/ kill_err w1 = None ->
  pipe_err w2 = None ->
  start_err w2 = None ->
  (state_state p = stateRunning -> onExit_call (callbacks_onExit p) <> None) ->
  let r := Start w2 (fst (Stop w1 true p)) in
  snd r = None
  /\ state_state (fst r) = stateRunning
  /\ order_order (fst r) = "start"
  /\ panicked (fst r) = panicked p.
Proof.
  intros Hin Hsig Hpipe Hstart Hexit r. subst r.
  assert (Hstate : In (state_state (fst (Stop w1 true p)))
                     [stateFinished; stateFailed; stateKilled; stateRunning]
                   /\ panicked (fst (Stop w1 true p)) = panicked p).
  { unfold Stop. destruct (String.eqb (order_order p) "stop"); [done|].
    simpl in Hin. destruct Hin as [Hs|[Hs|[Hs|[Hs|[]]]]].
    4: { destruct (stop_waits w1 (set_order "stop" p))
           as (q & -> & Hq & _ & _ & _ & _ & _ & _ & _ & Hcall);
           [simpl; rewrite <- Hs; simpl; tauto|done|].
         cbn [fst snd]. rewrite Hq.
         destruct (waiter_state_idle (Cmd_Wait (wait w1))) as [_ Hidle].
         split; [simpl in Hidle; simpl; tauto|].
         cbn [callbacks_onExit set_order] in Hcall.
         destruct (onExit_call (callbacks_onExit p)) as [cb|] eqn:E.
         - by destruct Hcall as [_ ->].
         - exfalso. by apply Hexit. }
    all: unfold stop;
      assert (Hidle : isRunning (set_order "stop" p) = false)
        by (unfold isRunning, getState; simpl; by rewrite <- Hs);
      rewrite Hidle; cbn [negb fst snd]; rewrite unreconnect_panicked;
      destruct (unreconnect_fields (set_order "stop" p)) as (-> & _);
      simpl; rewrite <- Hs; simpl; tauto. }
  destruct Hstate as [Hstate Hpanic].
  pose proof (Stop_order w1 true p) as Hord.
  set (q := fst (Stop w1 true p)) in *. clearbody q. rewrite <- Hpanic.
  split; [|split; [|split; [apply Start_order|]]].
  all: unfold Start; rewrite Hord; cbn [String.eqb Ascii.eqb]; simpl String.eqb; cbv iota.
  all: simpl in Hstate; destruct Hstate as [Hs|[Hs|[Hs|[Hs|[]]]]].
  all: try (destruct (start_spawns w2 (set_order "start" q))
              as (H1 & H2 & _ & _ & _ & _ & _ & _ & _ & _ & _ & _ & H13);
            [simpl; rewrite <- Hs; simpl; tauto|done|done|done]).
  all: unfold start;
    assert (Hrun : isRunning (set_order "start" q) = true)
      by (unfold isRunning, getState; simpl; by rewrite <- Hs);
    rewrite Hrun; simpl; done.
Qed.

End SupervisorStop.

(** X4. A [Start] that reaches the spawn (order not yet [start], no child
    alive) and whose spawn succeeds returns [nil] and leaves the supervisor
    [running] at the current time, having counted [starting] and [running]
    and reported both transitions; the pid is the child's, the command is
    the binary and arguments with an empty environment, the limiter follows
    the child when it finds it, a pending reconnect timer is cleared,
    [onStart] is launched when set, and the stale watch is started exactly
    when a timeout is configured. *)
Theorem Start_spawn_success {P : Type} `{process.Parser P}
    (w : process.World) (p : process.process P) :
  process.order_order p <> "start" ->
  In (process.state_state p)
    [process.stateFinished; process.stateFailed; process.stateKilled] ->
  process.pipe_err w = None ->
  process.start_err w = None ->
  let p' := fst (process.Start w p) in
  snd (process.Start w p) = None
  /\ process.state_state p' = process.stateRunning
  /\ process.state_time p' = process.now w
  /\ process.state_states p'
     = process.inc_Running (process.inc_Starting (process.state_states p))
  /\ process.pid p' = process.new_pid w
  /\ process.cmd p'
     = Some {| process.cmd_Args := process.binary p :: process.args p;
               process.cmd_Env := [];
               process.cmd_Process := Some (process.new_pid w) |}
  /\ process.limits p'
     = (if process.limiter_ok w then Some (process.new_pid w) else process.limits p)
  /\ process.reconn_timer p' = process.Timer_nil
  /\ process.stale_cancel p'
     = (if process.stale_timeout p =? 0 then process.stale_cancel p else true)
  /\ process.order_order p' = "start"
  /\ process.dispatched p'
     = process.dispatched p
       ++ (if process.callbacks_onStateChange p
           then [process.Call_onStateChange (process.state_state p) process.stateStarting;
                 process.Call_onStateChange process.stateStarting process.stateRunning]
           else [])
       ++ (if process.callbacks_onStart p then [process.Call_onStart] else []).
Proof.
  intros Horder Hin Hpipe Hstart p'. subst p'.
  apply String.eqb_neq in Horder.
  unfold process.Start. rewrite Horder.
  destruct (start_spawns w (process.set_order "start" p) Hin Hpipe Hstart)
    as (H1 & H2 & H3 & H4 & H5 & H6 & H7 & H8 & H9 & H10 & H11 & _).
  by repeat (split; [assumption|]).
Qed.

(** A new supervisor whose first spawn succeeds. *)
Lemma Start_spawn_success_witness :
  exists p0,
    process.New 0 example_Config = (Some p0, None)
    /\ let r := process.Start (example_World 1 None 0) p0 in
       snd r = None
       /\ process.state_state (fst r) = process.stateRunning
       /\ process.pid (fst r) = 4242
       /\ process.dispatched (fst r)
          = [process.Call_onStateChange process.stateFinished process.stateStarting;
             process.Call_onStateChange process.stateStarting process.stateRunning].
Proof.
  eexists. split; [reflexivity|]. intros r.
  match goal with
  | r := process.Start ?w ?p |- _ =>
      destruct (Start_spawn_success w p)
        as (H1 & H2 & _ & _ & H5 & _ & _ & _ & _ & _ & H11);
        [discriminate|simpl; tauto|reflexivity|reflexivity|]
  end.
  split; [exact H1|]. split; [exact H2|]. split; [exact H5|exact H11].
Defined.

(** X5. [Stop(true)] on a supervisor in [starting] or [running] whose
    order is not yet [stop] and whose child takes the signal. When the
    function installed as [onExit] returns, [Stop] returns [nil] only after
    [waiter] has run: the state is the one [waiter] derives from the exit
    status, no child is running, the order is [stop], the limiter, the kill
    timer and the stale watch are cleared, the reconnect timer is as it
    was, the transitions to [finishing] and to the final state were reported
    before [onExit], and the closure left installed as [onExit] has used up
    its wait group, so that its next call panics. When the installed
    function panics, as the closure of an earlier [Stop(true)] does, the
    program dies in [waiter] and [Stop] never returns. *)
Theorem Stop_waits_for_exit {P : Type} `{process.Parser P}
    (w : process.World) (p : process.process P) :
  process.order_order p <> "stop" ->
  In (process.state_state p) [process.stateStarting; process.stateRunning] ->
  (process.windows w = false /\ process.signal_err w = None)
  \/ process.kill_err w = None ->
  let p' := fst (process.Stop w true p) in
  let final := process.waiter_state (process.Cmd_Wait (process.wait w)) in
  (forall cb, process.onExit_call (process.callbacks_onExit p) = Some cb ->
     snd (process.Stop w true p) = None
     /\ process.panicked p' = process.panicked p
     /\ process.state_state p' = final
     /\ process.isRunning p' = false
     /\ process.order_order p' = "stop"
     /\ process.limits p' = None
     /\ process.killTimer p' = process.Timer_nil
     /\ process.stale_cancel p' = false
     /\ process.reconn_timer p' = process.reconn_timer p
     /\ process.dispatched p'
        = process.dispatched p
          ++ (if process.callbacks_onStateChange p
              then [process.Call_onStateChange (process.state_state p)
                      process.stateFinishing;
                    process.Call_onStateChange process.stateFinishing final]
              else [])
          ++ [process.Call_onExit]
     /\ process.callbacks_onExit p' = process.onExit_closure cb 0
     /\ process.onExit_call (process.callbacks_onExit p') = None)
  /\ (process.onExit_call (process.callbacks_onExit p) = None ->
      process.panicked p' = true).
Proof.
  intros Horder Hin Hsig p' final. subst p' final.
  apply String.eqb_neq in Horder.
  unfold process.Stop. rewrite Horder. clear Horder.
  destruct (stop_waits w (process.set_order "stop" p) Hin Hsig)
    as (q & -> & Hq1 & Hq2 & Hq3 & Hq4 & Hq5 & Hq6 & Hq7 & Hq8 & Hq9).
  cbn [fst snd]. cbn [process.callbacks_onExit process.set_order] in Hq9.
  split.
  - intros cb Hcb. rewrite Hcb in Hq9. destruct Hq9 as [Hq9 Hq10].
    split; [done|]. split; [done|]. split; [done|].
    split. { unfold process.isRunning, process.getState. rewrite Hq1.
             apply waiter_state_idle. }
    split; [done|]. split; [done|]. split; [done|]. split; [done|].
    split; [done|]. split; [done|]. split; [done|].
    rewrite Hq9. apply onExit_call_spent.
  - intros Hcb. by rewrite Hcb in Hq9.
Qed.

(** A running child that exits with code 255 on the interrupt; started
    again and stopped again, it takes the program down. *)
Lemma Stop_waits_for_exit_witness :
  exists p0,
    process.New 0 example_Config = (Some p0, None)
    /\ let p := fst (process.Start (example_World 1 None 0) p0) in
       let r := process.Stop (example_World 4 None 65280) true p in
       snd r = None
       /\ process.panicked (fst r) = false
       /\ process.state_state (fst r) = process.stateFinished
       /\ process.isRunning (fst r) = false
       /\ process.order_order (fst r) = "stop"
       /\ let p2 := fst (process.Start (example_World 5 None 0) (fst r)) in
          process.state_state p2 = process.stateRunning
          /\ process.panicked
               (fst (process.Stop (example_World 8 None 65280) true p2)) = true.
Proof.
  eexists. split; [reflexivity|]. intros p r.
  destruct (Stop_waits_for_exit (example_World 4 None 65280) p) as [Hret _];
    [vm_compute; discriminate|vm_compute; tauto|left; split; reflexivity|].
  destruct (Hret process.onExit_nil eq_refl) as (H1 & H2 & H3 & H4 & H5 & _).
  split; [exact H1|]. split; [exact H2|]. split; [exact H3|]. split; [exact H4|].
  split; [exact H5|]. intros p2. split; [reflexivity|].
  destruct (Stop_waits_for_exit (example_World 8 None 65280) p2) as [_ Hpanic];
    [vm_compute; discriminate|vm_compute; tauto|left; split; reflexivity|].
  apply Hpanic. reflexivity.
Defined.

Section SupervisorStopFailure.
Context {P : Type} `{process.Parser P}.
Import process.

Lemma setState_parser (t : Z) (s : stateType) (p : process P) :
  parser (fst (setState t s p)) = parser p.
Proof.
  destruct (setState_cases_any t s p) as [[_ ->]|[_ [msg ->]]]; [|done].
  cbn [fst]. by destruct (committed_other t s p) as (-> & _).
Qed.

(** [stop] on a live child that can be neither signalled nor killed. *)
Lemma stop_fails (w : World) (b : bool) (p : process P) (err : string) :
  In (state_state p) [stateStarting; stateRunning] ->
  windows w = true \/ signal_err w <> None ->
  kill_err w = Some err ->
  stop w b p
  = (fst (setState (now w) stateFailed
            (fst (parser_Parse (now w) err
                    (if b
                     then set_onExit
                            (onExit_closure
                               (callbacks_onExit (fst (setState (now w) stateFinishing p))) 1)
                            (fst (setState (now w) stateFinishing p))
                     else fst (setState (now w) stateFinishing p))))),
     Some err, false).
Proof.
  intros Hin Hsig Hkill. unfold stop.
  assert (Hrun : isRunning p = true /\ String.eqb (getState p) stateFinishing = false).
  { unfold isRunning, getState. simpl in Hin. by destruct Hin as [<-|[<-|[]]]. }
  destruct Hrun as [-> ->]. cbv zeta. cbn [negb].
  destruct (windows w); [by rewrite Hkill|].
  destruct (signal_err w); [by rewrite Hkill|]. by destruct Hsig.
Qed.

End SupervisorStopFailure.

(** X6. When the child can be neither signalled nor killed, [Stop] returns
    the error of the kill and leaves the supervisor [failed] (having counted
    [finishing] and [failed]) with the error text passed to the parser; the
    order is [stop], no kill timer is set, and with [wait] the closure over
    [onExit], its wait group still counted, stays installed. *)
Theorem Stop_signal_failure {P : Type} `{process.Parser P}
    (w : process.World) (b : bool) (p : process.process P) (err : string) :
  process.order_order p <> "stop" ->
  In (process.state_state p) [process.stateStarting; process.stateRunning] ->
  process.windows w = true \/ process.signal_err w <> None ->
  process.kill_err w = Some err ->
  let p' := fst (process.Stop w b p) in
  snd (process.Stop w b p) = Some err
  /\ process.state_state p' = process.stateFailed
  /\ process.state_states p'
     = process.inc_Failed (process.inc_Finishing (process.state_states p))
  /\ process.parser p' = fst (process.Parse (process.now w) err (process.parser p))
  /\ process.order_order p' = "stop"
  /\ process.killTimer p' = process.killTimer p
  /\ process.reconn_timer p' = process.reconn_timer p
  /\ process.callbacks_onExit p'
     = (if b then process.onExit_closure (process.callbacks_onExit p) 1
        else process.callbacks_onExit p).
Proof.
  intros Horder Hin Hsig Hkill p'. subst p'.
  apply String.eqb_neq in Horder.
  unfold process.Stop. rewrite Horder. clear Horder.
  rewrite (stop_fails w b (process.set_order "stop" p) err Hin Hsig Hkill).
  cbn [fst snd]. unfold process.parser_Parse.
  assert (Hparser : process.parser
            (if b
             then process.set_onExit
                    (process.onExit_closure
                       (process.callbacks_onExit
                          (fst (process.setState (process.now w) process.stateFinishing
                                  (process.set_order "stop" p)))) 1)
                    (fst (process.setState (process.now w) process.stateFinishing
                            (process.set_order "stop" p)))
             else fst (process.setState (process.now w) process.stateFinishing
                         (process.set_order "stop" p)))
          = process.parser p).
  { destruct b; cbn [process.parser process.set_onExit]; by rewrite setState_parser. }
  rewrite Hparser. clear Hparser.
  destruct (process.Parse (process.now w) err (process.parser p)) as [q n].
  destruct p as [bin ar c pd ll st tm cs ord pa sl sto sc re rd rt kt lim cb1 cb2 cb3 dp pn].
  simpl in Hin.
  destruct Hin as [<-|[<-|[]]]; destruct b, cb3; evaluate; done.
Qed.

(** A running child that is already gone for the operating system. *)
Lemma Stop_signal_failure_witness :
  let w := {| process.now := 4; process.windows := false; process.pipe_err := None;
              process.start_err := None; process.new_pid := 0;
              process.limiter_ok := false;
              process.signal_err := Some "os: process already finished";
              process.kill_err := Some "os: process already finished";
              process.lines := []; process.wait := inr 0 |} in
  exists p0,
    process.New 0 example_Config = (Some p0, None)
    /\ let p := fst (process.Start (example_World 1 None 0) p0) in
       snd (process.Stop w false p) = Some "os: process already finished"
       /\ process.state_state (fst (process.Stop w false p)) = process.stateFailed.
Proof.
  intros w. eexists. split; [reflexivity|]. intros p.
  destruct (Stop_signal_failure w false p "os: process already finished")
    as (H1 & H2 & _);
    [vm_compute; discriminate|vm_compute; tauto|right; discriminate|reflexivity|].
  split; [exact H1|exact H2].
Defined.

(** X7. [Stop] on a supervisor without a live child whose order is not yet
    [stop] returns [nil], sets the order to [stop] and clears the reconnect
    timer, so that the expiry of that timer does nothing; the state, the
    counters and the reported calls are untouched. *)
Theorem Stop_cancels_reconnect {P : Type} `{process.Parser P}
    (w w' : process.World) (b : bool) (p : process.process P) :
  process.order_order p <> "stop" ->
  process.isRunning p = false ->
  let p' := fst (process.Stop w b p) in
  snd (process.Stop w b p) = None
  /\ process.reconn_timer p' = process.Timer_nil
  /\ process.reconnect_fire w' p' = p'
  /\ process.order_order p' = "stop"
  /\ process.state_state p' = process.state_state p
  /\ process.state_states p' = process.state_states p
  /\ process.dispatched p' = process.dispatched p.
Proof.
  intros Horder Hidle p'. subst p'.
  apply String.eqb_neq in Horder.
  unfold process.Stop. rewrite Horder. unfold process.stop.
  assert (Hidle' : process.isRunning (process.set_order "stop" p) = false) by exact Hidle.
  rewrite Hidle'. cbn [negb fst snd]. clear Hidle Hidle' Horder.
  unfold process.reconnect_fire, process.unreconnect.
  destruct p as [bin ar c pd ll st tm cs ord pa sl sto sc re rd rt kt lim cb1 cb2 cb3 dp pn].
  by destruct rt.
Qed.

(** After a failed spawn with reconnect enabled, [Stop] disarms the
    timer. *)
Lemma Stop_cancels_reconnect_witness :
  exists p0,
    process.New 0 example_Config = (Some p0, None)
    /\ let p := fst (process.Start (example_World 1 (Some "exec: not found") 0) p0) in
       process.reconn_timer p = process.Timer_armed
       /\ process.reconn_timer (fst (process.Stop (example_World 2 None 0) false p))
          = process.Timer_nil.
Proof.
  eexists. split; [reflexivity|]. intros p. split; [reflexivity|].
  destruct (Stop_cancels_reconnect (example_World 2 None 0) (example_World 3 None 0)
              false p) as (_ & H2 & _);
    [vm_compute; discriminate|reflexivity|].
  exact H2.
Defined.

(** X8. Whatever the state it finds, [waiter] stops the limiter, clears the
    kill timer and the stale watch, resets the progress of the parser and
    keeps the order; it arms the reconnect timer exactly when the order is
    [start] and reconnect is enabled. *)
Theorem waiter_cleans_up {P : Type} `{process.Parser P}
    (w : process.World) (p : process.process P) :
  let p' := process.waiter w p in
  process.limits p' = None
  /\ process.killTimer p' = process.Timer_nil
  /\ process.stale_cancel p' = false
  /\ process.parser p' = process.ResetStats (process.parser p)
  /\ process.order_order p' = process.order_order p
  /\ process.reconn_timer p'
     = (if String.eqb (process.order_order p) "start" && process.reconn_enable p
        then process.Timer_armed else process.reconn_timer p).
Proof.
  intros p'. subst p'. unfold process.waiter, process.waiter_body. cbv zeta.
  set (p1 := fst (process.setState _ _ p)).
  assert (H1 : process.parser p1 = process.parser p
               /\ process.order_order p1 = process.order_order p
               /\ process.reconn_timer p1 = process.reconn_timer p
               /\ process.reconn_enable p1 = process.reconn_enable p).
  { subst p1.
    destruct (setState_cases_any (process.now w)
                (process.waiter_state (process.Cmd_Wait (process.wait w))) p)
      as [[_ ->]|[_ [msg ->]]]; [|done].
    cbn [fst]. apply committed_other. }
  clearbody p1. destruct H1 as (<- & <- & <- & <-).
  match goal with
  | |- context [process.go_onExit ?q] =>
      destruct (go_onExit_cases q) as [-> | [[f ->] | ->]]
  end.
  all: destruct p1 as [bin ar c pd ll st tm cs ord pa sl sto sc re rd rt kt lim cb1 cb2 cb3 dp pn].
  all: unfold process.waiter_tail, process.reconnect, process.unreconnect.
  all: destruct kt, sc; cbn -[String.eqb];
    destruct (String.eqb ord "start"); cbn; try done;
    destruct re; cbn; try done; by destruct rt.
Qed.

(** X9. [Kill(true)] on a supervisor in [starting] or [running] whose
    child takes the signal and whose [onExit] returns ends in the state
    [waiter] derives from the exit status and, unlike [Stop], keeps the
    order; at its return the reconnect timer is as it was. The end of
    [waiter], which runs once [Kill] has released the order lock, then arms
    that timer when the order is [start] and reconnect is enabled. *)
Theorem Kill_keeps_order {P : Type} `{process.Parser P}
    (w : process.World) (p : process.process P) :
  In (process.state_state p) [process.stateStarting; process.stateRunning] ->
  (process.windows w = false /\ process.signal_err w = None)
  \/ process.kill_err w = None ->
  process.onExit_call (process.callbacks_onExit p) <> None ->
  let p' := fst (process.Kill w true p) in
  snd (process.Kill w true p) = None
  /\ process.panicked p' = process.panicked p
  /\ process.state_state p' = process.waiter_state (process.Cmd_Wait (process.wait w))
  /\ process.order_order p' = process.order_order p
  /\ process.reconn_timer p' = process.reconn_timer p
  /\ process.reconn_timer (process.waiter_tail p')
     = (if String.eqb (process.order_order p) "start" && process.reconn_enable p
        then process.Timer_armed else process.reconn_timer p)
  /\ process.state_state (process.waiter_tail p') = process.state_state p'
  /\ process.order_order (process.waiter_tail p') = process.order_order p.
Proof.
  intros Hin Hsig Hexit p'. subst p'.
  unfold process.Kill.
  assert (Hrun : process.isRunning p = true).
  { unfold process.isRunning, process.getState. simpl in Hin.
    by destruct Hin as [<-|[<-|[]]]. }
  rewrite Hrun. cbn [negb].
  destruct (stop_waits w p Hin Hsig)
    as (q & -> & Hq1 & Hq2 & _ & _ & _ & Hq6 & Hq7 & _ & Hq9).
  cbn [fst snd].
  destruct (process.onExit_call (process.callbacks_onExit p)) as [cb|]; [|done].
  destruct Hq9 as [_ Hq9].
  split; [done|]. split; [done|]. split; [done|]. split; [done|]. split; [done|].
  unfold process.waiter_tail. rewrite Hq2.
  destruct (String.eqb (process.order_order p) "start"); cbn [andb]; [|done].
  destruct (reconnect_fields q) as (-> & _ & _ & -> & ->).
  by rewrite Hq2, Hq6, Hq7.
Qed.

(** A running child killed by signal 9: the supervisor is [killed], and
    the end of [waiter] arms the reconnect. *)
Lemma Kill_keeps_order_witness :
  exists p0,
    process.New 0 example_Config = (Some p0, None)
    /\ let p := fst (process.Start (example_World 1 None 0) p0) in
       let r := process.Kill (example_World 4 None 9) true p in
       process.state_state (fst r) = process.stateKilled
       /\ process.order_order (fst r) = "start"
       /\ process.reconn_timer (fst r) = process.Timer_nil
       /\ process.reconn_timer (process.waiter_tail (fst r)) = process.Timer_armed.
Proof.
  eexists. split; [reflexivity|]. intros p r.
  destruct (Kill_keeps_order (example_World 4 None 9) p)
    as (_ & _ & H3 & H4 & H5 & H6 & _);
    [vm_compute; tauto|left; split; reflexivity|vm_compute; discriminate|].
  split; [exact H3|]. split; [exact H4|]. split; [exact H5|exact H6].
Defined.

Section SupervisorPanic.
Context {P : Type} `{process.Parser P}.
Import process.

(** [setState] leaves [onExit] alone and never panics. *)
Lemma setState_callbacks (t : Z) (s : stateType) (p : process P) :
  callbacks_onExit (fst (setState t s p)) = callbacks_onExit p
  /\ panicked (fst (setState t s p)) = panicked p.
Proof.
  destruct (setState_fst t s p) as [->| ->]; [done|].
  unfold committed. by destruct (callbacks_onStateChange p).
Qed.

Lemma parser_Parse_callbacks (t : Z) (line : string) (p : process P) :
  callbacks_onExit (fst (parser_Parse t line p)) = callbacks_onExit p
  /\ panicked (fst (parser_Parse t line p)) = panicked p.
Proof. unfold parser_Parse. by destruct (Parse t line (parser p)). Qed.

Lemma reconnect_panicked (p : process P) : panicked (reconnect p) = panicked p.
Proof.
  unfold reconnect. destruct (reconn_enable p); simpl; [|done].
  apply unreconnect_panicked.
Qed.

(** [start] runs no [onExit]: it cannot panic. *)
Lemma start_panicked (w : World) (p : process P) :
  panicked (fst (start w p)) = panicked p.
Proof.
  unfold start. destruct (isRunning p); [done|].
  assert (Hfail : forall err q, panicked (fst (start_failed w err q)) = panicked q).
  { intros err q. unfold start_failed. cbn [fst snd].
    rewrite reconnect_panicked.
    rewrite (proj2 (parser_Parse_callbacks _ _ _)).
    apply setState_callbacks. }
  assert (H1 : panicked (fst (setState (now w) stateStarting (unreconnect p)))
               = panicked p).
  { rewrite (proj2 (setState_callbacks _ _ _)). apply unreconnect_panicked. }
  destruct (pipe_err w); [|destruct (start_err w)]; rewrite ?Hfail; cbn [fst snd].
  1,2: simpl; exact H1.
  set (p4 := if limiter_ok w then _ else _).
  assert (H4 : panicked p4 = panicked p).
  { subst p4. destruct (limiter_ok w); simpl; exact H1. }
  set (p5 := fst (setState (now w) stateRunning p4)).
  assert (H5 : panicked p5 = panicked p).
  { subst p5. by rewrite (proj2 (setState_callbacks _ _ _)). }
  destruct (callbacks_onStart p5); by destruct (negb _).
Qed.

Lemma Start_panicked (w : World) (p : process P) :
  panicked (fst (Start w p)) = panicked p.
Proof.
  unfold Start. destruct (String.eqb _ _); [done|]. by rewrite start_panicked.
Qed.

(** [waiter] up to [onExit], when the function installed returns. *)
Lemma waiter_body_returns (w : World) (p : process P) :
  onExit_call (callbacks_onExit p) <> None ->
  panicked (waiter_body w p) = panicked p.
Proof.
  intros Hcall. unfold waiter_body. cbv zeta.
  set (p1 := fst (setState _ _ p)).
  destruct (setState_callbacks (now w) (waiter_state (Cmd_Wait (wait w))) p)
    as [Hcb Hpn]. fold p1 in Hcb, Hpn.
  set (q := set_parser _ _).
  assert (Hq : callbacks_onExit q = callbacks_onExit p /\ panicked q = panicked p).
  { subst q. rewrite <- Hcb, <- Hpn. simpl.
    destruct (killTimer p1); simpl; by destruct (stale_cancel p1). }
  destruct Hq as [Hq1 Hq2]. unfold go_onExit. rewrite Hq1.
  destruct (callbacks_onExit p) as [| |cb wg]; [done| |]; cbv zeta;
    (destruct (onExit_call _); [done|by destruct Hcall]).
Qed.

(** [stop] panics only through an [onExit] that panics. *)
Lemma stop_panicked (w : World) (b : bool) (p : process P) :
  onExit_call (callbacks_onExit p) <> None ->
  panicked (fst (fst (stop w b p))) = panicked p.
Proof.
  intros Hcall. unfold stop.
  destruct (negb (isRunning p)); [apply unreconnect_panicked|].
  destruct (String.eqb _ _); [done|].
  set (p1 := fst (setState _ _ p)).
  destruct (setState_callbacks (now w) stateFinishing p) as [Hcb Hpn].
  fold p1 in Hcb, Hpn.
  set (p2 := if b then set_onExit _ p1 else p1).
  assert (H2 : panicked p2 = panicked p) by (subst p2; by destruct b).
  assert (Hfail : forall e,
            panicked (fst (setState (now w) stateFailed (fst (parser_Parse (now w) e p2))))
            = panicked p).
  { intros e. rewrite (proj2 (setState_callbacks _ _ _)).
    by rewrite (proj2 (parser_Parse_callbacks _ _ _)). }
  assert (Hwait : forall kt,
            b = true ->
            panicked (waiter_body w
                        (fold_left (fun p l => reader_line (now w) l p) (lines w)
                           (set_killTimer kt p2)))
            = panicked p).
  { intros kt ->. subst p2.
    destruct (reader_lines_shape (now w) (lines w)
                (set_killTimer kt (set_onExit (onExit_closure (callbacks_onExit p1) 1) p1)))
      as (l & q & sl & ->).
    rewrite waiter_body_returns; [simpl; exact Hpn|].
    simpl. rewrite Hcb.
    destruct (onExit_call (callbacks_onExit p)); [done|by destruct Hcall]. }
  assert (Hsame : p2 = set_killTimer (killTimer p2) p2) by (by destruct p2).
  destruct (windows w); [|destruct (signal_err w)];
    try destruct (kill_err w); cbn [fst snd]; rewrite ?Hfail; try done.
  all: destruct b eqn:Eb; cbn [fst snd]; [|done];
    first [by apply Hwait | rewrite Hsame; by apply Hwait].
Qed.

Lemma Stop_panicked (w : World) (b : bool) (p : process P) :
  onExit_call (callbacks_onExit p) <> None ->
  panicked (fst (Stop w b p)) = panicked p.
Proof.
  intros Hcall. unfold Stop. destruct (String.eqb _ _); [done|].
  pose proof (stop_panicked w b (set_order "stop" p) Hcall) as Hp.
  by destruct (stop w b (set_order "stop" p)) as [[q e] blocked].
Qed.

End SupervisorPanic.

(** ** The reader and the stale watch *)

(** X13. With the progress parser installed, a line without [frame=] is
    remembered as the last line and put into the log, but it changes neither
    the progress nor the time of the last sign of life that the stale watch
    compares with its timeout. *)
Theorem reader_line_without_frame (t : Z) (line : string)
    (p : process.process parse.parser) (q : parse.parser) :
  process.parser p = inl q ->
  Contains line "frame=" = false ->
  let p' := process.reader_line t line p in
  process.lastLine p' = line
  /\ process.stale_last p' = process.stale_last p
  /\ process.parser p' = inl (fst (parse.Parse t line q))
  /\ parse.progress (fst (parse.Parse t line q)) = parse.progress q
  /\ parse.log (fst (parse.Parse t line q))
     = parse.ring_put {| process_line.Timestamp := t; process_line.Data := line |}
         (parse.log q).
Proof.
  intros Hq Hc p'. subst p'.
  destruct (Parse_other_line t line q Hc) as [Hprog Hzero].
  unfold process.reader_line, process.parser_Parse.
  cbn [process.parser process.set_lastLine]. rewrite Hq.
  cbn [process.Parse process.sum_Parser parse_Parser].
  destruct (parse.Parse t line q) as [q' n] eqn:EP. cbn [fst snd] in *. subst n.
  cbn. split; [done|]. split; [done|]. split; [done|]. split; [done|].
  unfold parse.Parse in EP. rewrite Hc in EP. cbn in EP. by injection EP as <-.
Qed.

(** A line of FFmpeg's banner. *)
Lemma reader_line_without_frame_witness :
  exists p0 q,
    process.New 0 example_Config = (Some p0, None)
    /\ process.parser p0 = inl q
    /\ process.stale_last (process.reader_line 7 "Press [q] to stop" p0)
       = process.stale_last p0
    /\ process.lastLine (process.reader_line 7 "Press [q] to stop" p0)
       = "Press [q] to stop".
Proof.
  eexists. eexists. split; [reflexivity|]. split; [reflexivity|].
  match goal with
  | |- process.stale_last (process.reader_line ?t ?l ?p) = _ /\ _ =>
      destruct (reader_line_without_frame t l p (parse.New 0 {| parse.LogLines := 100 |}))
        as (H1 & H2 & _); [reflexivity|reflexivity|]
  end.
  split; [exact H2|exact H1].
Defined.

Lemma SFcompare_refl (x : spec_float) :
  SFcompare x x = Some Eq \/ SFcompare x x = None.
Proof.
  destruct x as [s|s| |s m e]; simpl; auto.
  - destruct s; auto.
  - change (PosDef.Pos.compare_cont Eq m m) with (Pos.compare_cont Eq m m).
    destruct s; rewrite Z.compare_refl, Pos.compare_cont_refl; simpl; auto.
Qed.

Lemma ltb_irrefl (x : float) : PrimFloat.ltb x x = false.
Proof.
  rewrite ltb_spec. unfold SFltb.
  by destruct (SFcompare_refl (Prim2SF x)) as [-> | ->].
Qed.

(** X15. The comparison of the stale watch is strict: a tick at which
    exactly the timeout has passed since the last sign of life does not stop
    the child. *)
Theorem staler_tick_at_timeout {P : Type} `{process.Parser P}
    (w : process.World) (p : process.process P) :
  process.Time_Sub (process.now w) (process.stale_last p) = process.stale_timeout p ->
  process.staler_tick w p = p.
Proof.
  intros Heq. unfold process.staler_tick. by rewrite Heq, ltb_irrefl.
Qed.

(** Five seconds of silence with a timeout of five seconds. *)
Lemma staler_tick_at_timeout_witness :
  let config :=
    {| process.Binary := "/usr/bin/ffmpeg"; process.Args := [];
       process.Reconnect := false; process.ReconnectDelay := 0;
       process.StaleTimeout := 5000000000; process.Parser_ := @None process.nullParser;
       process.OnStart := false; process.OnExit := false;
       process.OnStateChange := false |} in
  exists p0,
    process.New 0 config = (Some p0, None)
    /\ let p := fst (process.Start (example_World 0 None 0) p0) in
       process.staler_tick (example_World 5000000000 None 0) p = p.
Proof.
  intros config. eexists. split; [reflexivity|]. intros p.
  apply (staler_tick_at_timeout (example_World 5000000000 None 0) p). reflexivity.
Defined.

(** ** The log of the progress parser *)

Section ParserLog.
Import process_line parse.

Lemma Parse_log (t : Z) (line : string) (p : parser) :
  log (fst (Parse t line p)) = ring_put {| Timestamp := t; Data := line |} (log p)
  /\ logLines (fst (Parse t line p)) = logLines p.
Proof. unfold Parse. by destruct (negb _). Qed.

Lemma ring_put_drop (v : Line) (r : ring) :
  r <> [] -> ring_put v r = drop 1 (r ++ [Some v]).
Proof. by destruct r. Qed.

Lemma feed_log (tls : list (Z * string)) (p : parser) :
  log p <> [] ->
  log (feed tls p) = drop (length tls) (log p ++ map (fun tl => Some (line_of tl)) tls)
  /\ logLines (feed tls p) = logLines p.
Proof.
  revert p. induction tls as [|[t l] tls IH]; intros p Hne.
  - simpl. by rewrite app_nil_r.
  - change (feed ((t, l) :: tls) p) with (feed tls (fst (Parse t l p))).
    destruct (Parse_log t l p) as [Hlog Hn].
    assert (Hne' : log (fst (Parse t l p)) <> []).
    { rewrite Hlog. destruct (log p) as [|x r]; [done|]. simpl. by destruct r. }
    destruct (IH _ Hne') as [-> ->]. split; [|done].
    rewrite Hlog, ring_put_drop by done.
    assert (Hlen : (1 <= length (log p ++ [Some {| Timestamp := t; Data := l |}]))%nat)
      by (rewrite length_app; simpl; lia).
    rewrite <- (drop_app_le _ _ 1) by done.
    rewrite drop_drop. cbn [length map]. rewrite <- app_assoc. simpl.
    by replace (1 + length tls)%nat with (S (length tls)) by lia.
Qed.

Lemma omap_replicate_None (n : nat) (l : list Line) :
  omap id (replicate n None ++ map Some l) = l.
Proof.
  induction n as [|n IH]; [|exact IH].
  induction l as [|x l IHl]; [done|]. simpl. f_equal. exact IHl.
Qed.

Lemma omap_map_Some (l : list Line) : omap id (map Some l) = l.
Proof. apply (omap_replicate_None 0). Qed.

Lemma Log_from_empty (tls : list (Z * string)) (p : parser) (n : nat) :
  (0 < n)%nat ->
  log p = replicate n None ->
  Log (feed tls p) = drop (length tls - n) (map line_of tls).
Proof.
  intros Hn Hlog. unfold Log.
  destruct (feed_log tls p) as [-> _].
  { rewrite Hlog. by destruct n; [lia|]. }
  rewrite Hlog.
  replace (map (fun tl => Some (line_of tl)) tls) with (map Some (map line_of tls))
    by (by rewrite map_map).
  destruct (decide (length tls <= n)%nat) as [Hle|Hgt].
  - rewrite drop_app_le by (by rewrite length_replicate).
    rewrite drop_replicate, omap_replicate_None.
    replace (length tls - n)%nat with 0%nat by lia. done.
  - rewrite drop_app_ge by (rewrite length_replicate; lia).
    rewrite length_replicate, skipn_map. apply omap_map_Some.
Qed.

End ParserLog.

Lemma New_log (now : Z) (config : parse.Config) :
  let n := Z.to_nat (if parse.LogLines config <=? 0 then 100 else parse.LogLines config) in
  (0 < n)%nat
  /\ parse.log (parse.New now config) = replicate n None
  /\ parse.ring_New (parse.logLines (parse.New now config)) = replicate n None.
Proof.
  intros n. split; [|done].
  subst n. destruct (Z.leb_spec (parse.LogLines config) 0); lia.
Qed.

(** X14. The log holds the last [n] lines, oldest first, each with the
    time of its [Parse] call, where [n] is the configured capacity, or 100
    when that is not positive: this holds for the lines parsed since [New],
    and, after a [ResetLog], which empties the log and keeps the progress,
    for the lines parsed since that [ResetLog]. *)
Theorem Log_holds_last_lines (now t : Z) (config : parse.Config)
    (before after : list (Z * string)) :
  let n := Z.to_nat (if parse.LogLines config <=? 0 then 100 else parse.LogLines config) in
  let fed := parse.feed before (parse.New now config) in
  let p := parse.ResetLog t fed in
  parse.Log fed = drop (length before - n) (map parse.line_of before)
  /\ parse.Log p = []
  /\ parse.Log (parse.feed after p) = drop (length after - n) (map parse.line_of after)
  /\ parse.progress p = parse.progress fed.
Proof.
  intros n fed p. destruct (New_log now config) as (Hn & Hlog & Hring).
  assert (Hp : parse.log p = replicate n None).
  { subst p fed. cbn [parse.ResetLog parse.log].
    destruct (feed_log before (parse.New now config)) as [_ ->]; [|exact Hring].
    rewrite Hlog. intros Heq. apply (f_equal length) in Heq.
    rewrite length_replicate in Heq. simpl in Heq. lia. }
  split; [by apply Log_from_empty|].
  split; [|split; [by apply Log_from_empty|done]].
  unfold parse.Log. rewrite Hp. generalize n. clear.
  intros n. induction n as [|n IH]; [done|exact IH].
Qed.

(** ** The registry: the rest of the interface *)

Section Registry.
Import task.

Lemma registry_ok_insert (s : store) (id : string) (t : Task) :
  registry_ok s ->
  Task_ID t = id -> ID (Task_Config t) = id ->
  Reference (Task_Config t) = Task_Reference t ->
  registry_ok (set_tasks (<[id := t]> (tasks s)) s).
Proof.
  intros Hok H1 H2 H3 id' t'. simpl.
  destruct (decide (id = id')) as [<-|Hne].
  - rewrite lookup_insert_eq. by intros [= <-].
  - rewrite lookup_insert_ne by done. apply Hok.
Qed.

Lemma registry_ok_set_proc (s : store) (id : string) (t : Task)
    (p : process.process parse.parser) :
  registry_ok s -> tasks s !! id = Some t ->
  registry_ok (set_tasks (<[id := set_proc p t]> (tasks s)) s).
Proof.
  intros Hok Ht. destruct (Hok id t Ht) as (H1 & H2 & H3).
  by apply registry_ok_insert.
Qed.

Lemma registry_ok_Add (w : process.World) (uuid : string) (config : Config) (s : store) :
  registry_ok s -> registry_ok (fst (Add w uuid config s)).
Proof.
  intros Hok. unfold Add.
  set (config' := if (String.length (ID config) =? 0)%nat then _ else _).
  destruct (_ || _); [done|]. destruct (rejects _ _); [done|].
  destruct (rejects _ _); [done|]. destruct (tasks s !! ID config'); [done|].
  destruct (new_proc _ _ _) as [[proc|] [e|]]; try done.
  cbn [fst]. by apply registry_ok_insert.
Qed.

Lemma registry_ok_Update (w : process.World) (id : string) (config : Config) (s : store) :
  registry_ok s -> registry_ok (fst (Update w id config s)).
Proof.
  intros Hok. unfold Update. destruct (tasks s !! id) as [t|] eqn:Ht; [|done].
  destruct (Hok id t Ht) as (H1 & H2 & H3).
  set (t1 := if process.IsRunning (proc t) then _ else t).
  assert (Ht1 : Task_ID t1 = id /\ ID (Task_Config t1) = id
                /\ Reference (Task_Config t1) = Task_Reference t1
                /\ Task_Reference t1 = Task_Reference t).
  { subst t1. by destruct (process.IsRunning (proc t)). }
  destruct Ht1 as (H4 & H5 & H6 & H7).
  set (s1 := set_tasks (<[id := t1]> (tasks s)) s).
  assert (Hok1 : registry_ok s1) by (by apply registry_ok_insert).
  cbv zeta. fold s1.
  destruct (rejects _ _); [done|]. destruct (rejects _ _); [done|].
  destruct (new_proc _ _ _) as [[proc|] [e|]]; try done.
  cbn [fst]. by apply registry_ok_insert.
Qed.

Lemma registry_ok_Delete (w : process.World) (id : string) (s : store) :
  registry_ok s -> registry_ok (fst (Delete w id s)).
Proof.
  intros Hok. unfold Delete. destruct (tasks s !! id) as [t|] eqn:Ht; [|done].
  intros id' t'. simpl. destruct (decide (id = id')) as [<-|Hne].
  - by rewrite lookup_delete_eq.
  - rewrite lookup_delete_ne by done. apply Hok.
Qed.

Lemma registry_ok_step (s : store) (o : op) : registry_ok s -> registry_ok (step s o).
Proof.
  intros Hok. destruct o as [w uuid config|w id config|w id|w id|w id|w1 w2 id]; simpl.
  - by apply registry_ok_Add.
  - by apply registry_ok_Update.
  - by apply registry_ok_Delete.
  - unfold Start, Get. destruct (tasks s !! id) as [t|] eqn:Ht; [|done].
    destruct (process.Start w (proc t)) as [p e]. by apply registry_ok_set_proc.
  - unfold Stop, Get. destruct (tasks s !! id) as [t|] eqn:Ht; [|done].
    destruct (process.Stop w true (proc t)) as [p e]. by apply registry_ok_set_proc.
  - unfold Restart, Get. destruct (tasks s !! id) as [t|] eqn:Ht; [|done].
    cbv zeta. destruct (process.Start w2 _) as [p e]. by apply registry_ok_set_proc.
Qed.

End Registry.

Lemma registry_ok_run (ops : list task.op) (s : task.store) :
  task.registry_ok s -> task.registry_ok (task.run ops s).
Proof.
  unfold task.run. revert s.
  induction ops as [|o ops IH]; intros s Hok; simpl; [done|].
  by apply IH, registry_ok_step.
Qed.

(** X16. The handlers are the only callers of the registry, and they
    pass [Add] and [Update] a config that [requestToConfig] has built for
    that call. In a new registry, and then after every handler that writes
    ([AddProcess], [UpdateProcess], [DeleteProcess] with whatever the
    requests served between its two calls do, [Command]), hence after any
    sequence of their calls of the registry, every task is filed under its
    own ID, which is also the ID of its config, and its reference is the
    one of its config. *)
Theorem registry_keys (ff : ffmpeg.ffmpeg) :
  task.registry_ok (task.NewStore ff)
  /\ (forall w uuid req s,
        task.registry_ok s -> task.registry_ok (fst (api.AddProcess w uuid req s)))
  /\ (forall w id req s,
        task.registry_ok s -> task.registry_ok (fst (api.UpdateProcess w id req s)))
  /\ (forall w id between s,
        (forall s0, task.registry_ok s0 -> task.registry_ok (between s0)) ->
        task.registry_ok s -> task.registry_ok (fst (api.DeleteProcess w id between s)))
  /\ (forall w w2 id req s,
        task.registry_ok s -> task.registry_ok (fst (api.Command w w2 id req s)))
  /\ (forall calls, task.registry_ok (api.serve calls (task.NewStore ff))).
Proof.
  assert (Hnew : task.registry_ok (task.NewStore ff)) by (intros id t; done).
  split; [exact Hnew|]. split; [|split; [|split; [|split]]].
  - intros w uuid req s Hok. unfold api.AddProcess.
    destruct req as [e|req]; [done|]. destruct (_ || _); [done|]. cbv zeta.
    pose proof (registry_ok_Add w uuid (api.requestToConfig req) s Hok) as Hadd.
    destruct (task.Add w uuid (api.requestToConfig req) s) as [s1 r]. cbn [fst] in Hadd.
    destruct (task.res_err r) as [err|].
    + destruct (String.eqb err task.ErrTaskExists); [done|]. by destruct (_ || _).
    + by destruct (task.res_task r).
  - intros w id req s Hok. unfold api.UpdateProcess.
    destruct req as [e|req]; [done|]. destruct (_ || _); [done|]. cbv zeta.
    pose proof (registry_ok_Update w id (task.set_ID id (api.requestToConfig req)) s Hok)
      as Hup.
    destruct (task.Update w id (task.set_ID id (api.requestToConfig req)) s) as [s1 r].
    cbn [fst] in Hup.
    destruct (task.res_err r) as [err|].
    + by destruct (String.eqb err task.ErrNotFound).
    + by destruct (task.res_task r).
  - intros w id between s Hbetween Hok. unfold api.DeleteProcess.
    pose proof (registry_ok_step s (task.Op_Stop w id) Hok) as Hstop.
    cbn [task.step] in Hstop.
    destruct (task.Stop w id s) as [s1 [e|]]; cbn [fst] in Hstop; [done|].
    pose proof (registry_ok_Delete w id (between s1) (Hbetween s1 Hstop)) as Hdel.
    destruct (task.Delete w id (between s1)) as [s2 [e|]]; done.
  - intros w w2 id req s Hok. unfold api.Command.
    destruct req as [e|command]; [done|].
    pose proof (registry_ok_step s (task.Op_Start w id) Hok) as H1.
    pose proof (registry_ok_step s (task.Op_Stop w id) Hok) as H2.
    pose proof (registry_ok_step s (task.Op_Restart w w2 id) Hok) as H3.
    cbn [task.step] in H1, H2, H3.
    destruct (String.eqb command "start");
      [destruct (task.Start w id s) as [s1 [e|]]; done|].
    destruct (String.eqb command "stop");
      [destruct (task.Stop w id s) as [s1 [e|]]; done|].
    destruct (String.eqb command "restart");
      [destruct (task.Restart w w2 id s) as [s1 [e|]]; done|].
    done.
  - intros calls. unfold api.serve. by apply registry_ok_run.
Qed.

(** X17. When [Add] returns no error it returns the task it has filed:
    [Get] then finds that task under the ID of the config (the generated one
    when the config had none), where there was no task before, and the other
    IDs are as they were; the supervisor of the task is new ([finished],
    order [stop]) and runs the binary of the registry with the command of the
    config; its start is launched, and the order of the task is [start],
    exactly when the config asks for autostart. *)
Theorem Add_then_Get (w : process.World) (uuid : string) (config : task.Config)
    (s : task.store) :
  task.res_err (snd (task.Add w uuid config s)) = None ->
  let id := if (String.length (task.ID config) =? 0)%nat then uuid else task.ID config in
  let s' := fst (task.Add w uuid config s) in
  let r := snd (task.Add w uuid config s) in
  exists t,
    task.res_task r = Some t
    /\ task.Get id s' = (Some t, None)
    /\ task.Get id s = (None, Some task.ErrNotFound)
    /\ (forall id', id' <> id -> task.Get id' s' = task.Get id' s)
    /\ task.Task_ID t = id
    /\ task.Task_Reference t = task.Reference config
    /\ task.Order t = (if task.Autostart config then "start" else "stop")
    /\ task.res_go_Start r = task.Autostart config
    /\ process.state_state (task.proc t) = process.stateFinished
    /\ process.order_order (task.proc t) = "stop"
    /\ process.binary (task.proc t) = ffmpeg.binary (task.ffmpeg_ s)
    /\ process.args (task.proc t)
       = task.CreateCommand (if (String.length (task.ID config) =? 0)%nat
                             then task.set_ID uuid config else config).
Proof.
  intros Herr id s' r. subst id s' r. revert Herr. unfold task.Add.
  set (config' := if (String.length (task.ID config) =? 0)%nat then _ else _).
  assert (Hid : task.ID config'
                = (if (String.length (task.ID config) =? 0)%nat then uuid
                   else task.ID config)
                /\ task.Reference config' = task.Reference config
                /\ task.Autostart config' = task.Autostart config).
  { subst config'. by destruct (_ =? _)%nat. }
  destruct Hid as (Hid & Href & Hauto). rewrite <- Hid.
  destruct (_ || _); [done|]. destruct (task.rejects _ _); [done|].
  destruct (task.rejects _ _); [done|].
  destruct (task.tasks s !! task.ID config') eqn:Hfresh; [done|].
  destruct (new_proc_result (process.now w) (task.ffmpeg_ s) config')
    as [[proc Hproc]|[e Hproc]]; rewrite Hproc; [|done].
  intros _. cbn [fst snd task.res_task task.res_go_Start].
  eexists. split; [reflexivity|].
  unfold task.Get. cbn [task.tasks task.set_tasks]. rewrite lookup_insert_eq, Hfresh.
  split; [done|]. split; [done|].
  split. { intros id' Hne. by rewrite lookup_insert_ne. }
  cbn. rewrite Href, Hauto.
  unfold task.new_proc, ffmpeg.New, process.New in Hproc.
  cbn [process.Binary] in Hproc.
  destruct (String.length (ffmpeg.binary (task.ffmpeg_ s)) =? 0)%nat; [done|].
  injection Hproc as <-. done.
Qed.

(** A first task, with an ID of its own. *)
Lemma Add_then_Get_witness :
  let w := example_World 1 None 0 in
  let config := example_task_Config "t1" "r" "/data/in.mp4" "/data/out.mp4" in
  let s := task.NewStore example_ffmpeg in
  exists t,
    task.res_task (snd (task.Add w "u1" config s)) = Some t
    /\ task.Get "t1" (fst (task.Add w "u1" config s)) = (Some t, None)
    /\ task.Order t = "stop".
Proof.
  intros w config s.
  destruct (Add_then_Get w "u1" config s) as (t & H1 & H2 & _ & _ & _ & _ & H7 & _);
    [reflexivity|].
  exists t. split; [exact H1|]. split; [exact H2|exact H7].
Defined.

Section Lifecycle.
Import task.



End Lifecycle.


(** X18. [Restart] of a task whose supervisor is [finished], [failed],
    [killed] or [running], when the child (if any) takes the signal and the
    new spawn succeeds. When the [onExit] of a running supervisor returns,
    [Restart] returns [nil] and leaves the supervisor [running] with order
    [start]; nothing else of the task changes. When the supervisor is
    running under an order other than [stop] and its [onExit] panics, as
    it does once a [Stop(true)] has been waited for, the program dies in
    the [Stop] of [Restart]. *)
Theorem Restart_leaves_running (w1 w2 : process.World) (id : string) (s : task.store)
    (t : task.Task) :
  task.tasks s !! id = Some t ->
  In (process.state_state (task.proc t))
    [process.stateFinished; process.stateFailed; process.stateKilled;
     process.stateRunning] ->
  (process.windows w1 = false /\ process.signal_err w1 = None)
  \/ process.kill_err w1 = None ->
  process.pipe_err w2 = None ->
  process.start_err w2 = None ->
  ((process.state_state (task.proc t) = process.stateRunning ->
    process.onExit_call (process.callbacks_onExit (task.proc t)) <> None) ->
   snd (task.Restart w1 w2 id s) = None
   /\ exists p,
        task.tasks (fst (task.Restart w1 w2 id s)) !! id = Some (task.set_proc p t)
        /\ process.state_state p = process.stateRunning
        /\ process.order_order p = "start"
        /\ process.panicked p = process.panicked (task.proc t))
  /\ (process.state_state (task.proc t) = process.stateRunning ->
      process.order_order (task.proc t) <> "stop" ->
      process.onExit_call (process.callbacks_onExit (task.proc t)) = None ->
      exists p,
        task.tasks (fst (task.Restart w1 w2 id s)) !! id = Some (task.set_proc p t)
        /\ process.panicked p = true).
Proof.
  intros Ht Hin Hsig Hpipe Hstart.
  unfold task.Restart, task.Get. rewrite Ht. cbv zeta. split.
  - intros Hexit.
    destruct (Stop_then_Start w1 w2 (task.proc t) Hin Hsig Hpipe Hstart Hexit)
      as (H1 & H2 & H3 & H4).
    destruct (process.Start w2 _) as [p e]. cbn [fst snd] in *.
    split; [done|]. exists p. simpl. by rewrite lookup_insert_eq.
  - intros Hrun Horder Hspent.
    assert (Hp : process.panicked (fst (process.Stop w1 true (task.proc t))) = true).
    { apply String.eqb_neq in Horder. unfold process.Stop. rewrite Horder.
      destruct (stop_waits w1 (process.set_order "stop" (task.proc t)))
        as (q & -> & _ & _ & _ & _ & _ & _ & _ & _ & Hq9);
        [simpl; rewrite Hrun; simpl; tauto|done|].
      cbn [process.callbacks_onExit process.set_order] in Hq9.
      by rewrite Hspent in Hq9. }
    pose proof (Start_panicked w2 (fst (process.Stop w1 true (task.proc t)))) as Hs.
    destruct (process.Start w2 _) as [p e]. cbn [fst snd] in *.
    exists p. simpl. rewrite lookup_insert_eq. split; [done|]. by rewrite Hs.
Qed.

(** A running task is restarted; restarted once more, it takes the
    program down. *)
Lemma Restart_leaves_running_witness :
  let s0 := fst (task.Add (example_World 1 None 0) "u1"
                   (example_task_Config "t1" "r" "/data/in.mp4" "/data/out.mp4")
                   (task.NewStore example_ffmpeg)) in
  let s1 := fst (task.Start (example_World 2 None 0) "t1" s0) in
  let s2 := fst (task.Restart (example_World 3 None 65280) (example_World 4 None 0)
                   "t1" s1) in
  (exists t,
     task.tasks s1 !! "t1" = Some t
     /\ process.state_state (task.proc t) = process.stateRunning
     /\ snd (task.Restart (example_World 3 None 65280) (example_World 4 None 0) "t1" s1)
        = None)
  /\ (exists t p,
        task.tasks s2 !! "t1" = Some t
        /\ process.state_state (task.proc t) = process.stateRunning
        /\ task.tasks
             (fst (task.Restart (example_World 5 None 65280) (example_World 6 None 0)
                     "t1" s2)) !! "t1" = Some (task.set_proc p t)
        /\ process.panicked p = true).
Proof.
  intros s0 s1 s2. split.
  - eexists. split; [vm_compute; reflexivity|]. split; [reflexivity|].
    eapply (Restart_leaves_running (example_World 3 None 65280) (example_World 4 None 0)
              "t1" s1);
      [vm_compute; reflexivity|vm_compute; tauto|left; split; reflexivity
      |reflexivity|reflexivity|vm_compute; discriminate].
  - eexists.
    edestruct (Restart_leaves_running (example_World 5 None 65280)
                 (example_World 6 None 0) "t1" s2) as [_ Hdies];
      [vm_compute; reflexivity|vm_compute; tauto|left; split; reflexivity
      |reflexivity|reflexivity|].
    destruct Hdies as (p & Hp1 & Hp2);
      [reflexivity|vm_compute; discriminate|reflexivity|].
    exists p. split; [vm_compute; reflexivity|]. split; [reflexivity|].
    split; [exact Hp1|exact Hp2].
Defined.

(** X19. An [Update] whose new config has a rejected input or output
    address, on a task whose supervisor, if it is running, has an [onExit]
    that returns: the error is that of the input when an input address is
    rejected, and else that of the output; no task is returned and no start
    is launched; the task keeps its config and the other tasks are
    untouched; but a supervisor that was running has already been stopped,
    and stays with order [stop]. *)
Theorem Update_rejected_after_stop (w : process.World) (id : string)
    (config : task.Config) (s : task.store) (t : task.Task) :
  task.tasks s !! id = Some t ->
  task.rejects (ffmpeg.ValidateInput (task.ffmpeg_ s)) (task.Input config) = true
  \/ task.rejects (ffmpeg.ValidateOutput (task.ffmpeg_ s)) (task.Output config) = true ->
  (process.IsRunning (task.proc t) = true ->
   process.onExit_call (process.callbacks_onExit (task.proc t)) <> None) ->
  let s' := fst (task.Update w id config s) in
  let r := snd (task.Update w id config s) in
  task.res_err r
  = Some (if task.rejects (ffmpeg.ValidateInput (task.ffmpeg_ s)) (task.Input config)
          then task.ErrInvalidInputAddress else task.ErrInvalidOutputAddress)
  /\ task.res_task r = None
  /\ task.res_go_Start r = false
  /\ (forall id', id' <> id -> task.tasks s' !! id' = task.tasks s !! id')
  /\ exists p,
       task.tasks s' !! id = Some (task.set_proc p t)
       /\ process.panicked p = process.panicked (task.proc t)
       /\ (process.IsRunning (task.proc t) = false -> p = task.proc t)
       /\ (process.IsRunning (task.proc t) = true ->
           p = fst (process.Stop w true (task.proc t))
           /\ process.order_order p = "stop").
Proof.
  intros Ht Hrej Hexit s' r. subst s' r. unfold task.Update. rewrite Ht. cbv zeta.
  cbn [task.Input task.Output task.set_ID task.set_Reference task.ffmpeg_ task.set_tasks].
  assert (Hout : exists p,
            (<[id := if process.IsRunning (task.proc t)
                     then task.set_proc (fst (process.Stop w true (task.proc t))) t
                     else t]> (task.tasks s)) !! id = Some (task.set_proc p t)
            /\ process.panicked p = process.panicked (task.proc t)
            /\ (process.IsRunning (task.proc t) = false -> p = task.proc t)
            /\ (process.IsRunning (task.proc t) = true ->
                p = fst (process.Stop w true (task.proc t))
                /\ process.order_order p = "stop")).
  { rewrite lookup_insert_eq. destruct (process.IsRunning (task.proc t)).
    - eexists. split; [reflexivity|].
      split; [apply Stop_panicked; by apply Hexit|].
      split; [done|]. intros _. split; [done|]. apply Stop_order.
    - exists (task.proc t). split; [by destruct t|]. split; done. }
  assert (Hframe : forall id', id' <> id ->
            (<[id := if process.IsRunning (task.proc t)
                     then task.set_proc (fst (process.Stop w true (task.proc t))) t
                     else t]> (task.tasks s)) !! id' = task.tasks s !! id').
  { intros id' Hne. by rewrite lookup_insert_ne. }
  destruct (task.rejects (ffmpeg.ValidateInput _) _) eqn:Ein.
  - cbn. done.
  - destruct Hrej as [Hrej|Hrej]; [done|]. rewrite Hrej.
    cbn. done.
Qed.

(** A running task is updated with an input address the validator
    blocks: it is left stopped, with its old config. *)
Lemma Update_rejected_after_stop_witness :
  let s0 := fst (task.Add (example_World 1 None 0) "u1"
                   (example_task_Config "t1" "r" "/data/in.mp4" "/data/out.mp4")
                   (task.NewStore example_ffmpeg)) in
  let s1 := fst (task.Start (example_World 2 None 0) "t1" s0) in
  let bad := example_task_Config EmptyString EmptyString "../in.mp4" "/data/out.mp4" in
  let u := task.Update (example_World 3 None 65280) "t1" bad s1 in
  exists t p,
    task.tasks s1 !! "t1" = Some t
    /\ process.IsRunning (task.proc t) = true
    /\ task.res_err (snd u) = Some task.ErrInvalidInputAddress
    /\ task.tasks (fst u) !! "t1" = Some (task.set_proc p t)
    /\ process.order_order p = "stop"
    /\ process.IsRunning p = false.
Proof.
  intros s0 s1 bad u. eexists.
  edestruct (Update_rejected_after_stop (example_World 3 None 65280) "t1" bad s1)
    as (H1 & _ & _ & _ & p & Hp1 & _ & _ & Hp4);
    [vm_compute; reflexivity|left; reflexivity|vm_compute; discriminate|].
  destruct Hp4 as [Hp4 Hp5]; [reflexivity|].
  exists p. split; [vm_compute; reflexivity|]. split; [reflexivity|].
  split; [exact H1|]. split; [exact Hp1|]. split; [exact Hp5|].
  rewrite Hp4. reflexivity.
Defined.



(** X21. [Delete] undoes a successful [Add]: the registry is the one
    before the [Add]. *)
Theorem Delete_undoes_Add (w w' : process.World) (uuid : string) (config : task.Config)
    (s : task.store) :
  task.res_err (snd (task.Add w uuid config s)) = None ->
  let id := if (String.length (task.ID config) =? 0)%nat then uuid else task.ID config in
  task.Delete w' id (fst (task.Add w uuid config s)) = (s, None).
Proof.
  intros Herr id. subst id. revert Herr. unfold task.Add.
  set (config' := if (String.length (task.ID config) =? 0)%nat then _ else _).
  assert (Hid : task.ID config'
                = (if (String.length (task.ID config) =? 0)%nat then uuid
                   else task.ID config)).
  { subst config'. by destruct (_ =? _)%nat. }
  rewrite <- Hid.
  destruct (_ || _); [done|]. destruct (task.rejects _ _); [done|].
  destruct (task.rejects _ _); [done|].
  destruct (task.tasks s !! task.ID config') eqn:Hfresh; [done|].
  destruct (new_proc_result (process.now w) (task.ffmpeg_ s) config')
    as [[proc Hproc]|[e Hproc]]; rewrite Hproc; [|done].
  intros _. unfold task.Delete. cbn [fst task.tasks task.set_tasks].
  rewrite lookup_insert_eq, delete_insert_eq, delete_id by done.
  by destruct s.
Qed.

(** A task added and deleted again. *)
Lemma Delete_undoes_Add_witness :
  let s := task.NewStore example_ffmpeg in
  let config := example_task_Config "t1" "r" "/data/in.mp4" "/data/out.mp4" in
  task.Delete (example_World 2 None 0) "t1"
    (fst (task.Add (example_World 1 None 0) "u1" config s))
  = (s, None).
Proof.
  intros s config.
  apply (Delete_undoes_Add (example_World 1 None 0) (example_World 2 None 0) "u1" config s).
  reflexivity.
Defined.

(** X22. [List] returns exactly the tasks of the registry that carry the
    given reference (any, when it is empty) and whose ID is among the given
    ones (any, when none is given). *)
Theorem List_selects (ids : list string) (reference : string) (s : task.store)
    (t : task.Task) :
  In t (task.List ids reference s)
  <-> (exists id, task.tasks s !! id = Some t)
      /\ (reference = EmptyString \/ task.Task_Reference t = reference)
      /\ (ids = [] \/ In (task.Task_ID t) ids).
Proof.
  unfold task.List. rewrite filter_In, in_map_iff, andb_true_iff.
  assert (Hmem : (exists x, snd x = t /\ In x (map_to_list (task.tasks s)))
                 <-> exists id, task.tasks s !! id = Some t).
  { split.
    - intros ([id t'] & Heq & Hin). simpl in Heq. subst t'. exists id.
      by apply elem_of_map_to_list, list_elem_of_In.
    - intros [id Hid]. exists (id, t). split; [done|].
      by apply list_elem_of_In, elem_of_map_to_list. }
  assert (Href : negb ((0 <? String.length reference)%nat
                       && negb (String.eqb (task.Task_Reference t) reference)) = true
                 <-> reference = EmptyString \/ task.Task_Reference t = reference).
  { destruct reference as [|c r]; [simpl; tauto|].
    cbn [String.length Nat.ltb Nat.leb andb].
    destruct (String.eqb_spec (task.Task_Reference t) (String c r)); simpl; split;
      try tauto; try done. intros [?|?]; done. }
  assert (Hids : (if (0 <? length ids)%nat
                  then existsb (String.eqb (task.Task_ID t)) ids else true) = true
                 <-> ids = [] \/ In (task.Task_ID t) ids).
  { destruct ids as [|i ids]; [simpl; tauto|].
    cbn [length Nat.ltb Nat.leb]. rewrite existsb_exists. split.
    - intros (x & Hx & Heq). apply String.eqb_eq in Heq. right. by rewrite Heq.
    - intros [?|Hx]; [done|]. exists (task.Task_ID t). split; [done|].
      apply String.eqb_refl. }
  rewrite Hmem, Href, Hids. tauto.
Qed.

(** ** The handlers *)

Section ApiProperties.
Import api.

Lemma fold_left_snoc_map {A B : Type} (f : A -> B) (l : list A) (acc : list B) :
  fold_left (fun acc x => acc ++ [f x]) l acc = acc ++ map f l.
Proof.
  revert acc. induction l as [|x l IH]; intros acc; simpl; [by rewrite app_nil_r|].
  by rewrite IH, <- app_assoc.
Qed.

Lemma megabytes_round_trip (m : Z) :
  0 <= m < 2 ^ 64 ->
  wrap_uint64 (wrap_uint64 (m * 1024) * 1024) / 1024 / 1024 = m mod 2 ^ 44.
Proof.
  intros Hm. unfold wrap_uint64, uint64_mod.
  rewrite Zmult_mod_idemp_l.
  rewrite Z.div_div by lia.
  replace (m * 1024 * 1024) with (m * 2 ^ 20) by lia.
  change (1024 * 1024) with (2 ^ 20).
  replace (2 ^ 64) with (2 ^ 44 * 2 ^ 20) by lia.
  rewrite Zmult_mod_distr_r. rewrite Z.div_mul by lia. done.
Qed.

End ApiProperties.

(** X23. A config made by [requestToConfig] is shown by
    [taskToProcessConfig] with the inputs, outputs, options and settings of
    the request; the memory limit, in megabytes, comes back modulo [2^44],
    hence unchanged when it is below [2^44]. *)
Theorem config_round_trip (req : api.ProcessConfigRequest) (t : task.Task) :
  0 <= api.lim_Memory (api.req_Limits req) < 2 ^ 64 ->
  task.Task_Config t = api.requestToConfig req ->
  let c := api.taskToProcessConfig t in
  api.pc_Input c = api.req_Input req
  /\ api.pc_Output c = api.req_Output req
  /\ api.pc_Options c = api.req_Options req
  /\ api.pc_Reconnect c = api.req_Reconnect req
  /\ api.pc_ReconnectDelay c = api.req_ReconnectDelay req
  /\ api.pc_Autostart c = api.req_Autostart req
  /\ api.pc_StaleTimeout c = api.req_StaleTimeout req
  /\ api.lim_CPU (api.pc_Limits c) = api.lim_CPU (api.req_Limits req)
  /\ api.lim_WaitFor (api.pc_Limits c) = api.lim_WaitFor (api.req_Limits req)
  /\ api.lim_Memory (api.pc_Limits c) = api.lim_Memory (api.req_Limits req) mod 2 ^ 44
  /\ (api.lim_Memory (api.req_Limits req) < 2 ^ 44 ->
      api.lim_Memory (api.pc_Limits c) = api.lim_Memory (api.req_Limits req)).
Proof.
  intros Hm Hc c. subst c. unfold api.taskToProcessConfig. rewrite Hc.
  unfold api.requestToConfig. cbn -[wrap_uint64 Z.div Z.pow Z.modulo].
  rewrite !fold_left_snoc_map. cbn [app]. rewrite !map_map.
  assert (Hio : forall l : list api.ProcessConfigIO,
            map (fun x => {| api.pio_ID := api.pio_ID x;
                             api.pio_Address := api.pio_Address x;
                             api.pio_Options := api.pio_Options x |}) l = l).
  { intros l. induction l as [|[a b o] l IH]; simpl; [done|]. by rewrite IH. }
  cbn [task.io_ID task.io_Address task.io_Options]. rewrite !Hio.
  rewrite megabytes_round_trip by done.
  repeat (split; [done|]). intros Hlt. apply Z.mod_small. lia.
Qed.

(** A request with a limit of 512 megabytes, added and shown. *)
Lemma config_round_trip_witness :
  let req :=
    {| api.req_ID := "t1"; api.req_Reference := "r";
       api.req_Input := [{| api.pio_ID := "in"; api.pio_Address := "/data/in.mp4";
                            api.pio_Options := [] |}];
       api.req_Output := [{| api.pio_ID := "out"; api.pio_Address := "/data/out.mp4";
                             api.pio_Options := ["-c:v"; "libx264"] |}];
       api.req_Options := ["-y"]; api.req_Reconnect := true;
       api.req_ReconnectDelay := 5; api.req_Autostart := false;
       api.req_StaleTimeout := 30;
       api.req_Limits := {| api.lim_CPU := 0%float; api.lim_Memory := 512;
                            api.lim_WaitFor := 0 |} |} in
  exists t,
    task.res_task (snd (task.Add (example_World 1 None 0) "u1" (api.requestToConfig req)
                          (task.NewStore example_ffmpeg))) = Some t
    /\ api.pc_Input (api.taskToProcessConfig t) = api.req_Input req
    /\ api.lim_Memory (api.pc_Limits (api.taskToProcessConfig t)) = 512.
Proof.
  intros req. eexists. split; [vm_compute; reflexivity|].
  match goal with
  | |- api.pc_Input (api.taskToProcessConfig ?t) = _ /\ _ =>
      destruct (config_round_trip req t)
        as (H1 & _ & _ & _ & _ & _ & _ & _ & _ & _ & H11);
        [unfold req; cbn; lia|reflexivity|]
  end.
  split; [exact H1|]. apply H11. reflexivity.
Defined.

Section HandlerProperties.
Import api.

(** [Add] either fails and leaves the store alone, or files a new task. *)
Lemma Add_cases (w : process.World) (uuid : string) (config : task.Config)
    (s : task.store) :
  (exists e, task.Add w uuid config s = (s, task.fail e))
  \/ (exists t,
        task.Add w uuid config s
        = (task.set_tasks (<[task.Task_ID t := t]> (task.tasks s)) s,
           {| task.res_task := Some t; task.res_err := None;
              task.res_go_Start := task.Autostart config |})
        /\ task.tasks s !! task.Task_ID t = None).
Proof.
  unfold task.Add.
  set (config' := if (String.length (task.ID config) =? 0)%nat then _ else _).
  assert (Hauto : task.Autostart config' = task.Autostart config).
  { subst config'. by destruct (_ =? _)%nat. }
  destruct (_ || _); [left; by eexists|].
  destruct (task.rejects _ _); [left; by eexists|].
  destruct (task.rejects _ _); [left; by eexists|].
  destruct (task.tasks s !! task.ID config') eqn:Hfresh; [left; by eexists|].
  destruct (new_proc_result (process.now w) (task.ffmpeg_ s) config')
    as [[proc Hproc]|[e Hproc]]; rewrite Hproc; [|left; by eexists].
  right. rewrite Hauto.
  match goal with
  | |- context [Some ?t] => exists t
  end.
  split; [reflexivity|exact Hfresh].
Qed.

End HandlerProperties.

(** X24. [AddProcess] answers 400 with an error body and leaves the
    registry as it was, or answers 200 with the config of a task that it has
    filed under an ID that was free. *)
Theorem AddProcess_answers (w : process.World) (uuid : string)
    (req : string + api.ProcessConfigRequest) (s : task.store) :
  let s' := fst (api.AddProcess w uuid req s) in
  let resp := snd (api.AddProcess w uuid req s) in
  (fst resp = api.StatusBadRequest /\ s' = s
   /\ exists msg detail, snd resp = api.ErrorResponse api.StatusBadRequest msg detail)
  \/ (fst resp = api.StatusOK
      /\ exists t,
           snd resp = api.Config (api.taskToProcessConfig t)
           /\ task.tasks s !! task.Task_ID t = None
           /\ task.Get (task.Task_ID t) s' = (Some t, None)).
Proof.
  intros s' resp. subst s' resp. unfold api.AddProcess.
  destruct req as [e|req]; [left; cbn; eauto|].
  destruct (_ || _); [left; cbn; eauto|]. cbv zeta.
  destruct (Add_cases w uuid (api.requestToConfig req) s) as [[e ->]|[t [-> Hfresh]]].
  - left. cbn [task.res_err task.fail].
    destruct (String.eqb e task.ErrTaskExists); [cbn; eauto|].
    destruct (_ || _); cbn; eauto.
  - right. cbn [task.res_err task.res_task fst snd]. split; [done|].
    exists t. split; [done|]. split; [done|].
    unfold task.Get. cbn [task.tasks task.set_tasks]. by rewrite lookup_insert_eq.
Qed.




(** ** The construction of a validator *)

Section ValidatorProperties.
Import ffmpeg.
Variable TrimSpace : string -> string.
Variable Compile : string -> Regexp + string.

Lemma NewValidator_loop_inl (kind : string) (exps : list string)
    (acc a : list Regexp) :
  NewValidator_loop TrimSpace Compile kind exps acc = inl a ->
  a = acc ++ omap (compiled TrimSpace Compile) exps.
Proof.
  revert acc. induction exps as [|e exps IH]; intros acc.
  - simpl. intros [= <-]. by rewrite app_nil_r.
  - cbn [NewValidator_loop omap list_omap]. unfold compiled at 1.
    destruct (String.eqb_spec (TrimSpace e) EmptyString) as [Hblank|Hfull].
    + apply IH.
    + destruct (Compile (TrimSpace e)) as [re|err]; [|done].
      intros Hloop. rewrite (IH _ Hloop). by rewrite <- app_assoc.
Qed.

Lemma omap_compiled_blank (l : list string) :
  Forall (fun e => TrimSpace e = EmptyString) l ->
  omap (compiled TrimSpace Compile) l = [].
Proof.
  intros Hl. induction Hl as [|e l He Hl IH]; [done|].
  cbn [omap list_omap]. unfold compiled at 1. by rewrite He.
Qed.

Lemma NewValidator_loop_error (kind : string) (exps : list string) (acc : list Regexp)
    (e : string) :
  NewValidator_loop TrimSpace Compile kind exps acc = inr e ->
  exists exp err,
    In exp exps /\ TrimSpace exp <> EmptyString
    /\ Compile (TrimSpace exp) = inr err
    /\ e = "invalid " +:+ kind +:+ " expression '" +:+ TrimSpace exp +:+ "': " +:+ err.
Proof.
  revert acc. induction exps as [|x exps IH]; intros acc; [done|].
  cbn [NewValidator_loop].
  destruct (String.eqb_spec (TrimSpace x) EmptyString) as [Hblank|Hfull].
  - intros Hloop. destruct (IH _ Hloop) as (exp & err & Hin & Hrest).
    exists exp, err. split; [by right|done].
  - destruct (Compile (TrimSpace x)) as [re|err] eqn:Ec.
    + intros Hloop. destruct (IH _ Hloop) as (exp & err & Hin & Hrest).
      exists exp, err. split; [by right|done].
    + intros [= <-]. exists x, err. split; [by left|done].
Qed.

End ValidatorProperties.

(** X27. [NewValidator] either returns a validator whose allow and block
    lists are the compiled expressions that are not blank, in order (so that,
    when every expression is blank, it accepts every address), or returns
    the error of an expression that is not blank and does not compile, named
    as an allow or a block expression. *)
Theorem NewValidator_spec (TrimSpace : string -> string)
    (Compile : string -> ffmpeg.Regexp + string) (allow block : list string) :
  match ffmpeg.NewValidator TrimSpace Compile allow block with
  | (Some v, None) =>
      ffmpeg.allow v = omap (ffmpeg.compiled TrimSpace Compile) allow
      /\ ffmpeg.block v = omap (ffmpeg.compiled TrimSpace Compile) block
      /\ (Forall (fun e => TrimSpace e = EmptyString) (allow ++ block) ->
          forall text, ffmpeg.IsValid v text = true)
  | (None, Some e) =>
      exists kind exp err,
        ((kind = "allow" /\ In exp allow) \/ (kind = "block" /\ In exp block))
        /\ TrimSpace exp <> EmptyString
        /\ Compile (TrimSpace exp) = inr err
        /\ e = "invalid " +:+ kind +:+ " expression '" +:+ TrimSpace exp +:+ "': " +:+ err
  | _ => False
  end.
Proof.
  unfold ffmpeg.NewValidator.
  destruct (ffmpeg.NewValidator_loop _ _ "allow" allow []) as [a|e] eqn:Ea.
  - destruct (ffmpeg.NewValidator_loop _ _ "block" block []) as [b|e] eqn:Eb.
    + apply NewValidator_loop_inl in Ea, Eb. cbn [app] in Ea, Eb. subst a b.
      cbn [ffmpeg.allow ffmpeg.block]. split; [done|]. split; [done|].
      intros Hall text. apply Forall_app in Hall as [Ha Hb].
      unfold ffmpeg.IsValid. cbn [ffmpeg.allow ffmpeg.block].
      by rewrite (omap_compiled_blank _ _ _ Ha), (omap_compiled_blank _ _ _ Hb).
    + destruct (NewValidator_loop_error _ _ _ _ _ _ Eb) as (exp & err & Hin & Hrest).
      exists "block", exp, err. split; [right; by split|done].
  - destruct (NewValidator_loop_error _ _ _ _ _ _ Ea) as (exp & err & Hin & Hrest).
    exists "allow", exp, err. split; [left; by split|done].
Qed.

(** ** The settings of the server *)

(** X28. When the server gets past its settings, the bind address and the
    binary path are not empty; each is the flag when the flag is given, and
    without flag and config file each is the default. *)
Theorem settings_not_empty (Unmarshal : string -> config.Config -> config.Config * error)
    (configPath bind ffmpegBin : string) (file : config.ReadFile_result)
    (bindAddr ffmpegPath : string) :
  config.settings Unmarshal configPath bind ffmpegBin file = inl (bindAddr, ffmpegPath) ->
  bindAddr <> EmptyString /\ ffmpegPath <> EmptyString
  /\ (bind <> EmptyString -> bindAddr = bind)
  /\ (ffmpegBin <> EmptyString -> ffmpegPath = ffmpegBin)
  /\ (configPath = EmptyString -> bind = EmptyString -> bindAddr = ":8080")
  /\ (configPath = EmptyString -> ffmpegBin = EmptyString -> ffmpegPath = "ffmpeg").
Proof.
  unfold config.settings.
  assert (Hload : forall cfg, config.Load Unmarshal file = inl cfg ->
            config.Server_Bind cfg <> EmptyString /\ config.FFmpeg_Path cfg <> EmptyString).
  { intros cfg. unfold config.Load. destruct file as [data|e|e]; [| |done].
    - destruct (Unmarshal data config.Default) as [c [e|]]; [done|].
      intros [= <-].
      destruct (String.eqb_spec (config.Server_Bind c) EmptyString);
        cbn [config.FFmpeg_Path config.Server_Bind];
        destruct (String.eqb_spec (config.FFmpeg_Path c) EmptyString);
        cbn [config.FFmpeg_Path config.Server_Bind]; done.
    - by intros [= <-]. }
  destruct (String.eqb_spec configPath EmptyString) as [->|Hpath]; cbn [negb].
  - destruct (String.eqb_spec bind EmptyString) as [->|Hb];
      destruct (String.eqb_spec ffmpegBin EmptyString) as [->|Hf];
      cbn; intros [= <- <-]; done.
  - destruct (config.Load Unmarshal file) as [cfg|e] eqn:El; [|done].
    destruct (Hload cfg eq_refl) as [H1 H2].
    destruct (String.eqb_spec bind EmptyString) as [->|Hb];
      destruct (String.eqb_spec ffmpegBin EmptyString) as [->|Hf];
      cbn; intros [= <- <-]; done.
Qed.

(** A config file that names a binary only. *)
Lemma settings_not_empty_witness :
  let Unmarshal (data : string) (cfg : config.Config) : config.Config * error :=
    ({| config.Server_Bind := EmptyString; config.FFmpeg_Path := data |}, None) in
  config.settings Unmarshal "server.yaml" "0.0.0.0:9000" EmptyString
    (config.ReadFile_data "/opt/ffmpeg/bin/ffmpeg")
  = inl ("0.0.0.0:9000", "/opt/ffmpeg/bin/ffmpeg")
  /\ "/opt/ffmpeg/bin/ffmpeg" <> EmptyString.
Proof.
  intros Unmarshal. split; [reflexivity|].
  apply (settings_not_empty Unmarshal "server.yaml" "0.0.0.0:9000" EmptyString
           (config.ReadFile_data "/opt/ffmpeg/bin/ffmpeg")
           "0.0.0.0:9000" "/opt/ffmpeg/bin/ffmpeg").
  reflexivity.
Defined.

(** ** The capability listings *)

Section SkillsProperties.
Import skills.
Variable TrimSpace : string -> string.

Lemma parseProtocols_loop_skip (pre : list string) (rest : list string)
    (p : list Protocol * list Protocol) :
  Forall no_header pre ->
  parseProtocols_loop TrimSpace (pre ++ rest) EmptyString p
  = parseProtocols_loop TrimSpace rest EmptyString p.
Proof.
  intros Hpre. induction Hpre as [|l pre [H1 H2] Hpre IH]; [done|].
  cbn [app parseProtocols_loop].
  apply String.eqb_neq in H1, H2. by rewrite H1, H2.
Qed.

Lemma parseProtocols_loop_input (ins rest : list string)
    (p : list Protocol * list Protocol) :
  Forall no_header ins ->
  parseProtocols_loop TrimSpace (ins ++ rest) "input" p
  = parseProtocols_loop TrimSpace rest "input" (fst p ++ map (protocol_of TrimSpace) ins, snd p).
Proof.
  intros Hins. revert p. induction Hins as [|l ins [H1 H2] Hins IH]; intros p.
  - simpl. rewrite app_nil_r. by destruct p.
  - cbn [app parseProtocols_loop].
    apply String.eqb_neq in H1, H2. rewrite H1, H2.
    change (String.eqb "input" EmptyString) with false.
    change (String.eqb "input" "input") with true. cbv iota zeta.
    rewrite IH. cbn [fst snd map]. by rewrite <- app_assoc.
Qed.

Lemma parseProtocols_loop_output (outs : list string)
    (p : list Protocol * list Protocol) :
  Forall no_header outs ->
  parseProtocols_loop TrimSpace outs "output" p
  = (fst p, snd p ++ map (protocol_of TrimSpace) outs).
Proof.
  intros Houts. revert p. induction Houts as [|l outs [H1 H2] Houts IH]; intros p.
  - simpl. rewrite app_nil_r. by destruct p.
  - cbn [parseProtocols_loop].
    apply String.eqb_neq in H1, H2. rewrite H1, H2.
    change (String.eqb "output" EmptyString) with false.
    change (String.eqb "output" "input") with false. cbv iota zeta.
    rewrite IH. cbn [fst snd map]. by rewrite <- app_assoc.
Qed.

End SkillsProperties.

(** X29. On a listing made of lines before the header [Input:], the input
    lines, the header [Output:] and the output lines, none of these lines
    being a header, [parseProtocols] returns the input lines and the output
    lines, each trimmed, as the ID and the name of a protocol; the lines
    before the first header are dropped. *)
Theorem parseProtocols_listing (TrimSpace : string -> string)
    (pre ins outs : list string) :
  Forall skills.no_header pre -> Forall skills.no_header ins -> Forall skills.no_header outs ->
  skills.parseProtocols TrimSpace (pre ++ ["Input:"] ++ ins ++ ["Output:"] ++ outs)
  = (map (skills.protocol_of TrimSpace) ins, map (skills.protocol_of TrimSpace) outs).
Proof.
  intros Hpre Hins Houts. unfold skills.parseProtocols.
  rewrite parseProtocols_loop_skip by done.
  cbn [app skills.parseProtocols_loop].
  change (String.eqb "Input:" "Input:") with true. cbv iota.
  rewrite parseProtocols_loop_input by done.
  cbn [app skills.parseProtocols_loop fst snd].
  change (String.eqb "Output:" "Input:") with false.
  change (String.eqb "Output:" "Output:") with true. cbv iota.
  by rewrite parseProtocols_loop_output.
Qed.

(** The listing of an FFmpeg with two input protocols and one output
    protocol. *)
Lemma parseProtocols_listing_witness :
  skills.parseProtocols skip_spaces
    (["Supported file protocols:"] ++ ["Input:"] ++ ["  file"; "  http"]
     ++ ["Output:"] ++ ["  rtmp"])
  = (map (skills.protocol_of skip_spaces) ["  file"; "  http"],
     map (skills.protocol_of skip_spaces) ["  rtmp"]).
Proof.
  apply (parseProtocols_listing skip_spaces ["Supported file protocols:"]
           ["  file"; "  http"] ["  rtmp"]).
  - repeat constructor; discriminate.
  - repeat constructor; discriminate.
  - repeat constructor; discriminate.
Defined.

Section HWAccels.
Import skills.
Variable TrimSpace : string -> string.

Lemma parseHWAccels_loop_idle (pre rest : list string) (accels : list HWAccel) :
  ~ In "Hardware acceleration methods:" pre ->
  parseHWAccels_loop TrimSpace (pre ++ rest) false accels
  = parseHWAccels_loop TrimSpace rest false accels.
Proof.
  induction pre as [|l pre IH]; intros Hpre; [done|].
  cbn [app parseHWAccels_loop].
  destruct (String.eqb_spec l "Hardware acceleration methods:") as [->|Hne].
  - exfalso. apply Hpre. by left.
  - cbn [negb orb]. apply IH. intros Hin. apply Hpre. by right.
Qed.

Lemma re_hwaccel_header : re_hwaccel "Hardware acceleration methods:" = false.
Proof. reflexivity. Qed.

Lemma parseHWAccels_loop_started (rest : list string) (accels : list HWAccel) :
  parseHWAccels_loop TrimSpace rest true accels
  = accels ++ map (fun line => {| HWAccel_Id := TrimSpace line;
                                  HWAccel_Name := TrimSpace line |})
                (List.filter re_hwaccel rest).
Proof.
  revert accels. induction rest as [|l rest IH]; intros accels.
  - simpl. by rewrite app_nil_r.
  - cbn [parseHWAccels_loop List.filter].
    destruct (String.eqb_spec l "Hardware acceleration methods:") as [->|Hne].
    + rewrite re_hwaccel_header. apply IH.
    + cbn [negb orb]. destruct (re_hwaccel l); cbn [negb]; [|apply IH].
      cbv zeta. rewrite IH. cbn [map]. by rewrite <- app_assoc.
Qed.

End HWAccels.

(** X30. [parseHWAccels] returns nothing for data without the header line;
    after the first header line it returns, in order, every line made of
    letters and digits only, trimmed, as the ID and the name of a method. *)
Theorem parseHWAccels_listing (TrimSpace : string -> string) (pre rest : list string) :
  ~ In "Hardware acceleration methods:" pre ->
  skills.parseHWAccels TrimSpace pre = []
  /\ skills.parseHWAccels TrimSpace (pre ++ ["Hardware acceleration methods:"] ++ rest)
     = map (fun line => {| skills.HWAccel_Id := TrimSpace line;
                           skills.HWAccel_Name := TrimSpace line |})
         (List.filter skills.re_hwaccel rest).
Proof.
  intros Hpre. unfold skills.parseHWAccels. split.
  - rewrite <- (app_nil_r pre). by rewrite parseHWAccels_loop_idle.
  - rewrite parseHWAccels_loop_idle by done.
    cbn [app skills.parseHWAccels_loop].
    change (String.eqb "Hardware acceleration methods:" "Hardware acceleration methods:")
      with true. cbv iota.
    by rewrite parseHWAccels_loop_started.
Qed.

(** The banner is dropped, the blank line too. *)
Lemma parseHWAccels_listing_witness :
  skills.parseHWAccels skip_spaces
    (["ffmpeg version 6.0"] ++ ["Hardware acceleration methods:"] ++ ["vaapi"; EmptyString; "cuda"])
  = [{| skills.HWAccel_Id := "vaapi"; skills.HWAccel_Name := "vaapi" |};
     {| skills.HWAccel_Id := "cuda"; skills.HWAccel_Name := "cuda" |}].
Proof.
  apply (parseHWAccels_listing skip_spaces ["ffmpeg version 6.0"] ["vaapi"; EmptyString; "cuda"]).
  intros [Heq|[]]. discriminate Heq.
Defined.
